(** * IT-JOBS dashboard: the recommendation core of [Dashboard/recommendation.py]

    The development embeds the scoring engine of the dashboard: salary
    parsing, data loading, TF-IDF vectorisation, cosine similarity, salary
    normalisation and the weighted ranking, together with the part of
    [recommendation_page] that wires them and the job card that it draws for
    each of the first ten recommendations.

    Conventions of the embedding.
    - Python text is a [string] holding its UTF-8 bytes.  Among decimal
      digits, blanks, letters and word characters only the ASCII ones are
      recognised, so that a statement which depends on them is made for the
      texts on which this is what Python does: ASCII texts ([ascii_text]), or
      texts with no decimal digit other than 0 to 9 ([no_foreign_digit]).
    - Python [int] is [Z]; as in the interpreter, a text of more than 4300
      digits is not converted.
    - In [Float] and [Sklearn] the [float64] arithmetic is exact: a float is a
      real number or one of the special values [nan], [+inf], [-inf], and
      signed zeros are outside the model.  [Binary64] has the similarity
      with every operation rounded to binary64, and shows where a rounded
      score leaves the bounds of the exact one.
    - A caught exception is a value of [exn]; code that may raise returns
      [result].
    - Objects that the code mutates in place (data frames) live in a heap
      addressed by locations. *)

From Stdlib Require Import Reals Lra ZArith String Ascii List Permutation Sorted.
From Stdlib Require OrderedTypeEx PrimFloat.
From stdpp Require Import gmap strings list fin_maps sorting.

Local Open Scope string_scope.

(** ** Python values and exceptions *)

Inductive exn := KeyError | AttributeError | TypeError | ValueError.

Inductive result (A : Type) :=
  | Ok (a : A)
  | Raise (e : exn).
Arguments Ok {A} a.
Arguments Raise {A} e.

#[global] Instance result_ret : MRet result := fun A a => Ok a.
#[global] Instance result_bind : MBind result := fun A B f m =>
  match m with
  | Ok a => f a
  | Raise e => Raise e
  end.

(** ** Text scanning: the two regular expressions of the program *)

Module Text.

Definition in_range (lo hi : N) (c : ascii) : bool :=
  let n := N_of_ascii c in (N.leb lo n && N.leb n hi)%bool.

(** [\d] *)
Definition is_digit (c : ascii) : bool := in_range 48 57 c.

(** [\w] *)
Definition is_word (c : ascii) : bool :=
  (in_range 48 57 c || in_range 65 90 c || in_range 97 122 c
   || Ascii.eqb c "_")%bool.

(** [str.lower] *)
Definition lower_char (c : ascii) : ascii :=
  if in_range 65 90 c then ascii_of_N (N_of_ascii c + 32) else c.

Fixpoint lower (s : string) : string :=
  match s with
  | EmptyString => EmptyString
  | String c s' => String (lower_char c) (lower s')
  end.

(** [s.replace(old, EmptyString)] for a one-character [old] *)
Fixpoint remove_char (old : ascii) (s : string) : string :=
  match s with
  | EmptyString => EmptyString
  | String c s' =>
      if Ascii.eqb c old then remove_char old s'
      else String c (remove_char old s')
  end.

Definition emit (cur : string) : list string :=
  match cur with
  | EmptyString => []
  | _ => [cur]
  end.

(** [re.findall] for a pattern [c+] where [c] is a character class: the
    scanner walks the text once, [cur] is the match being extended. *)
Fixpoint scan (cls : ascii -> bool) (cur : string) (s : string) : list string :=
  match s with
  | EmptyString => emit cur
  | String c s' =>
      if cls c then scan cls (cur ++ String c EmptyString) s'
      else emit cur ++ scan cls EmptyString s'
  end.

(** [re.findall(r"\d+", s)] *)
Definition findall_digits (s : string) : list string := scan is_digit EmptyString s.

(** [re.findall(r"(?u)\b\w\w+\b", s)]: the word runs of two characters or more *)
Definition findall_words (s : string) : list string :=
  List.filter (fun w => 2 <=? String.length w)%nat (scan is_word EmptyString s).

Definition digit_value (c : ascii) : Z := Z.of_N (N_of_ascii c) - 48.

Fixpoint int_acc (acc : Z) (s : string) : Z :=
  match s with
  | EmptyString => acc
  | String c s' => int_acc (10 * acc + digit_value c) s'
  end.

(** the number that a run of digits denotes *)
Definition int (s : string) : Z := int_acc 0 s.

(** the interpreter's default limit on the number of digits of a converted
    text, [sys.get_int_max_str_digits()] *)
Definition int_max_str_digits : N := 4300.

(** a run of digits that [int] accepts *)
Definition convertible (s : string) : bool :=
  N.leb (N.of_nat (String.length s)) int_max_str_digits.

(** [int(s)] on a run of digits: a run longer than the limit is refused *)
Definition int_checked (s : string) : result Z :=
  if convertible s then Ok (int s) else Raise ValueError.

Fixpoint all_digits (s : string) : Prop :=
  match s with
  | EmptyString => True
  | String c s' => is_digit c = true /\ all_digits s'
  end.


End Text.

(** ** Floating-point values under exact arithmetic *)

Module Float.

Local Open Scope R_scope.

Inductive fval :=
  | Fin (r : R)
  | PInf
  | NInf
  | NaN.

Definition of_int (z : Z) : fval := Fin (IZR z).

Definition isnan (x : fval) : bool :=
  match x with
  | NaN => true
  | _ => false
  end.

Definition fneg (x : fval) : fval :=
  match x with
  | Fin a => Fin (- a)
  | PInf => NInf
  | NInf => PInf
  | NaN => NaN
  end.

Definition fadd (x y : fval) : fval :=
  match x, y with
  | NaN, _ | _, NaN => NaN
  | Fin a, Fin b => Fin (a + b)
  | PInf, NInf | NInf, PInf => NaN
  | PInf, _ | _, PInf => PInf
  | NInf, _ | _, NInf => NInf
  end.

Definition fsub (x y : fval) : fval := fadd x (fneg y).

(** the infinity of the sign of [a], or of the opposite sign when [positive]
    is false; [nan] when [a] is zero *)
Definition signed_inf (a : R) (positive : bool) : fval :=
  if Req_dec_T a 0 then NaN
  else if Rlt_dec 0 a then (if positive then PInf else NInf)
  else (if positive then NInf else PInf).

Definition fmul (x y : fval) : fval :=
  match x, y with
  | NaN, _ | _, NaN => NaN
  | Fin a, Fin b => Fin (a * b)
  | Fin a, PInf | PInf, Fin a => signed_inf a true
  | Fin a, NInf | NInf, Fin a => signed_inf a false
  | PInf, PInf | NInf, NInf => PInf
  | PInf, NInf | NInf, PInf => NInf
  end.

(** true division of arrays: a zero divisor gives [nan] or an infinity,
    never an exception *)
Definition fdiv (x y : fval) : fval :=
  match x, y with
  | NaN, _ | _, NaN => NaN
  | Fin a, Fin b =>
      if Req_dec_T b 0 then signed_inf a true else Fin (a / b)
  | Fin _, (PInf | NInf) => Fin 0
  | (PInf | NInf), (PInf | NInf) => NaN
  | PInf, Fin b => if Rlt_dec b 0 then NInf else PInf
  | NInf, Fin b => if Rlt_dec b 0 then PInf else NInf
  end.

(** [x <= y]; every comparison with [nan] is false *)
Definition fle (x y : fval) : Prop :=
  match x, y with
  | NaN, _ | _, NaN => False
  | NInf, _ | _, PInf => True
  | Fin a, Fin b => a <= b
  | _, _ => False
  end.

Definition fle_dec (x y : fval) : {fle x y} + {~ fle x y}.
Proof.
  destruct x as [a| | |], y as [b| | |]; simpl;
    first [ apply Rle_dec | left; exact I | right; exact (fun H : False => H) ].
Defined.

Definition flt (x y : fval) : Prop := fle x y /\ ~ fle y x.

Definition flt_dec (x y : fval) : {flt x y} + {~ flt x y}.
Proof.
  unfold flt. destruct (fle_dec x y) as [H|H].
  - destruct (fle_dec y x) as [H'|H'].
    + right. intros [_ K]. exact (K H').
    + left. split; assumption.
  - right. intros [K _]. exact (H K).
Defined.

Definition fmin2 (x y : fval) : fval := if fle_dec x y then x else y.
Definition fmax2 (x y : fval) : fval := if fle_dec x y then y else x.

Definition notnan (xs : list fval) : list fval :=
  List.filter (fun x => negb (isnan x)) xs.

(** [Series.min()] and [Series.max()]: nulls are skipped; the result is
    [nan] when nothing is left *)
Definition nanmin (xs : list fval) : fval :=
  match notnan xs with
  | [] => NaN
  | x :: l => fold_left fmin2 l x
  end.

Definition nanmax (xs : list fval) : fval :=
  match notnan xs with
  | [] => NaN
  | x :: l => fold_left fmax2 l x
  end.

End Float.
Import Float.

(** ** Cells and data frames *)

Inductive cell :=
  | Null                (* None *)
  | Str (s : string)
  | Int (z : Z)
  | Float (x : fval).

(** [pd.isna] *)
Definition isna (c : cell) : bool :=
  match c with
  | Null | Float NaN => true
  | _ => false
  end.

(** the value of a cell in float arithmetic; text does not take part in it *)
Definition as_float (c : cell) : result fval :=
  match c with
  | Null => Ok NaN
  | Int z => Ok (of_int z)
  | Float x => Ok x
  | Str _ => Raise TypeError
  end.

(** the text of a document cell, as the vectorizer's preprocessor requires *)
Definition as_text (c : cell) : result string :=
  match c with
  | Str s => Ok s
  | Null => Raise ValueError
  | _ => Raise AttributeError
  end.

Fixpoint mapM_result {A B} (f : A -> result B) (l : list A) : result (list B) :=
  match l with
  | [] => Ok []
  | x :: l' =>
      match f x with
      | Ok y =>
          match mapM_result f l' with
          | Ok ys => Ok (y :: ys)
          | Raise e => Raise e
          end
      | Raise e => Raise e
      end
  end.

(** A row is a dictionary from column names to cells, as the database cursor
    delivers it, with its index label. *)
Record Row := { label : nat; fields : gmap string cell }.

Abbreviation DataFrame := (list Row).

Module Pandas.

(** [df[name]] *)
Definition getitem (name : string) (df : DataFrame) : result (list cell) :=
  mapM_result (fun r => match fields r !! name with
                        | Some c => Ok c
                        | None => Raise KeyError
                        end) df.

Definition set_field (name : string) (r : Row) (c : cell) : Row :=
  {| label := label r; fields := <[name := c]> (fields r) |}.

(** [df[name] = values] *)
Definition setitem (name : string) (values : list cell) (df : DataFrame)
  : DataFrame :=
  zip_with (set_field name) df values.

(** [a[mask]] for a boolean mask *)
Definition select {A} (mask : list bool) (a : list A) : list A :=
  List.map fst (List.filter snd (combine a mask)).

Definition notna_at (name : string) (r : Row) : result bool :=
  match fields r !! name with
  | Some c => Ok (negb (isna c))
  | None => Raise KeyError
  end.

Definition keeps (subset : list string) (r : Row) : result bool :=
  bs ← mapM_result (fun name => notna_at name r) subset;
  Ok (forallb (fun b : bool => b) bs).

(** [df.dropna(subset=...)] *)
Definition dropna (subset : list string) (df : DataFrame) : result DataFrame :=
  ks ← mapM_result (keeps subset) df;
  Ok (select ks df).

(** [df[name] == text] *)
Definition eq_text (text : string) (c : cell) : bool :=
  match c with
  | Str s => String.eqb s text
  | _ => false
  end.

(** [df[name].isin(texts)] *)
Definition isin (texts : list string) (c : cell) : bool :=
  existsb (fun t => eq_text t c) texts.

(** [a[indexer]] *)
Definition take {A} (indexer : list nat) (a : list A) : list A :=
  omap (fun i => a !! i) indexer.

Section Sorting.

(** [numpy.argsort] of the chosen [kind], on an array without [nan]:
    the positions of the array in ascending order of the values. *)
Variable argsort : list fval -> list nat.

(** the positions whose mask bit is set, ascending *)
Definition nonzero (mask : list bool) : list nat :=
  select mask (seq 0 (length mask)).

(** [nargsort(items, ascending=False, na_position='last')] *)
Definition nargsort_desc (items : list fval) : list nat :=
  let mask := List.map isnan items in
  let non_nans := select (List.map negb mask) items in
  let non_nan_idx := nonzero (List.map negb mask) in
  let nan_idx := nonzero mask in
  let non_nans := rev non_nans in
  let non_nan_idx := rev non_nan_idx in
  let indexer := take (argsort non_nans) non_nan_idx in
  let indexer := rev indexer in
  indexer ++ nan_idx.

(** [df.sort_values(by, ascending=False)] *)
Definition sort_values_desc (by_ : string) (df : DataFrame) : result DataFrame :=
  col ← getitem by_ df;
  keys ← mapM_result as_float col;
  Ok (take (nargsort_desc keys) df).

End Sorting.

End Pandas.

(** ** The vectorizer and the similarity of scikit-learn *)

Module Sklearn.

Local Open Scope R_scope.

Definition dot (x y : list R) : R := foldr Rplus 0 (zip_with Rmult x y).

(** [normalize(X, norm='l2')] on one row: a row of zeros is left as it is *)
Definition l2_normalize (x : list R) : list R :=
  if Req_dec_T (dot x x) 0 then x
  else List.map (fun a => a / sqrt (dot x x)) x.

Definition cosine (x y : list R) : R := dot (l2_normalize x) (l2_normalize y).

(** [cosine_similarity(X, Y)]: one row per row of [X], one entry per row of [Y] *)
Definition cosine_similarity (X Y : list (list R)) : list (list R) :=
  List.map (fun x => List.map (fun y => cosine x y) Y) X.

(** [ndarray.flatten] *)
Definition flatten (K : list (list R)) : list R := concat K.

Record TfidfVectorizer := {
  stop_words_ : list string;    (* the stop-word list given at construction *)
  vocabulary_ : list string;    (* the terms, in column order *)
  idf_ : list R                 (* one weight per term *)
}.

Fixpoint insert_term (t : string) (voc : list string) : list string :=
  match voc with
  | [] => [t]
  | u :: voc' =>
      match String.compare t u with
      | Lt => t :: voc
      | Eq => voc
      | Gt => u :: insert_term t voc'
      end
  end.

(** the sorted set of the terms of the analysed documents *)
Definition build_vocabulary (docs : list (list string)) : list string :=
  foldr insert_term [] (concat docs).

Definition has_term (t : string) (doc : list string) : bool :=
  existsb (String.eqb t) doc.

Definition term_count (t : string) (doc : list string) : nat :=
  length (List.filter (String.eqb t) doc).

Definition document_frequency (t : string) (docs : list (list string)) : nat :=
  length (List.filter (has_term t) docs).

(** smoothed inverse document frequency *)
Definition idf (docs : list (list string)) (t : string) : R :=
  ln ((1 + INR (length docs)) / (1 + INR (document_frequency t docs))) + 1.

Definition is_stop_word (stop_words : list string) (w : string) : bool :=
  existsb (String.eqb w) stop_words.

(** lowercase, tokenize, drop the stop words *)
Definition analyze (stop_words : list string) (doc : string) : list string :=
  List.filter (fun w => negb (is_stop_word stop_words w))
    (Text.findall_words (Text.lower doc)).

(** [TfidfVectorizer(stop_words=...).fit(raw_documents)] *)
Definition fit (stop_words : list string) (raw_documents : list cell)
  : result TfidfVectorizer :=
  texts ← mapM_result as_text raw_documents;
  let docs := List.map (analyze stop_words) texts in
  match build_vocabulary docs with
  | [] => Raise ValueError
  | voc => Ok {| stop_words_ := stop_words;
                 vocabulary_ := voc;
                 idf_ := List.map (idf docs) voc |}
  end.

(** term counts of one analysed text over the vocabulary, weighted *)
Definition tfidf_row (v : TfidfVectorizer) (doc : list string) : list R :=
  zip_with Rmult (List.map (fun t => INR (term_count t doc)) (vocabulary_ v))
    (idf_ v).

(** the row of one text in the fitted space *)
Definition embed (v : TfidfVectorizer) (text : string) : list R :=
  l2_normalize (tfidf_row v (analyze (stop_words_ v) text)).

(** [vectorizer.transform(raw_documents)] *)
Definition transform (v : TfidfVectorizer) (raw_documents : list cell)
  : result (list (list R)) :=
  texts ← mapM_result as_text raw_documents;
  match texts with
  | [] => Raise ValueError        (* a matrix without rows is refused *)
  | _ => Ok (List.map (embed v) texts)
  end.

End Sklearn.

(** ** Salary parsing *)

(** The body of the [try] block of [parse_salary]. *)
Definition parse_salary_try (salary_range : cell) : result (option Z * option Z) :=
  match salary_range with
  | Str s =>
      let matches := Text.findall_digits (Text.remove_char "," s) in
      match matches with
      | [] => Ok (None, None)
      | m0 :: rest =>
          lo ← Text.int_checked m0;
          hi ← match rest with
               | [] => Text.int_checked m0
               | _ => Text.int_checked (List.last rest m0)
               end;
          Ok (Some lo, Some hi)
      end
  | _ => Raise AttributeError
  end.

Definition parse_salary (salary_range : cell) : option Z * option Z :=
  match parse_salary_try salary_range with
  | Ok p => p
  | Raise _ => (None, None)
  end.

(** ** Data loading *)

Definition int_cell (o : option Z) : cell :=
  match o with
  | Some z => Int z
  | None => Null
  end.

(** [a, b = zip( *pairs)]: unpacking fails when there is no pair *)
Definition unzip2 {A B} (pairs : list (A * B)) : result (list A * list B) :=
  match pairs with
  | [] => Raise ValueError
  | _ => Ok (List.map fst pairs, List.map snd pairs)
  end.

(** The body of the [try] block of [load_data], on the fetched table. *)
Definition load_data_try (fetched : DataFrame) : result DataFrame :=
  df ← Pandas.dropna ["required_skills"; "salary_range"] fetched;
  ranges ← Pandas.getitem "salary_range" df;
  '(mins, maxs) ← unzip2 (List.map parse_salary ranges);
  let df := Pandas.setitem "salary_min" (List.map int_cell mins) df in
  let df := Pandas.setitem "salary_max" (List.map int_cell maxs) df in
  Ok df.

Definition load_data (fetched : DataFrame) : DataFrame :=
  match load_data_try fetched with
  | Ok df => df
  | Raise _ => []
  end.

(** ** Objects and the heap *)

Definition loc := nat.

Inductive obj :=
  | Frame (df : DataFrame)
  | Vectorizer (v : Sklearn.TfidfVectorizer).

Abbreviation heap := (gmap loc obj).

(** A computation reads and writes the heap and returns or raises; what it
    wrote before raising stays written. *)
Definition M (A : Type) : Type := heap -> result A * heap.

#[global] Instance M_ret : MRet M := fun A a h => (Ok a, h).
#[global] Instance M_bind : MBind M := fun A B f m h =>
  match m h with
  | (Ok a, h') => f a h'
  | (Raise e, h') => (Raise e, h')
  end.

Definition lift {A} (r : result A) : M A := fun h => (r, h).

Definition alloc (o : obj) : M loc := fun h =>
  let l := fresh (dom h) in (Ok l, <[l := o]> h).

Definition read_frame (l : loc) : M DataFrame := fun h =>
  match h !! l with
  | Some (Frame df) => (Ok df, h)
  | _ => (Raise TypeError, h)
  end.

Definition read_vectorizer (l : loc) : M Sklearn.TfidfVectorizer := fun h =>
  match h !! l with
  | Some (Vectorizer v) => (Ok v, h)
  | _ => (Raise TypeError, h)
  end.

(** [df[name] = values] on the frame object at [l] *)
Definition assign (l : loc) (name : string) (values : list cell) : M unit := fun h =>
  match h !! l with
  | Some (Frame df) => (Ok tt, <[l := Frame (Pandas.setitem name values df)]> h)
  | _ => (Raise TypeError, h)
  end.

(** ** The recommendation algorithm *)

Record Weights := { skills : fval; salary : fval }.

(** min-max scaling of a column by its own extremes *)
Definition salary_score (salary_min : list fval) : list fval :=
  List.map (fun x => fdiv (fsub x (nanmin salary_min))
                       (fsub (nanmax salary_min) (nanmin salary_min)))
    salary_min.

Definition match_score (weights : Weights) (skill_score salary_score : fval) : fval :=
  fadd (fmul (skills weights) skill_score) (fmul (salary weights) salary_score).

Definition floats (name : string) (df : DataFrame) : result (list fval) :=
  col ← Pandas.getitem name df;
  mapM_result as_float col.

(** an operation on two arrays, entry by entry: the lengths must agree *)
Definition aligned {A B C} (f : A -> B -> C) (xs : list A) (ys : list B)
  : result (list C) :=
  if Nat.eqb (length xs) (length ys) then Ok (zip_with f xs ys)
  else Raise ValueError.

Section Application.

(** the sort that [sort_values] runs for its default [kind] *)
Variable argsort : list fval -> list nat.

(** the stop-word list that the name ['english'] selects *)
Variable english : list string.

(** [get_vectorizer(df)]: a new vectorizer object fitted on the frame at [df] *)
Definition get_vectorizer (df : loc) : M loc :=
  frame ← read_frame df;
  docs ← lift (Pandas.getitem "required_skills" frame);
  v ← lift (Sklearn.fit english docs);
  alloc (Vectorizer v).

(** lines 82-84: the similarity of the query to every document *)
Definition skill_scores (v : Sklearn.TfidfVectorizer) (user_skills : string)
    (docs : list cell) : result (list R) :=
  skill_matrix ← Sklearn.transform v docs;
  user_vector ← Sklearn.transform v [Str user_skills];
  Ok (Sklearn.flatten (Sklearn.cosine_similarity user_vector skill_matrix)).

(** lines 87-88: the salary score column is written into the frame *)
Definition normalize_salary (df : loc) : M unit :=
  frame ← read_frame df;
  salary_min ← lift (floats "salary_min" frame);
  assign df "salary_score" (List.map Float (salary_score salary_min)).

(** lines 91-94: the match score column is written into the frame and a
    sorted frame is returned *)
Definition weighted_rank (scores : list fval) (df : loc) (weights : Weights)
  : M DataFrame :=
  frame ← read_frame df;
  salary_scores ← lift (floats "salary_score" frame);
  match_scores ← lift (aligned (match_score weights) scores salary_scores);
  _ ← assign df "match_score" (List.map Float match_scores);
  frame ← read_frame df;
  lift (Pandas.sort_values_desc argsort "match_score" frame).

Definition enhanced_recommendations (user_skills : string) (df : loc)
    (vectorizer : loc) (weights : Weights) : M DataFrame :=
  frame ← read_frame df;
  v ← read_vectorizer vectorizer;
  docs ← lift (Pandas.getitem "required_skills" frame);
  scores ← lift (skill_scores v user_skills docs);
  _ ← normalize_salary df;
  weighted_rank (List.map Fin scores) df weights.

Record Settings := {
  weights : Weights;
  selected_location : string;
  experience_levels : list string
}.

(** [filtered_df[filtered_df[name].map(keep)]]: a new frame object *)
Definition filter_rows (l : loc) (name : string) (keep : cell -> bool) : M loc :=
  frame ← read_frame l;
  col ← lift (Pandas.getitem name frame);
  alloc (Frame (Pandas.select (List.map keep col) frame)).

(** [if cond: filtered_df = filtered_df[...]] *)
Definition filter_if (cond : bool) (l : loc) (name : string) (keep : cell -> bool)
  : M loc :=
  if cond then filter_rows l name keep else mret l.

(** the truth value of a list *)
Definition nonempty {A} (l : list A) : bool :=
  match l with
  | [] => false
  | _ => true
  end.

(** lines 174-180: the filtered copy and the vectorizer of a pass *)
Definition scoring_inputs (df : loc) (s : Settings) : M (loc * loc) :=
  frame ← read_frame df;
  filtered_df ← alloc (Frame frame);
  filtered_df ← filter_if (negb (String.eqb (selected_location s) "All"))
                   filtered_df "location" (Pandas.eq_text (selected_location s));
  filtered_df ← filter_if (nonempty (experience_levels s))
                   filtered_df "experience_level"
                   (Pandas.isin (experience_levels s));
  vectorizer ← get_vectorizer df;
  mret (filtered_df, vectorizer).

(** What [recommendation_page] computes when the button is pressed with a
    non-empty skills text, on the loaded frame at [df]. *)
Definition recommendation_page (df : loc) (user_skills : string) (s : Settings)
  : M DataFrame :=
  '(filtered_df, vectorizer) ← scoring_inputs df s;
  enhanced_recommendations user_skills filtered_df vectorizer (weights s).

End Application.

(** ** Vocabulary of the statements *)

(** *** Loading *)

(** a fetched row has the two columns that [dropna] inspects *)
Definition present (r : Row) : Prop :=
  is_Some (fields r !! "required_skills") /\ is_Some (fields r !! "salary_range").

(** a row that [dropna] keeps: both texts are present *)
Definition complete (r : Row) : bool :=
  match fields r !! "required_skills", fields r !! "salary_range" with
  | Some a, Some b => negb (isna a) && negb (isna b)
  | _, _ => false
  end.

Definition range_of (r : Row) : cell := default Null (fields r !! "salary_range").

(** a row with the two parsed salary columns added *)
Definition with_salary (r : Row) : Row :=
  match fields r !! "salary_range" with
  | Some c =>
      Pandas.set_field "salary_max"
        (Pandas.set_field "salary_min" r (int_cell (fst (parse_salary c))))
        (int_cell (snd (parse_salary c)))
  | None => r
  end.

(** what a salary cell is in float arithmetic *)
Definition salary_float (o : option Z) : fval :=
  match o with
  | Some z => of_int z
  | None => NaN
  end.

(** *** Rows of the term matrix *)

(** a row of the term matrix without any weight *)
Definition zero_vector (x : list R) : Prop := Forall (fun a => a = 0%R) x.

Definition nonnegative (x : list R) : Prop := Forall (fun a => (0 <= a)%R) x.

(** *** Sorting *)

(** a float that is a real number *)
Definition finite (x : fval) : Prop :=
  match x with
  | Fin _ => True
  | _ => False
  end.

(** [x] is placed no later than [y] by a descending sort with nulls last *)
Definition ranks_before (x y : fval) : Prop := fle y x \/ isnan y = true.

(** the sorted keys are in descending order *)
Definition descending (keys : list fval) : Prop :=
  StronglySorted (fun x y => fle y x) keys.

(** what every [kind] of [argsort] guarantees on an array without [nan]: the
    result lists each position once, in ascending order of the values *)
Definition sorts (argsort : list fval -> list nat) : Prop :=
  forall a : list fval,
    Forall (fun x => isnan x = false) a ->
    Permutation (argsort a) (seq 0 (length a)) /\
    StronglySorted fle (Pandas.take (argsort a) a).

(** rows [p] and [q], when their keys are equal, are in their original order *)
Definition tie_order (keys : list fval) (p q : nat) : Prop :=
  forall x : fval, keys !! p = Some x -> keys !! q = Some x -> (p < q)%nat.

(** what only the stable kinds guarantee: positions of equal values are
    listed in ascending order *)
Definition stable (argsort : list fval -> list nat) : Prop :=
  forall a : list fval,
    Forall (fun x => isnan x = false) a ->
    StronglySorted (tie_order a) (argsort a).

(** the same for a ranking: whenever the indexer lists row [p] before row [q]
    and their keys are equal, [p] was before [q] in the frame *)
Definition keeps_ties (keys : list fval) (indexer : list nat) : Prop :=
  StronglySorted (tie_order keys) indexer.

(** the mask of the keys that are not null *)
Definition finite_mask (items : list fval) : list bool :=
  List.map negb (List.map isnan items).

(** Two sorts by insertion that meet [sorts]: the first puts a value before
    the equal values that follow it in the array, the second after them. *)
Module Argsort.

Definition fleb (x y : fval) : bool := if fle_dec x y then true else false.

Definition fltb (x y : fval) : bool := if flt_dec x y then true else false.

Fixpoint insert_by (before : fval -> fval -> bool) (x : nat * fval)
    (l : list (nat * fval)) : list (nat * fval) :=
  match l with
  | [] => [x]
  | y :: l' =>
      if before (snd x) (snd y) then x :: l else y :: insert_by before x l'
  end.

Definition enumerate (a : list fval) : list (nat * fval) :=
  combine (seq 0 (length a)) a.

Definition sort_by (before : fval -> fval -> bool) (a : list fval) : list nat :=
  List.map fst (foldr (insert_by before) [] (enumerate a)).

Definition keeping_ties : list fval -> list nat := sort_by fleb.

Definition reversing_ties : list fval -> list nat := sort_by fltb.

End Argsort.

(** the order that an insertion leaves between an earlier and a later pair *)
Definition ascending (u v : nat * fval) : Prop := fle (snd u) (snd v).

Definition ascending_stable (u v : nat * fval) : Prop :=
  fle (snd u) (snd v) /\ (fle (snd v) (snd u) -> (fst u < fst v)%nat).

(** pairs of a position and a value that is not null *)
Definition finite_pairs (l : list (nat * fval)) : Prop :=
  Forall (fun u => isnan (snd u) = false) l.

(** pairs of a position of the array and the value there *)
Definition indexes (a : list fval) (l : list (nat * fval)) : Prop :=
  Forall (fun u => a !! fst u = Some (snd u)) l.

(** *** Frames and the heap *)

(** the float that a row holds in a column *)
Definition cell_float (name : string) (r : Row) : result fval :=
  match fields r !! name with
  | Some c => as_float c
  | None => Raise KeyError
  end.

(** the frame after line 88 and after line 92 *)
Definition with_salary_score (frame : DataFrame) (salary_min : list fval)
  : DataFrame :=
  Pandas.setitem "salary_score" (List.map Float (salary_score salary_min)) frame.

Definition with_match_score (frame : DataFrame) (match_scores : list fval)
  : DataFrame :=
  Pandas.setitem "match_score" (List.map Float match_scores) frame.

(** [frame'] is [frame] with nothing changed but the two score columns *)
Definition scored (frame frame' : DataFrame) : Prop :=
  Forall2 (fun r r' =>
             label r' = label r /\
             forall c : string,
               c <> "salary_score" -> c <> "match_score" ->
               fields r' !! c = fields r !! c)
    frame frame'.

(** every object of [h] is still there, unchanged, in [h'] *)
Definition preserved (h h' : heap) : Prop :=
  forall l : loc, is_Some (h !! l) -> h' !! l = h !! l.

(** [h'] differs from [h] at most in the frame at [df], and there at most in
    the two score columns *)
Definition writes (df : loc) (h h' : heap) : Prop :=
  (forall l : loc, l <> df -> h' !! l = h !! l) /\
  match h !! df with
  | Some (Frame frame) =>
      exists frame', h' !! df = Some (Frame frame') /\ scored frame frame'
  | o => h' !! df = o
  end.

(** the rows that a filter of the page keeps *)
Definition select_if (cond : bool) (name : string) (keep : cell -> bool)
    (frame : DataFrame) : result DataFrame :=
  if cond then
    col ← Pandas.getitem name frame;
    Ok (Pandas.select (List.map keep col) frame)
  else Ok frame.

(** the rows that the location and experience filters of the page keep *)
Definition filtered_frame (s : Settings) (frame : DataFrame) : result DataFrame :=
  by_location ← select_if (negb (String.eqb (selected_location s) "All"))
                   "location" (Pandas.eq_text (selected_location s)) frame;
  select_if (nonempty (experience_levels s)) "experience_level"
    (Pandas.isin (experience_levels s)) by_location.

(** ** Sample data *)

Definition job (i : nat) (location level salary_range required_skills : string)
  : Row :=
  {| label := i;
     fields := list_to_map
                 [("location", Str location);
                  ("experience_level", Str level);
                  ("salary_range", Str salary_range);
                  ("required_skills", Str required_skills)] |}.

(** a fetched table of three jobs; the second states no salary figure *)
Definition sample_jobs : DataFrame :=
  [job 0 "London" "Senior" "£40,000 - £60,000" "python, sql";
   job 1 "Leeds" "Junior" "Competitive" "java, spring";
   job 2 "London" "Junior" "£50,000" "python, pandas"].

(** the loaded table as a frame object at location 0 *)
Definition loaded_jobs : DataFrame := load_data sample_jobs.

Definition loaded_heap : heap := {[ 0%nat := Frame loaded_jobs ]}.

(** the skill texts of the table, and a few entries of the English stop-word
    list *)
Definition sample_corpus : list cell :=
  [Str "python, sql"; Str "java, spring"; Str "python, pandas"].

Definition sample_stop_words : list string := ["a"; "and"; "the"; "of"; "to"; "in"].

(** the page set to the jobs of London, of any experience level *)
Definition london_settings : Settings :=
  {| weights := {| skills := Fin (7 / 10); salary := Fin (3 / 10) |};
     selected_location := "London";
     experience_levels := [] |}.

(** the page without any filter *)
Definition all_settings : Settings :=
  {| weights := {| skills := Fin (7 / 10); salary := Fin (3 / 10) |};
     selected_location := "All";
     experience_levels := [] |}.

(** two rows with the same salary score, in a frame object at location 0 *)
Definition scored_row (i : nat) (salary_score : fval) : Row :=
  {| label := i; fields := {["salary_score" := Float salary_score]} |}.

Definition tied_rows : DataFrame := [scored_row 0 (Fin 1); scored_row 1 (Fin 1)].

Definition tied_heap : heap := {[ 0%nat := Frame tied_rows ]}.

Definition unit_weights : Weights := {| skills := Fin 1; salary := Fin 1 |}.

(** ** The job card *)

(** the text methods that [display_job_card] calls *)
Module PyStr.

(** The text methods of the card; as in [Text], only the ASCII blanks and
    letters are recognised. *)

(** [str.isspace] *)
Definition is_space (c : ascii) : bool :=
  (Text.in_range 9 13 c || Text.in_range 28 32 c)%bool.

Fixpoint lstrip (s : string) : string :=
  match s with
  | EmptyString => EmptyString
  | String c s' => if is_space c then lstrip s' else s
  end.

Fixpoint rstrip (s : string) : string :=
  match s with
  | EmptyString => EmptyString
  | String c s' =>
      match rstrip s' with
      | EmptyString => if is_space c then EmptyString else String c EmptyString
      | r => String c r
      end
  end.

(** [s.strip()] *)
Definition strip (s : string) : string := rstrip (lstrip s).

Definition upper_char (c : ascii) : ascii :=
  if Text.in_range 97 122 c then ascii_of_N (N_of_ascii c - 32) else c.

(** [s.capitalize()] *)
Definition capitalize (s : string) : string :=
  match s with
  | EmptyString => EmptyString
  | String c s' => String (upper_char c) (Text.lower s')
  end.

(** [s.split(sep)] for a one-character [sep]; [cur] is the piece being read *)
Fixpoint split_from (sep : ascii) (cur : string) (s : string) : list string :=
  match s with
  | EmptyString => [cur]
  | String c s' =>
      if Ascii.eqb c sep then cur :: split_from sep EmptyString s'
      else split_from sep (cur ++ String c EmptyString) s'
  end.

Definition split (sep : ascii) (s : string) : list string :=
  split_from sep EmptyString s.

End PyStr.

(** [{skill.strip().lower() for skill in text.split(',')}] *)
Definition skills_of (text : string) : gset string :=
  list_to_set
    (List.map (fun skill => Text.lower (PyStr.strip skill)) (PyStr.split "," text)).

(** [job[name]] on one row *)
Definition item (name : string) (job : Row) : result cell :=
  match fields job !! name with
  | Some c => Ok c
  | None => Raise KeyError
  end.

(** the receiver of a text method *)
Definition as_str (c : cell) : result string :=
  match c with
  | Str s => Ok s
  | _ => Raise AttributeError
  end.

(** [score*100] under the format [.1f]: a number is scaled; [None] has no
    product with a number; a text is repeated, and a text has no format [f] *)
Definition percent (score : cell) : result fval :=
  match score with
  | Float x => Ok (fmul x (Fin 100))
  | Int z => Ok (fmul (of_int z) (Fin 100))
  | Null => Raise TypeError
  | Str _ => Raise ValueError
  end.

(** What a card shows. *)
Record Card := {
  card_title : cell;
  card_company : cell;
  card_location : cell;
  card_salary_range : cell;
  card_match : fval;                 (* [match_score * 100] *)
  card_matched : gset string;
  card_missing : gset string;
  card_description : cell
}.

(** [display_job_card]: the row is read in the order of the source; the
    result is what the card shows when every read succeeds, else the first
    exception (what was drawn before it is not kept). *)
Definition display_job_card (job : Row) (user_skills : string) : result Card :=
  job_title ← item "job_title" job;
  company ← item "company" job;
  location ← item "location" job;
  salary_range ← item "salary_range" job;
  score ← item "match_score" job;
  match_percent ← percent score;
  required_skills ← item "required_skills" job;
  required_skills ← as_str required_skills;
  let job_skills := skills_of required_skills in
  let user_skills_set := skills_of user_skills in
  let matched := job_skills ∩ user_skills_set in
  let missing := job_skills ∖ user_skills_set in
  job_description ← item "job_description" job;
  Ok {| card_title := job_title;
        card_company := company;
        card_location := location;
        card_salary_range := salary_range;
        card_match := match_percent;
        card_matched := matched;
        card_missing := missing;
        card_description := job_description |}.

(** the names under which the skills of a set are shown *)
Definition shown (skills : gset string) : gset string :=
  set_map PyStr.capitalize skills.

(** [recommendations.head(n)] *)
Definition head (n : nat) (df : DataFrame) : DataFrame := firstn n df.

(** line 184-185: a card for each of the first ten recommendations *)
Definition display_recommendations (recommendations : DataFrame)
    (user_skills : string) : result (list Card) :=
  mapM_result (fun job => display_job_card job user_skills)
    (head 10 recommendations).


(** *** Texts *)

(** the character occurs in the text *)
Fixpoint contains (c : ascii) (s : string) : bool :=
  match s with
  | EmptyString => false
  | String x s' => (Ascii.eqb x c || contains c s')%bool
  end.

(** how often the character occurs in the text *)
Fixpoint occurrences (c : ascii) (s : string) : nat :=
  match s with
  | EmptyString => 0
  | String x s' => (if Ascii.eqb x c then 1 else 0) + occurrences c s'
  end.

(** [sep.join(pieces)] *)
Fixpoint join (sep : ascii) (pieces : list string) : string :=
  match pieces with
  | [] => EmptyString
  | [p] => p
  | p :: rest => (p ++ String sep (join sep rest))%string
  end.

(** a skill as the card compares it *)
Definition normal_skill (piece : string) : string := Text.lower (PyStr.strip piece).

(** a text that does not begin with a blank *)
Definition starts_clean (s : string) : Prop :=
  match s with
  | EmptyString => True
  | String c _ => PyStr.is_space c = false
  end.


(** the columns of a row that a card reads, in the order of reading *)
Definition card_columns : list string :=
  ["job_title"; "company"; "location"; "salary_range"; "match_score";
   "required_skills"; "job_description"].

Definition is_number (c : cell) : bool :=
  match c with
  | Int _ | Float _ => true
  | _ => false
  end.

Definition is_text (c : cell) : bool :=
  match c with
  | Str _ => true
  | _ => false
  end.

(** a ranked row as the page hands it to the card *)
Definition ranked_job (title skills : string) (score : R) : Row :=
  {| label := 0;
     fields := list_to_map
                 [("job_title", Str title);
                  ("company", Str "Acme");
                  ("location", Str "London");
                  ("salary_range", Str "£40,000 - £60,000");
                  ("match_score", Float (Fin score));
                  ("required_skills", Str skills);
                  ("job_description", Null)] |}.




(** *** Salary scores *)

(** the score of a salary cell in a column whose least and greatest figures
    are [lo] and [hi] *)
Definition scaled (lo hi : Z) (o : option Z) : fval :=
  match o with
  | Some z => Fin ((IZR z - IZR lo) / (IZR hi - IZR lo))
  | None => NaN
  end.

(** a score of the unit interval, or none *)
Definition unit_or_null (s : fval) : Prop :=
  match s with
  | Fin a => (0 <= a <= 1)%R
  | NaN => True
  | _ => False
  end.


(** *** A scoring pass *)

(** the match scores that a pass computes, in the order of the frame *)
Definition pass_scores (w : Weights) (scores : list R) (salary_min : list fval)
  : list fval :=
  zip_with (match_score w) (List.map Fin scores) (salary_score salary_min).

(** the frame that a pass leaves *)
Definition pass_frame (w : Weights) (frame : DataFrame) (scores : list R)
    (salary_min : list fval) : DataFrame :=
  with_match_score (with_salary_score frame salary_min)
    (pass_scores w scores salary_min).

(** the match score of a row by its salary figure: none for a row without a
    figure, else a number that is not negative *)
Definition figure_match (figure : option Z) (k : fval) : Prop :=
  match figure with
  | Some _ => exists m : R, k = Fin m /\ (0 <= m)%R
  | None => k = NaN
  end.


(** two loaded jobs with the same salary figure, as a frame object at
    location 0 *)
Definition level_jobs : DataFrame :=
  load_data [job 0 "London" "Senior" "£50,000" "java, spring";
             job 1 "Leeds" "Junior" "£50,000" "python, pandas"].

Definition level_heap : heap := {[ 0%nat := Frame level_jobs ]}.


(** *** The cards of a pass *)

(** the columns that a card reads and a pass neither reads nor writes *)
Definition advert_columns : list string :=
  ["job_title"; "company"; "location"; "salary_range"; "job_description"].

(** a row that has them *)
Definition advertised (r : Row) : Prop :=
  Forall (fun name => is_Some (fields r !! name)) advert_columns.

(** the first card shows a match that ranks before that of the second *)
Definition better_card (c1 c2 : Card) : Prop :=
  ranks_before (card_match c1) (card_match c2).

(** a fetched advertisement with every column that the page uses *)
Definition advert (i : nat) (title location level salary_range required_skills
                   : string) : Row :=
  {| label := i;
     fields := list_to_map
                 [("job_title", Str title);
                  ("company", Str "Acme");
                  ("location", Str location);
                  ("experience_level", Str level);
                  ("salary_range", Str salary_range);
                  ("required_skills", Str required_skills);
                  ("job_description", Str "See the advertisement.")] |}.

(** three loaded advertisements as a frame object at location 0 *)
Definition advert_jobs : DataFrame :=
  load_data
    [advert 0 "Data engineer" "London" "Senior" "£40,000 - £60,000" "python, sql";
     advert 1 "Java developer" "Leeds" "Junior" "Competitive" "java, spring";
     advert 2 "Analyst" "London" "Junior" "£50,000" "python, pandas"].

Definition advert_heap : heap := {[ 0%nat := Frame advert_jobs ]}.


(** *** The filters of the page *)

(** the row is in the selected location, or every location is selected *)
Definition location_ok (s : Settings) (r : Row) : bool :=
  (String.eqb (selected_location s) "All"
   || Pandas.eq_text (selected_location s) (default Null (fields r !! "location")))%bool.

(** the row is of a selected experience level, or no level is selected *)
Definition level_ok (s : Settings) (r : Row) : bool :=
  (negb (nonempty (experience_levels s))
   || Pandas.isin (experience_levels s)
        (default Null (fields r !! "experience_level")))%bool.

Definition passes (s : Settings) (r : Row) : bool :=
  (location_ok s r && level_ok s r)%bool.

(** a row with the two columns that the filters inspect *)
Definition listed (r : Row) : Prop :=
  is_Some (fields r !! "location") /\ is_Some (fields r !! "experience_level").

(** the page set to the junior jobs of London *)
Definition junior_london_settings : Settings :=
  {| weights := {| skills := Fin (7 / 10); salary := Fin (3 / 10) |};
     selected_location := "London";
     experience_levels := ["Junior"; "Graduate"] |}.


(** *** Terms *)

(** every character of the text is in the class *)
Fixpoint every_char (cls : ascii -> bool) (s : string) : bool :=
  match s with
  | EmptyString => true
  | String c s' => (cls c && every_char cls s')%bool
  end.

(** a character that [str.lower] leaves as it is *)
Definition is_lowered (c : ascii) : bool := Ascii.eqb (Text.lower_char c) c.

(** the order of the columns of the term matrix *)
Definition precedes (a b : string) : Prop := String.compare a b = Lt.

(** a term that both analysed texts have *)
Definition shared_term (v : Sklearn.TfidfVectorizer) (a b : string) (t : string)
  : Prop :=
  In t (Sklearn.vocabulary_ v) /\
  In t (Sklearn.analyze (Sklearn.stop_words_ v) a) /\
  In t (Sklearn.analyze (Sklearn.stop_words_ v) b).


(** two rows with the same label, skills cell and salary minimum *)
Definition same_inputs (r1 r2 : Row) : Prop :=
  label r1 = label r2 /\
  fields r1 !! "required_skills" = fields r2 !! "required_skills" /\
  fields r1 !! "salary_min" = fields r2 !! "salary_min".

(** two outcomes of a pass with the same ranking and the same match scores,
    or the same exception *)
Definition same_ranking (r1 r2 : result DataFrame) : Prop :=
  match r1, r2 with
  | Ok out1, Ok out2 =>
      List.map label out1 = List.map label out2 /\
      floats "match_score" out1 = floats "match_score" out2
  | Raise e1, Raise e2 => e1 = e2
  | _, _ => False
  end.

(** the sample advertisements with another upper salary figure and another
    location *)
Definition moved (r : Row) : Row :=
  Pandas.set_field "location"
    (Pandas.set_field "salary_max" r (Int 1)) (Str "Remote").


(** *** Texts that the embedding reads as Python does *)

Definition is_ascii (c : ascii) : bool := N.ltb (N_of_ascii c) 128.

(** a text of ASCII characters: on these the blanks, the letter cases and
    the word characters of the embedding are those of Python *)
Definition ascii_text (s : string) : bool := every_char is_ascii s.





(** ** The similarity in binary64

    The scores of the program are IEEE 754 binary64 numbers.  The functions
    of this module are those of [Sklearn] with every operation rounded, in
    the order in which the library performs them: products are accumulated
    from 0 in the order of the columns, a norm is the square root of the
    accumulated squares, and every entry of a row is divided by its norm. *)

Module Binary64.

Import PrimFloat.

Definition dot (x y : list float) : float :=
  fold_left add (zip_with mul x y) 0%float.

Definition l2_normalize (x : list float) : list float :=
  if eqb (dot x x) 0 then x
  else List.map (fun a => div a (sqrt (dot x x))) x.

Definition cosine (x y : list float) : float :=
  dot (l2_normalize x) (l2_normalize y).

(** a count as a float: exact, as every whole number below 2^53 is *)
Fixpoint of_count (n : nat) : float :=
  match n with
  | O => 0%float
  | S m => add (of_count m) 1
  end.

Definition tfidf_row (vocabulary : list string) (idf : list float)
    (doc : list string) : list float :=
  zip_with mul (List.map (fun t => of_count (Sklearn.term_count t doc)) vocabulary)
    idf.

Definition embed (vocabulary : list string) (idf : list float)
    (stop_words : list string) (text : string) : list float :=
  l2_normalize (tfidf_row vocabulary idf (Sklearn.analyze stop_words text)).

(** lines 82-84 on texts, with the weights of the fitted terms as floats *)
Definition skill_scores (vocabulary : list string) (idf : list float)
    (stop_words : list string) (user_skills : string) (texts : list string)
  : list float :=
  List.map (fun d => cosine (embed vocabulary idf stop_words user_skills)
                       (embed vocabulary idf stop_words d))
    texts.

Definition one : float := 1%float.

(** the strict order of two floats *)
Definition less (x y : float) : bool := ltb x y.

End Binary64.

(** a skills text of three terms, and the table that holds it alone *)
Definition three_skills : string := "python sql java".

Definition three_skills_corpus : list cell := [Str three_skills].

(** a skills text with one, two and three occurrences of its terms, the same
    text five times over, and the table of the two *)
Definition graded_skills : string := "java python python sql sql sql".

Definition graded_skills_fivefold : string :=
  (graded_skills ++ " " ++ graded_skills ++ " " ++ graded_skills ++ " "
   ++ graded_skills ++ " " ++ graded_skills)%string.

Definition graded_corpus : list cell :=
  [Str graded_skills; Str graded_skills_fivefold].


(** * Supporting lemmas *)

(** ** The embedding at work *)

Example digits_of_a_range :
  Text.findall_digits (Text.remove_char "," "£40,000 - £60,000") = ["40000"; "60000"].
Proof. reflexivity. Qed.

(** every comma goes, also one that separates two numbers *)
Example comma_between_numbers :
  parse_salary (Str "40000,60000") = (Some 4000060000%Z, Some 4000060000%Z).
Proof. reflexivity. Qed.

Example three_runs :
  parse_salary (Str "30k-40k, 5 days") = (Some 30%Z, Some 5%Z).
Proof. reflexivity. Qed.

Example not_a_text : parse_salary (Int 40000) = (None, None).
Proof. reflexivity. Qed.

(** one-letter tokens and stop words are no terms *)
Example terms_of_a_text :
  Sklearn.analyze sample_stop_words "Python, SQL and the C++, R" = ["python"; "sql"].
Proof. reflexivity. Qed.

Example vocabulary_of_the_corpus :
  Sklearn.build_vocabulary
    (List.map (Sklearn.analyze sample_stop_words)
       ["python, sql"; "java, spring"; "python, pandas"])
  = ["java"; "pandas"; "python"; "spring"; "sql"].
Proof. reflexivity. Qed.

Example nothing_fetched : load_data [] = [].
Proof. reflexivity. Qed.

Example loaded_labels : List.map label (load_data sample_jobs) = [0; 1; 2]%nat.
Proof. reflexivity. Qed.

Example london_jobs :
  exists frame : DataFrame,
    filtered_frame london_settings (load_data sample_jobs) = Ok frame /\
    List.map label frame = [0; 2]%nat.
Proof. eexists. split; reflexivity. Qed.

(** ** The scanner finds exactly the maximal digit runs *)

Section ScanFacts.

Import Text.

Lemma append_cons (c : ascii) (a b : string) :
  (String c a ++ b)%string = String c (a ++ b)%string.
Proof. reflexivity. Qed.

Lemma append_nil (b : string) : (EmptyString ++ b)%string = b.
Proof. reflexivity. Qed.

Lemma append_empty_r (s : string) : (s ++ EmptyString)%string = s.
Proof.
  induction s as [|c s IH]; [reflexivity|].
  now rewrite append_cons, IH.
Qed.

Lemma append_assoc (a b c : string) :
  ((a ++ b) ++ c)%string = (a ++ (b ++ c))%string.
Proof.
  induction a as [|x a IH]; [reflexivity|].
  now rewrite !append_cons, IH.
Qed.

Lemma all_digits_snoc (r : string) (c : ascii) :
  all_digits r -> is_digit c = true ->
  all_digits (r ++ String c EmptyString).
Proof.
  induction r as [|x r IH]; intros Hr Hc.
  - split; [assumption | exact I].
  - rewrite append_cons. destruct Hr as [Hx Hr].
    split; [assumption | now apply IH].
Qed.






End ScanFacts.

(** ** Loading keeps every row whose two texts are present *)

Section LoadFacts.

Lemma mapM_result_map {A B} (f : A -> result B) (g : A -> B) (l : list A) :
  Forall (fun x => f x = Ok (g x)) l ->
  mapM_result f l = Ok (List.map g l).
Proof.
  induction 1 as [|x l Hx _ IH]; simpl; [reflexivity|].
  now rewrite Hx, IH.
Qed.

Lemma mapM_result_inv {A B} (f : A -> result B) (l : list A) (ys : list B) :
  mapM_result f l = Ok ys -> Forall2 (fun x y => f x = Ok y) l ys.
Proof.
  revert ys. induction l as [|x l IH]; simpl; intros ys H.
  - injection H as <-. constructor.
  - destruct (f x) as [y|e] eqn:Hx; [|discriminate].
    destruct (mapM_result f l) as [ys'|e]; [|discriminate].
    injection H as <-. constructor; [assumption | now apply IH].
Qed.

Lemma mapM_result_length {A B} (f : A -> result B) (l : list A) (ys : list B) :
  mapM_result f l = Ok ys -> length ys = length l.
Proof.
  intros H. apply mapM_result_inv in H.
  symmetry. exact (Forall2_length _ _ _ H).
Qed.

Lemma select_map {A} (f : A -> bool) (l : list A) :
  Pandas.select (List.map f l) l = List.filter f l.
Proof.
  unfold Pandas.select. induction l as [|x l IH]; simpl; [reflexivity|].
  destruct (f x); simpl; now rewrite IH.
Qed.

Lemma zip_with_maps {A B C D} (f : B -> C -> D) (h : A -> B) (g : A -> C)
  (l : list A) :
  zip_with f (List.map h l) (List.map g l) = List.map (fun x => f (h x) (g x)) l.
Proof. induction l as [|x l IH]; simpl; [reflexivity | now rewrite IH]. Qed.

Lemma setitem_map (name : string) (g : Row -> cell) (df : DataFrame) :
  Pandas.setitem name (List.map g df) df
  = List.map (fun r => Pandas.set_field name r (g r)) df.
Proof.
  unfold Pandas.setitem.
  rewrite <- (map_id df) at 1. rewrite zip_with_maps. reflexivity.
Qed.

Lemma keeps_complete (r : Row) :
  present r ->
  Pandas.keeps ["required_skills"; "salary_range"] r = Ok (complete r).
Proof.
  intros [[a Ha] [b Hb]].
  unfold Pandas.keeps, complete, Pandas.notna_at. simpl.
  rewrite Ha, Hb. simpl. now rewrite andb_true_r.
Qed.

Lemma dropna_complete (fetched : DataFrame) :
  Forall present fetched ->
  Pandas.dropna ["required_skills"; "salary_range"] fetched
  = Ok (List.filter complete fetched).
Proof.
  intros H. unfold Pandas.dropna.
  rewrite (mapM_result_map _ complete).
  - simpl. now rewrite select_map.
  - eapply Forall_impl; [exact H|]. intros r Hr. now apply keeps_complete.
Qed.

Lemma getitem_range (df : DataFrame) :
  Forall present df ->
  Pandas.getitem "salary_range" df = Ok (List.map range_of df).
Proof.
  intros H. unfold Pandas.getitem. apply mapM_result_map.
  eapply Forall_impl; [exact H|]. intros r [_ [b Hb]].
  unfold range_of. now rewrite Hb.
Qed.

Lemma with_salary_range (r : Row) :
  present r ->
  with_salary r
  = Pandas.set_field "salary_max"
  (Pandas.set_field "salary_min" r
   (int_cell (fst (parse_salary (range_of r)))))
  (int_cell (snd (parse_salary (range_of r)))).
Proof.
  intros [_ [b Hb]]. unfold with_salary, range_of. now rewrite Hb.
Qed.

Lemma load_data_closed_form (fetched : DataFrame) :
  Forall present fetched ->
  load_data fetched = List.map with_salary (List.filter complete fetched).
Proof.
  intros H. unfold load_data, load_data_try.
  rewrite dropna_complete by assumption. simpl.
  assert (Hf : Forall present (List.filter complete fetched)).
  { rewrite List.Forall_forall in *. intros r Hr.
  apply List.filter_In in Hr. now apply H. }
  rewrite getitem_range by assumption. simpl.
  destruct (List.filter complete fetched) as [|r0 df]; [reflexivity|].
  remember (r0 :: df) as L eqn:EL.
  assert (U : forall (ps : list (option Z * option Z)),
     ps <> [] ->
     unzip2 ps = Ok (List.map fst ps, List.map snd ps))
  by (intros [|p ps] Hp; [congruence | reflexivity]).
  rewrite U by (subst L; discriminate). simpl.
  rewrite !List.map_map.
  rewrite (setitem_map "salary_min"
     (fun r => int_cell (fst (parse_salary (range_of r))))).
  unfold Pandas.setitem. rewrite zip_with_maps.
  apply List.map_ext_in.
  rewrite List.Forall_forall in Hf. intros r Hr.
  now rewrite with_salary_range by (now apply Hf).
Qed.

End LoadFacts.

Section LoadedFrame.

Lemma with_salary_min (r : Row) :
  present r ->
  fields (with_salary r) !! "salary_min"
  = Some (int_cell (fst (parse_salary (range_of r)))).
Proof.
  intros Hr. rewrite with_salary_range by assumption. simpl.
  rewrite lookup_insert_ne by discriminate.
  apply lookup_insert_eq.
Qed.

Lemma as_float_int_cell (o : option Z) :
  as_float (int_cell o) = Ok (salary_float o).
Proof. destruct o; reflexivity. Qed.

Lemma mapM_result_compose {A B C} (f : B -> result C) (h : A -> B) (l : list A) :
  mapM_result f (List.map h l) = mapM_result (fun x => f (h x)) l.
Proof. induction l as [|x l IH]; simpl; [reflexivity | now rewrite IH]. Qed.

Lemma floats_salary_min (df : DataFrame) :
  Forall present df ->
  floats "salary_min" (List.map with_salary df)
  = Ok (List.map (fun r => salary_float (fst (parse_salary (range_of r)))) df).
Proof.
  intros H. unfold floats, Pandas.getitem.
  rewrite mapM_result_compose.
  rewrite (mapM_result_map _
     (fun r => int_cell (fst (parse_salary (range_of r))))).
  - simpl. rewrite mapM_result_compose.
  apply mapM_result_map, List.Forall_forall.
  intros r _. apply as_float_int_cell.
  - eapply Forall_impl; [exact H|]. intros r Hr.
  now rewrite with_salary_min.
Qed.

Lemma salary_score_null (salary_min : list fval) (i : nat) :
  salary_min !! i = Some NaN -> salary_score salary_min !! i = Some NaN.
Proof.
  intros H. unfold salary_score.
  rewrite list_lookup_fmap, H. reflexivity.
Qed.

End LoadedFrame.

(** ** Normalisation of a column whose extremes coincide *)

Section Degenerate.

Local Open Scope R_scope.

Lemma fle_of_int (a b : Z) : fle (of_int a) (of_int b) <-> (a <= b)%Z.
Proof. simpl. split; [apply le_IZR | apply IZR_le]. Qed.

Lemma fmin2_of_int (a b : Z) : fmin2 (of_int a) (of_int b) = of_int (Z.min a b).
Proof.
  unfold fmin2. destruct (fle_dec _ _) as [H|H]; rewrite fle_of_int in H.
  - now rewrite Z.min_l.
  - rewrite Z.min_r; [reflexivity | lia].
Qed.

Lemma fmax2_of_int (a b : Z) : fmax2 (of_int a) (of_int b) = of_int (Z.max a b).
Proof.
  unfold fmax2. destruct (fle_dec _ _) as [H|H]; rewrite fle_of_int in H.
  - now rewrite Z.max_r.
  - rewrite Z.max_l; [reflexivity | lia].
Qed.

Lemma fold_fmin2_of_int (l : list Z) (z : Z) :
  fold_left fmin2 (List.map of_int l) (of_int z) = of_int (fold_left Z.min l z).
Proof.
  revert z. induction l as [|y l IH]; intros z; simpl; [reflexivity|].
  now rewrite fmin2_of_int, IH.
Qed.

Lemma fold_fmax2_of_int (l : list Z) (z : Z) :
  fold_left fmax2 (List.map of_int l) (of_int z) = of_int (fold_left Z.max l z).
Proof.
  revert z. induction l as [|y l IH]; intros z; simpl; [reflexivity|].
  now rewrite fmax2_of_int, IH.
Qed.

Lemma fold_min_le (l : list Z) (z : Z) :
  (fold_left Z.min l z <= z)%Z /\
  Forall (fun y => (fold_left Z.min l z <= y)%Z) l.
Proof.
  revert z. induction l as [|y l IH]; intros z; simpl.
  - split; [lia | constructor].
  - destruct (IH (Z.min z y)) as [H1 H2]. split; [lia|].
    constructor; [lia | assumption].
Qed.

Lemma fold_max_ge (l : list Z) (z : Z) :
  (z <= fold_left Z.max l z)%Z /\
  Forall (fun y => (y <= fold_left Z.max l z)%Z) l.
Proof.
  revert z. induction l as [|y l IH]; intros z; simpl.
  - split; [lia | constructor].
  - destruct (IH (Z.max z y)) as [H1 H2]. split; [lia|].
    constructor; [lia | assumption].
Qed.

Lemma notnan_salary_float (xs : list (option Z)) :
  notnan (List.map salary_float xs) = List.map of_int (omap (fun o => o) xs).
Proof.
  unfold notnan. induction xs as [|[z|] xs IH]; simpl; [reflexivity| |assumption].
  now rewrite IH.
Qed.

Lemma zero_by_zero (a : R) :
  fdiv (fsub (Fin a) (Fin a)) (fsub (Fin a) (Fin a)) = NaN.
Proof.
  simpl. destruct (Req_dec_T (a + - a) 0) as [_|H]; [|exfalso; lra].
  unfold signed_inf. destruct (Req_dec_T (a + - a) 0) as [_|H]; [reflexivity|].
  exfalso; lra.
Qed.

(** when the extremes coincide every quotient is [0/0] or has a null operand *)
Lemma salary_score_degenerate (xs : list (option Z)) :
  nanmax (List.map salary_float xs) = nanmin (List.map salary_float xs) ->
  salary_score (List.map salary_float xs) = List.map (fun _ => NaN) xs.
Proof.
  unfold salary_score, nanmax, nanmin.
  rewrite notnan_salary_float.
  destruct (omap (fun o => o) xs) as [|z zs] eqn:E; simpl.
  - intros _. rewrite List.map_map. apply List.map_ext.
    intros [z|]; reflexivity.
  - rewrite fold_fmax2_of_int, fold_fmin2_of_int.
    intros H. injection H as H. apply eq_IZR in H.
    destruct (fold_min_le zs z) as [Hlo Hlos].
    destruct (fold_max_ge zs z) as [Hhi Hhis].
    rewrite H. rewrite List.map_map. apply List.map_ext_in.
    intros [y|] Hy; [|reflexivity].
    assert (Hin : In y (z :: zs)).
    { rewrite <- E. apply list_elem_of_In, list_elem_of_omap.
    exists (Some y). split; [now apply list_elem_of_In | reflexivity]. }
    assert (y = fold_left Z.min zs z) as ->.
    { rewrite List.Forall_forall in Hlos, Hhis.
    destruct Hin as [<-|Hin]; [lia|].
    specialize (Hlos _ Hin). specialize (Hhis _ Hin). lia. }
    apply zero_by_zero.
Qed.

End Degenerate.

(** ** Cosine similarity of rows *)

Section CosineFacts.

Import Sklearn.
Local Open Scope R_scope.

Lemma dot_nil_l (y : list R) : dot [] y = 0.
Proof. reflexivity. Qed.

Lemma dot_nil_r (x : list R) : dot x [] = 0.
Proof. destruct x; reflexivity. Qed.

Lemma dot_cons (a b : R) (x y : list R) : dot (a :: x) (b :: y) = a * b + dot x y.
Proof. reflexivity. Qed.

Lemma dot_self_nonneg (x : list R) : 0 <= dot x x.
Proof.
  induction x as [|a x IH]; [rewrite dot_nil_l; lra|].
  rewrite dot_cons. nra.
Qed.

Lemma dot_scale (c d : R) (x y : list R) :
  dot (List.map (fun a => a * c) x) (List.map (fun b => b * d) y)
  = dot x y * (c * d).
Proof.
  revert y. induction x as [|a x IH]; intros [|b y]; simpl List.map;
  rewrite ?dot_nil_l, ?dot_nil_r, ?dot_cons; try lra.
  rewrite IH. lra.
Qed.

Lemma two_dot_le (x y : list R) : 2 * dot x y <= dot x x + dot y y.
Proof.
  revert y. induction x as [|a x IH]; intros [|b y];
  rewrite ?dot_nil_l, ?dot_nil_r, ?dot_cons.
  - lra.
  - pose proof (dot_self_nonneg (b :: y)) as H. rewrite dot_cons in H. lra.
  - pose proof (dot_self_nonneg (a :: x)) as H. rewrite dot_cons in H. lra.
  - specialize (IH y). pose proof (Rle_0_sqr (a - b)) as Hsq.
    unfold Rsqr in Hsq. nra.
Qed.

Lemma dot_zero_l (x y : list R) : zero_vector x -> dot x y = 0.
Proof.
  intros H. revert y. induction H as [|a x -> _ IH]; intros [|b y];
  rewrite ?dot_nil_l, ?dot_nil_r, ?dot_cons; try lra.
  rewrite IH. lra.
Qed.

Lemma dot_zero_r (x y : list R) : zero_vector y -> dot x y = 0.
Proof.
  intros H. revert x. induction H as [|b y -> _ IH]; intros [|a x];
  rewrite ?dot_nil_l, ?dot_nil_r, ?dot_cons; try lra.
  rewrite IH. lra.
Qed.

Lemma dot_self_zero (x : list R) : dot x x = 0 -> zero_vector x.
Proof.
  induction x as [|a x IH]; intros H; [constructor|].
  rewrite dot_cons in H. pose proof (dot_self_nonneg x) as Hx.
  constructor; [nra | apply IH; nra].
Qed.

Lemma dot_nonneg (x y : list R) : nonnegative x -> nonnegative y -> 0 <= dot x y.
Proof.
  intros Hx. revert y. induction Hx as [|a x Ha _ IH]; intros y Hy.
  - rewrite dot_nil_l. lra.
  - destruct Hy as [|b y Hb Hy]; [rewrite dot_nil_r; lra|].
    rewrite dot_cons. specialize (IH y Hy). nra.
Qed.

Lemma l2_normalize_zero (x : list R) : zero_vector x -> l2_normalize x = x.
Proof.
  intros H. unfold l2_normalize.
  destruct (Req_dec_T (dot x x) 0) as [_|Hne]; [reflexivity|].
  exfalso. apply Hne. now apply dot_zero_l.
Qed.

Lemma l2_normalize_zero_iff (x : list R) :
  zero_vector (l2_normalize x) <-> zero_vector x.
Proof.
  unfold l2_normalize.
  destruct (Req_dec_T (dot x x) 0) as [H0|Hne]; [reflexivity|].
  assert (Hs : 0 < sqrt (dot x x)).
  { apply sqrt_lt_R0. pose proof (dot_self_nonneg x). lra. }
  unfold zero_vector. rewrite List.Forall_map.
  split; intros H; (eapply Forall_impl; [exact H|]); intros a Ha; simpl in *.
  - apply Rmult_eq_reg_r with (/ sqrt (dot x x)).
    + unfold Rdiv in Ha. lra.
    + apply Rinv_neq_0_compat. lra.
  - subst a. unfold Rdiv. lra.
Qed.

Lemma l2_normalize_nonneg (x : list R) : nonnegative x -> nonnegative (l2_normalize x).
Proof.
  intros H. unfold l2_normalize.
  destruct (Req_dec_T (dot x x) 0) as [H0|Hne]; [assumption|].
  assert (Hs : 0 < sqrt (dot x x)).
  { apply sqrt_lt_R0. pose proof (dot_self_nonneg x). lra. }
  unfold nonnegative. rewrite List.Forall_map.
  eapply Forall_impl; [exact H|]. intros a Ha. simpl.
  apply Rle_mult_inv_pos; assumption.
Qed.

(** a normalised row has length one, unless it is a row of zeros *)
Lemma l2_normalize_dot_self (x : list R) :
  dot (l2_normalize x) (l2_normalize x) = (if Req_dec_T (dot x x) 0 then 0 else 1).
Proof.
  unfold l2_normalize.
  destruct (Req_dec_T (dot x x) 0) as [H0|Hne]; [assumption|].
  pose proof (dot_self_nonneg x) as Hx.
  unfold Rdiv. rewrite dot_scale.
  rewrite <- Rinv_mult, sqrt_sqrt by assumption.
  now apply Rinv_r.
Qed.

Lemma l2_normalize_dot_self_le (x : list R) :
  dot (l2_normalize x) (l2_normalize x) <= 1.
Proof.
  rewrite l2_normalize_dot_self. destruct (Req_dec_T _ _); lra.
Qed.

Lemma cosine_le_1 (x y : list R) : cosine x y <= 1.
Proof.
  unfold cosine.
  pose proof (two_dot_le (l2_normalize x) (l2_normalize y)).
  pose proof (l2_normalize_dot_self_le x).
  pose proof (l2_normalize_dot_self_le y).
  lra.
Qed.

Lemma cosine_nonneg (x y : list R) : nonnegative x -> nonnegative y -> 0 <= cosine x y.
Proof.
  intros Hx Hy. apply dot_nonneg; now apply l2_normalize_nonneg.
Qed.

Lemma cosine_zero_l (x y : list R) : zero_vector x -> cosine x y = 0.
Proof.
  intros H. unfold cosine. apply dot_zero_l. now apply l2_normalize_zero_iff.
Qed.

Lemma cosine_zero_r (x y : list R) : zero_vector y -> cosine x y = 0.
Proof.
  intros H. unfold cosine. apply dot_zero_r. now apply l2_normalize_zero_iff.
Qed.

(** no row is closer to a row than the row itself *)
Lemma cosine_self_max (x y : list R) : cosine x y <= cosine x x.
Proof.
  destruct (Req_dec_T (dot x x) 0) as [H0|Hne].
  - apply dot_self_zero in H0.
    rewrite !cosine_zero_l by assumption. lra.
  - unfold cosine at 2. rewrite l2_normalize_dot_self.
    destruct (Req_dec_T (dot x x) 0); [contradiction|]. apply cosine_le_1.
Qed.

End CosineFacts.

(** ** The fitted space *)

Section VectorizerFacts.

Import Sklearn.
Local Open Scope R_scope.

Lemma as_text_strs (texts : list string) :
  mapM_result as_text (List.map Str texts) = Ok texts.
Proof.
  rewrite mapM_result_compose. rewrite <- (List.map_id texts) at 2.
  apply mapM_result_map, List.Forall_forall. reflexivity.
Qed.

Lemma as_text_inv (docs : list cell) (texts : list string) :
  mapM_result as_text docs = Ok texts -> docs = List.map Str texts.
Proof.
  intros H. apply mapM_result_inv in H.
  induction H as [|c t docs texts Hc _ IH]; [reflexivity|].
  destruct c; try discriminate. injection Hc as ->. simpl. now rewrite IH.
Qed.

Lemma fit_inv (english : list string) (corpus : list cell) (v : TfidfVectorizer) :
  fit english corpus = Ok v ->
  exists texts : list string,
  corpus = List.map Str texts /\
  stop_words_ v = english /\
  vocabulary_ v = build_vocabulary (List.map (analyze english) texts) /\
  vocabulary_ v <> [] /\
  idf_ v = List.map (idf (List.map (analyze english) texts)) (vocabulary_ v).
Proof.
  unfold fit. destruct (mapM_result as_text corpus) as [texts|e] eqn:E;
  [|discriminate].
  simpl. intros H. exists texts. split; [now apply as_text_inv|].
  destruct (build_vocabulary _) as [|t voc]; [discriminate|].
  injection H as <-. simpl. repeat split. discriminate.
Qed.

Lemma idf_ge_1 (docs : list (list string)) (t : string) : 1 <= idf docs t.
Proof.
  unfold idf, document_frequency.
  pose proof (List.filter_length_le (has_term t) docs) as Hle.
  apply le_INR in Hle.
  pose proof (pos_INR (length (List.filter (has_term t) docs))) as Hpos.
  set (n := INR (length docs)) in *.
  set (k := INR (length (List.filter (has_term t) docs))) in *.
  assert (H1 : 1 <= (1 + n) / (1 + k)).
  { apply Rmult_le_reg_r with (1 + k); [lra|].
  unfold Rdiv. rewrite Rmult_assoc, Rinv_l by lra. lra. }
  assert (H0 : 0 <= ln ((1 + n) / (1 + k))).
  { destruct H1 as [Hlt|<-]; [|rewrite ln_1; lra].
  rewrite <- ln_1. left. apply ln_increasing; lra. }
  lra.
Qed.

Lemma fitted_idf_nonneg (english : list string) (corpus : list cell)
  (v : TfidfVectorizer) :
  fit english corpus = Ok v -> nonnegative (idf_ v).
Proof.
  intros H. apply fit_inv in H as (texts & _ & _ & _ & _ & ->).
  unfold nonnegative. rewrite List.Forall_map. apply List.Forall_forall.
  intros t _. pose proof (idf_ge_1 (List.map (analyze english) texts) t). lra.
Qed.

Lemma zip_mult_nonneg (x y : list R) :
  nonnegative x -> nonnegative y -> nonnegative (zip_with Rmult x y).
Proof.
  intros Hx. revert y. induction Hx as [|a x Ha _ IH]; intros y Hy; simpl.
  - constructor.
  - destruct Hy as [|b y Hb Hy]; constructor; [nra | now apply IH].
Qed.

Lemma zip_mult_zero (x y : list R) : zero_vector x -> zero_vector (zip_with Rmult x y).
Proof.
  intros Hx. revert y. induction Hx as [|a x -> _ IH]; intros [|b y]; simpl;
  constructor; [lra | apply IH].
Qed.

Lemma tfidf_row_nonneg (v : TfidfVectorizer) (doc : list string) :
  nonnegative (idf_ v) -> nonnegative (tfidf_row v doc).
Proof.
  intros H. apply zip_mult_nonneg; [|assumption].
  unfold nonnegative. rewrite List.Forall_map. apply List.Forall_forall.
  intros t _. apply pos_INR.
Qed.

Lemma embed_nonneg (v : TfidfVectorizer) (text : string) :
  nonnegative (idf_ v) -> nonnegative (embed v text).
Proof. intros H. now apply l2_normalize_nonneg, tfidf_row_nonneg. Qed.

Lemma term_count_absent (t : string) (doc : list string) :
  ~ In t doc -> term_count t doc = 0%nat.
Proof.
  unfold term_count. induction doc as [|u doc IH]; intros H; [reflexivity|].
  simpl. destruct (String.eqb t u) eqn:E.
  - apply String.eqb_eq in E. exfalso. apply H. now left.
  - apply IH. intros Hin. apply H. now right.
Qed.

(** a text none of whose terms is in the vocabulary has the row of zeros *)
Lemma embed_out_of_vocabulary (v : TfidfVectorizer) (text : string) :
  (forall t, In t (analyze (stop_words_ v) text) -> ~ In t (vocabulary_ v)) ->
  zero_vector (embed v text).
Proof.
  intros H. apply l2_normalize_zero_iff, zip_mult_zero.
  unfold zero_vector. rewrite List.Forall_map. apply List.Forall_forall.
  intros t Ht. rewrite term_count_absent; [reflexivity|].
  intros Hin. exact (H t Hin Ht).
Qed.

Lemma embed_empty_text (v : TfidfVectorizer) : zero_vector (embed v EmptyString).
Proof. apply embed_out_of_vocabulary. intros t []. Qed.

Lemma skill_scores_texts (v : TfidfVectorizer) (user_skills : string)
  (texts : list string) :
  texts <> [] ->
  skill_scores v user_skills (List.map Str texts)
  = Ok (List.map (fun d => cosine (embed v user_skills) (embed v d)) texts).
Proof.
  intros Hne. unfold skill_scores, transform. rewrite as_text_strs. simpl.
  destruct texts as [|d texts]; [congruence|]. simpl.
  unfold flatten, cosine_similarity. simpl.
  now rewrite List.app_nil_r, List.map_map.
Qed.

(** without a document the first [transform] raises *)
Lemma skill_scores_none (v : TfidfVectorizer) (user_skills : string) :
  skill_scores v user_skills [] = Raise ValueError.
Proof. reflexivity. Qed.

Lemma skill_scores_inv (v : TfidfVectorizer) (user_skills : string)
  (docs : list cell) (scores : list R) :
  skill_scores v user_skills docs = Ok scores ->
  exists texts : list string,
  docs = List.map Str texts /\
  scores = List.map (fun d => cosine (embed v user_skills) (embed v d)) texts.
Proof.
  intros H. unfold skill_scores, transform in H.
  destruct (mapM_result as_text docs) as [texts|e] eqn:E; [|discriminate].
  apply as_text_inv in E. subst docs. exists texts. split; [reflexivity|].
  destruct texts as [|d texts]; [discriminate|].
  pose proof (skill_scores_texts v user_skills (d :: texts)) as H'.
  unfold skill_scores, transform in H'. rewrite as_text_strs in H'.
  rewrite H' in H by discriminate. now injection H as <-.
Qed.

Lemma skill_scores_nonempty (v : TfidfVectorizer) (user_skills : string)
  (docs : list cell) (scores : list R) :
  skill_scores v user_skills docs = Ok scores -> docs <> [].
Proof. intros H ->. discriminate H. Qed.

End VectorizerFacts.

(** ** Indexing, masks and the descending sort *)

Section IndexFacts.

Import Pandas.
Local Open Scope list_scope.

Context {A : Type}.
Implicit Types (l : list A) (a p : list nat) (mask : list bool).

Lemma take_nil l : take [] l = [].
Proof. reflexivity. Qed.

Lemma take_cons (i : nat) a l :
  take (i :: a) l = match l !! i with
              | Some x => x :: take a l
              | None => take a l
              end.
Proof. reflexivity. Qed.

Lemma take_app a p l : take (a ++ p) l = take a l ++ take p l.
Proof. apply omap_app. Qed.

Lemma take_rev a l : take (rev a) l = rev (take a l).
Proof.
  induction a as [|i a IH]; [reflexivity|].
  simpl rev. rewrite take_app, IH, take_cons.
  destruct (l !! i); simpl; [reflexivity|]. now rewrite List.app_nil_r.
Qed.

Lemma take_seq_suffix (pre l : list A) :
  take (seq (length pre) (length l)) (pre ++ l) = l.
Proof.
  revert pre. induction l as [|x l IH]; intros pre; [reflexivity|].
  simpl seq. rewrite take_cons.
  rewrite lookup_app_r, Nat.sub_diag by lia. simpl. f_equal.
  specialize (IH (pre ++ [x])).
  rewrite List.length_app, Nat.add_1_r, <- List.app_assoc in IH. exact IH.
Qed.

Lemma take_seq l : take (seq 0 (length l)) l = l.
Proof. exact (take_seq_suffix [] l). Qed.

Lemma take_permutation p l :
  Permutation p (seq 0 (length l)) -> Permutation (take p l) l.
Proof.
  intros H. rewrite <- (take_seq l) at 2.
  unfold take. now apply omap_Permutation.
Qed.

Lemma take_lookup a l (i : nat) :
  Forall (fun j => is_Some (l !! j)) a ->
  take a l !! i = a !! i ≫= (fun j => l !! j).
Proof.
  intros H. revert i. induction H as [|j a [x Hx] _ IH]; intros i; [reflexivity|].
  rewrite take_cons, Hx. destruct i as [|i]; simpl; [now rewrite Hx | apply IH].
Qed.

Lemma take_length a l :
  Forall (fun j => is_Some (l !! j)) a -> length (take a l) = length a.
Proof.
  induction 1 as [|j a [x Hx] _ IH]; [reflexivity|].
  rewrite take_cons, Hx. simpl. now rewrite IH.
Qed.

Lemma select_nil_l l : select [] l = [].
Proof. unfold select. destruct l; reflexivity. Qed.

Lemma select_nil_r mask : select mask (@nil A) = [].
Proof. reflexivity. Qed.

Lemma select_cons (b : bool) mask (x : A) l :
  select (b :: mask) (x :: l) = if b then x :: select mask l else select mask l.
Proof. unfold select. simpl. destruct b; reflexivity. Qed.

Lemma select_partition mask l :
  length mask = length l ->
  Permutation (select (List.map negb mask) l ++ select mask l) l.
Proof.
  revert mask. induction l as [|x l IH]; intros [|b mask] H; try discriminate.
  - reflexivity.
  - injection H as H. simpl List.map. rewrite !select_cons.
    destruct b; simpl.
    + rewrite <- Permutation_middle. constructor. now apply IH.
    + constructor. now apply IH.
Qed.

End IndexFacts.

Section SortFacts.

Import Pandas.
Local Open Scope list_scope.

Lemma take_take {A} (p a : list nat) (l : list A) :
  Forall (fun j => is_Some (l !! j)) a ->
  take (take p a) l = take p (take a l).
Proof.
  intros H. induction p as [|i p IH]; [reflexivity|].
  rewrite !take_cons, (take_lookup a l i H).
  destruct (a !! i) as [j|] eqn:E; simpl; [|assumption].
  now rewrite IH.
Qed.

Lemma take_select_seq {A} (mask : list bool) (pre l : list A) :
  take (select mask (seq (length pre) (length l))) (pre ++ l) = select mask l.
Proof.
  revert mask pre. induction l as [|x l IH]; intros [|b mask] pre;
  try reflexivity.
  simpl seq. rewrite !select_cons.
  specialize (IH mask (pre ++ [x])).
  rewrite List.length_app, Nat.add_1_r, <- List.app_assoc in IH. simpl in IH.
  destruct b; [|exact IH].
  rewrite take_cons, lookup_app_r, Nat.sub_diag by lia. simpl.
  now rewrite IH.
Qed.

Lemma select_seq_sorted (mask : list bool) (s n : nat) :
  StronglySorted lt (select mask (seq s n)) /\
  Forall (fun j => (s <= j < s + n)%nat) (select mask (seq s n)).
Proof.
  revert mask s. induction n as [|n IH]; intros [|b mask] s; simpl seq;
  rewrite ?select_nil_l, ?select_nil_r; try (split; constructor).
  rewrite select_cons. destruct (IH mask (S s)) as [H1 H2].
  assert (H3 : Forall (fun j => (s <= j < s + S n)%nat) (select mask (seq (S s) n))).
  { eapply Forall_impl; [exact H2|]. simpl. lia. }
  destruct b; [|now split].
  split.
  - constructor; [assumption|].
    eapply Forall_impl; [exact H2|]. simpl. lia.
  - constructor; [lia | assumption].
Qed.

Lemma StronglySorted_rev {A} (R : relation A) (l : list A) :
  StronglySorted R l -> StronglySorted (flip R) (rev l).
Proof.
  induction 1 as [|x l _ IH Hx]; [constructor|].
  simpl. apply StronglySorted_app_2;
  [|assumption | repeat constructor].
  intros y z Hy Hz. apply list_elem_of_singleton in Hz as ->.
  apply list_elem_of_In, List.in_rev in Hy.
  unfold flip. rewrite List.Forall_forall in Hx. now apply Hx.
Qed.

Lemma StronglySorted_weaken {A} (R1 R2 : relation A) (l : list A) :
  (forall x y, In x l -> In y l -> R1 x y -> R2 x y) ->
  StronglySorted R1 l -> StronglySorted R2 l.
Proof.
  intros H Hs. induction Hs as [|x l _ IH Hx]; [constructor|].
  constructor.
  - apply IH. intros y z Hy Hz. apply H; now right.
  - rewrite List.Forall_forall in *. intros y Hy.
    apply H; [now left | now right | now apply Hx].
Qed.

Lemma StronglySorted_omap {A B} (R1 : relation A) (R2 : relation B)
  (f : A -> option B) (l : list A) :
  (forall x y x' y', R1 x y -> f x = Some x' -> f y = Some y' -> R2 x' y') ->
  StronglySorted R1 l -> StronglySorted R2 (omap f l).
Proof.
  intros H. induction 1 as [|x l _ IH Hx]; [constructor|].
  simpl. destruct (f x) as [x'|] eqn:E; [|assumption].
  constructor; [assumption|].
  apply List.Forall_forall. intros y' Hy'.
  apply list_elem_of_In, list_elem_of_omap in Hy' as (y & Hy & Ey).
  rewrite List.Forall_forall in Hx.
  apply (H x y); [apply Hx; now apply list_elem_of_In | assumption..].
Qed.

Lemma StronglySorted_lookup {A} (R : relation A) (l : list A) (i j : nat) (x y : A) :
  StronglySorted R l -> (i < j)%nat -> l !! i = Some x -> l !! j = Some y -> R x y.
Proof.
  intros H. revert i j. induction H as [|z l _ IH Hz]; intros i j Hij Hi Hj.
  - discriminate.
  - destruct j as [|j]; [lia|]. simpl in Hj.
    destruct i as [|i]; simpl in Hi.
    + injection Hi as ->. rewrite List.Forall_forall in Hz.
      apply Hz. eapply list_elem_of_In, list_elem_of_lookup_2, Hj.
    + apply (IH i j); [lia | assumption..].
Qed.

End SortFacts.

(** ** The descending sort with nulls last *)

Section Nargsort.

Import Pandas.
Local Open Scope list_scope.

Variable argsort : list fval -> list nat.
Hypothesis argsort_sorts : sorts argsort.

Implicit Types items : list fval.

Lemma finite_mask_length items : length (finite_mask items) = length items.
Proof. unfold finite_mask. now rewrite !List.length_map. Qed.

Lemma select_finite items :
  select (finite_mask items) items = List.filter (fun x => negb (isnan x)) items.
Proof. unfold finite_mask. rewrite List.map_map. apply select_map. Qed.

Lemma select_nan items :
  select (List.map isnan items) items = List.filter isnan items.
Proof. apply select_map. Qed.

Lemma select_finite_notnan items :
  Forall (fun x => isnan x = false) (rev (select (finite_mask items) items)).
Proof.
  rewrite select_finite. apply List.Forall_forall. intros x Hx.
  apply List.in_rev, List.filter_In in Hx as [_ Hx].
  now apply negb_true_iff.
Qed.

Lemma nonzero_valid {A} (mask : list bool) (l : list A) :
  length mask = length l ->
  Forall (fun j => is_Some (l !! j)) (nonzero mask).
Proof.
  intros H. unfold nonzero.
  destruct (select_seq_sorted mask 0 (length mask)) as [_ Hb].
  eapply Forall_impl; [exact Hb|]. simpl. intros j Hj.
  apply lookup_lt_is_Some. lia.
Qed.

Lemma take_nonzero {A} (mask : list bool) (l : list A) :
  length mask = length l -> take (nonzero mask) l = select mask l.
Proof.
  intros H. unfold nonzero. rewrite H. exact (take_select_seq mask [] l).
Qed.

Lemma nonzero_elem (mask : list bool) (j : nat) :
  In j (nonzero mask) -> mask !! j = Some true.
Proof.
  unfold nonzero, select. intros H.
  apply List.in_map_iff in H as ([j' b] & <- & H).
  apply List.filter_In in H as [H Hb]. simpl in *. subst b.
  apply list_elem_of_In, list_elem_of_lookup in H as [i Hi].
  apply lookup_zip_with_Some in Hi as (j0 & b0 & Heq & Hj & Hb).
  injection Heq as <- <-.
  apply lookup_seq in Hj as [-> _]. exact Hb.
Qed.

(** the positions of the finite keys, last first, with their keys *)
Lemma reversed_finite_keys items :
  take (rev (nonzero (finite_mask items))) items
  = rev (select (finite_mask items) items).
Proof.
  rewrite take_rev. f_equal. apply take_nonzero, finite_mask_length.
Qed.

Lemma reversed_finite_valid items :
  Forall (fun j => is_Some (items !! j)) (rev (nonzero (finite_mask items))).
Proof.
  apply List.Forall_rev, nonzero_valid, finite_mask_length.
Qed.

Lemma reversed_finite_length items :
  length (rev (nonzero (finite_mask items)))
  = length (rev (select (finite_mask items) items)).
Proof.
  rewrite <- reversed_finite_keys.
  symmetry. apply take_length, reversed_finite_valid.
Qed.

Lemma nargsort_desc_permutation items :
  Permutation (nargsort_desc argsort items) (seq 0 (length items)).
Proof.
  unfold nargsort_desc. fold (finite_mask items).
  destruct (argsort_sorts _ (select_finite_notnan items)) as [Hp _].
  rewrite <- reversed_finite_length in Hp.
  apply take_permutation in Hp.
  rewrite <- Permutation_rev, Hp, <- Permutation_rev.
  unfold nonzero. rewrite finite_mask_length, List.length_map.
  unfold finite_mask. apply select_partition.
  now rewrite List.length_map, List.length_seq.
Qed.

Lemma nargsort_desc_keys items :
  take (nargsort_desc argsort items) items
  = rev (take (argsort (rev (select (finite_mask items) items)))
       (rev (select (finite_mask items) items)))
  ++ List.filter isnan items.
Proof.
  unfold nargsort_desc. fold (finite_mask items).
  rewrite take_app, take_rev.
  rewrite take_take by apply reversed_finite_valid.
  rewrite reversed_finite_keys.
  rewrite take_nonzero by now rewrite List.length_map.
  now rewrite select_nan.
Qed.

Lemma nargsort_desc_sorted items :
  StronglySorted ranks_before (take (nargsort_desc argsort items) items).
Proof.
  rewrite nargsort_desc_keys.
  destruct (argsort_sorts _ (select_finite_notnan items)) as [_ Hs].
  apply StronglySorted_app_2.
  - intros x y _ Hy. right.
  apply list_elem_of_In, List.filter_In in Hy. tauto.
  - apply StronglySorted_rev in Hs.
  eapply StronglySorted_weaken; [|exact Hs].
  intros x y _ _ H. left. exact H.
  - apply (StronglySorted_weaken (fun _ _ => True)).
  + intros x y _ Hy _. right. apply List.filter_In in Hy. tauto.
  + induction (List.filter isnan items) as [|x l IH]; constructor;
    [assumption | now apply List.Forall_forall].
Qed.

Lemma finite_position items (j : nat) (x : fval) :
  In j (nonzero (finite_mask items)) -> items !! j = Some x -> isnan x = false.
Proof.
  intros Hj Hx. apply nonzero_elem in Hj. unfold finite_mask in Hj.
  change (List.map negb (List.map isnan items))
  with (negb <$> (isnan <$> items)) in Hj.
  rewrite !list_lookup_fmap, Hx in Hj. simpl in Hj.
  injection Hj as Hj. now apply negb_true_iff.
Qed.

Lemma nan_position items (j : nat) (x : fval) :
  In j (nonzero (List.map isnan items)) -> items !! j = Some x -> isnan x = true.
Proof.
  intros Hj Hx. apply nonzero_elem in Hj.
  change (List.map isnan items) with (isnan <$> items) in Hj.
  rewrite list_lookup_fmap, Hx in Hj. now injection Hj.
Qed.

Lemma nargsort_desc_ties items :
  stable argsort -> keeps_ties items (nargsort_desc argsort items).
Proof.
  intros Hst. unfold keeps_ties, nargsort_desc. fold (finite_mask items).
  set (RI := rev (nonzero (finite_mask items))).
  set (R := rev (select (finite_mask items) items)).
  assert (HRI : StronglySorted (flip lt) RI).
  { apply StronglySorted_rev. unfold nonzero. apply select_seq_sorted. }
  assert (Hkey : forall a P, RI !! a = Some P -> R !! a = items !! P).
  { intros a P Ha. unfold R. rewrite <- reversed_finite_keys. fold RI.
  rewrite take_lookup by apply reversed_finite_valid. fold RI.
  now rewrite Ha. }
  apply StronglySorted_app_2.
  - intros P Q HP HQ x HxP HxQ. exfalso.
    apply list_elem_of_In, List.in_rev in HP.
    apply list_elem_of_In, list_elem_of_omap in HP as (a & _ & HP).
    assert (HP' : In P (nonzero (finite_mask items))).
    { apply List.in_rev. fold RI. eapply list_elem_of_In, list_elem_of_lookup_2, HP. }
    apply list_elem_of_In in HQ.
    pose proof (finite_position items P x HP' HxP).
    pose proof (nan_position items Q x HQ HxQ). congruence.
  - specialize (Hst R (select_finite_notnan items)).
    apply (StronglySorted_rev (flip (tie_order items))).
    eapply StronglySorted_omap; [|exact Hst].
    intros a b P Q Hab Ha Hb x HxQ HxP.
    assert (a < b)%nat as Hlt.
    { apply (Hab x); [rewrite (Hkey a P Ha) | rewrite (Hkey b Q Hb)]; assumption. }
    exact (StronglySorted_lookup _ _ _ _ _ _ HRI Hlt Ha Hb).
  - eapply (StronglySorted_weaken lt).
    + intros P Q _ _ H x _ _. exact H.
    + unfold nonzero. apply select_seq_sorted.
Qed.

End Nargsort.

(** ** Two sorts that meet the contract *)

Section InsertionSorts.

Import Pandas Argsort.
Local Open Scope list_scope.

Lemma fle_refl (x : fval) : isnan x = false -> fle x x.
Proof. destruct x; simpl; try discriminate; intros _; [apply Rle_refl|exact I..]. Qed.

Lemma fle_trans (x y z : fval) : fle x y -> fle y z -> fle x z.
Proof.
  destruct x, y, z; simpl; try tauto. apply Rle_trans.
Qed.

Lemma fle_total (x y : fval) :
  isnan x = false -> isnan y = false -> fle x y \/ fle y x.
Proof.
  destruct x as [a| | |], y as [b| | |]; simpl; try discriminate; intros _ _;
  try tauto.
  destruct (Rle_dec a b); [now left | right]. apply Rlt_le. now apply Rnot_le_lt.
Qed.

Lemma fltb_irrefl (x : fval) : fltb x x = false.
Proof.
  unfold fltb. destruct (flt_dec x x) as [[H1 H2]|_]; [contradiction | reflexivity].
Qed.

Variable before : fval -> fval -> bool.
Hypothesis before_le : forall x y, before x y = true -> fle x y.
Hypothesis before_ge : forall x y,
isnan x = false -> isnan y = false -> before x y = false -> fle y x.

Lemma insert_by_permutation (x : nat * fval) (l : list (nat * fval)) :
  Permutation (insert_by before x l) (x :: l).
Proof.
  induction l as [|y l IH]; simpl; [reflexivity|].
  destruct (before _ _); [reflexivity|].
  rewrite IH. apply perm_swap.
Qed.

Lemma sorted_permutation (l : list (nat * fval)) :
  Permutation (foldr (insert_by before) [] l) l.
Proof.
  induction l as [|x l IH]; simpl; [reflexivity|].
  now rewrite insert_by_permutation, IH.
Qed.

Lemma insert_by_ascending (x : nat * fval) (l : list (nat * fval)) :
  isnan (snd x) = false -> finite_pairs l ->
  StronglySorted ascending l -> StronglySorted ascending (insert_by before x l).
Proof.
  intros Hx Hl Hs. induction Hs as [|y l Hs IH Hy]; simpl.
  - repeat constructor.
  - apply Forall_cons in Hl as [Hy0 Hl].
  destruct (before (snd x) (snd y)) eqn:E.
  + apply before_le in E. constructor; [now constructor|].
    constructor; [exact E|].
    eapply Forall_impl; [exact Hy|]. intros v Hv. exact (fle_trans _ _ _ E Hv).
  + apply before_ge in E; [|assumption..]. constructor; [now apply IH|].
    rewrite insert_by_permutation. constructor; assumption.
Qed.

Lemma sorted_ascending (l : list (nat * fval)) :
  finite_pairs l -> StronglySorted ascending (foldr (insert_by before) [] l).
Proof.
  induction 1 as [|x l Hx Hl IH]; simpl; [constructor|].
  apply insert_by_ascending; [assumption | | assumption].
  unfold finite_pairs. now rewrite sorted_permutation.
Qed.

End InsertionSorts.

Section InsertionSortContract.

Import Pandas Argsort.
Local Open Scope list_scope.

Lemma enumerate_fst_from (s : nat) (a : list fval) :
  List.map fst (combine (seq s (length a)) a) = seq s (length a).
Proof.
  revert s. induction a as [|x a IH]; intros s; simpl; [reflexivity|].
  now rewrite IH.
Qed.

Lemma enumerate_fst (a : list fval) :
  List.map fst (enumerate a) = seq 0 (length a).
Proof. apply enumerate_fst_from. Qed.

Lemma enumerate_indexes_from (pre a : list fval) :
  indexes (pre ++ a) (combine (seq (length pre) (length a)) a).
Proof.
  revert pre. induction a as [|x a IH]; intros pre; simpl; [constructor|].
  constructor.
  - simpl. now rewrite lookup_app_r, Nat.sub_diag by lia.
  - specialize (IH (pre ++ [x])).
    rewrite List.length_app, Nat.add_1_r, <- List.app_assoc in IH. exact IH.
Qed.

Lemma enumerate_indexes (a : list fval) : indexes a (enumerate a).
Proof. exact (enumerate_indexes_from [] a). Qed.

Lemma enumerate_finite (a : list fval) :
  Forall (fun x => isnan x = false) a -> finite_pairs (enumerate a).
Proof.
  intros H. apply List.Forall_forall. intros [i x] Hin.
  apply List.in_combine_r in Hin. rewrite List.Forall_forall in H. now apply H.
Qed.

Lemma take_pairs (a : list fval) (l : list (nat * fval)) :
  indexes a l -> take (List.map fst l) a = List.map snd l.
Proof.
  induction 1 as [|u l Hu _ IH]; [reflexivity|].
  simpl List.map. rewrite take_cons, Hu. now rewrite IH.
Qed.

Section AnyOrder.

Variable before : fval -> fval -> bool.
Hypothesis before_le : forall x y, before x y = true -> fle x y.
Hypothesis before_ge : forall x y,
  isnan x = false -> isnan y = false -> before x y = false -> fle y x.

Lemma sort_by_sorts : sorts (sort_by before).
Proof.
    intros a Ha. unfold sort_by. split.
    - rewrite sorted_permutation. now rewrite enumerate_fst.
    - rewrite take_pairs.
  + apply (StronglySorted_fmap snd ascending fle); [now intros u v|].
    apply sorted_ascending; [assumption.. | now apply enumerate_finite].
  + unfold indexes. rewrite sorted_permutation. apply enumerate_indexes.
Qed.

End AnyOrder.

Lemma fleb_le (x y : fval) : fleb x y = true -> fle x y.
Proof. unfold fleb. destruct (fle_dec x y); [tauto | discriminate]. Qed.

Lemma fleb_ge (x y : fval) :
  isnan x = false -> isnan y = false -> fleb x y = false -> fle y x.
Proof.
  unfold fleb. intros Hx Hy. destruct (fle_dec x y) as [|H]; [discriminate|].
  intros _. destruct (fle_total x y Hx Hy); [contradiction | assumption].
Qed.

Lemma fltb_le (x y : fval) : fltb x y = true -> fle x y.
Proof. unfold fltb. destruct (flt_dec x y) as [[H _]|]; [tauto | discriminate]. Qed.

Lemma fltb_ge (x y : fval) :
  isnan x = false -> isnan y = false -> fltb x y = false -> fle y x.
Proof.
  unfold fltb. intros Hx Hy. destruct (flt_dec x y) as [|H]; [discriminate|].
  intros _. destruct (fle_dec y x) as [|H']; [assumption|]. exfalso. apply H.
  split; [|assumption]. destruct (fle_total x y Hx Hy); [assumption | contradiction].
Qed.

Lemma keeping_ties_sorts : sorts keeping_ties.
Proof. apply sort_by_sorts; [apply fleb_le | apply fleb_ge]. Qed.

Lemma reversing_ties_sorts : sorts reversing_ties.
Proof. apply sort_by_sorts; [apply fltb_le | apply fltb_ge]. Qed.

Lemma insert_fleb_stable (x : nat * fval) (l : list (nat * fval)) :
  isnan (snd x) = false -> finite_pairs l ->
  Forall (fun v => (fst x < fst v)%nat) l ->
  StronglySorted ascending_stable l ->
  StronglySorted ascending_stable (insert_by fleb x l).
Proof.
  intros Hx Hl Hlt Hs. induction Hs as [|y l Hs IH Hy]; simpl.
  - repeat constructor.
  - apply Forall_cons in Hl as [Hy0 Hl]. apply Forall_cons in Hlt as [Hxy Hlt].
    destruct (fleb (snd x) (snd y)) eqn:E.
    + apply fleb_le in E. constructor; [now constructor|].
      constructor; [now split|].
      rewrite List.Forall_forall in *. intros v Hv. split.
      * exact (fle_trans _ _ _ E (proj1 (Hy v Hv))).
      * intros _. now apply Hlt.
    + constructor; [now apply IH|].
      rewrite insert_by_permutation. constructor; [|assumption].
      split; [now apply fleb_ge|].
      intros H. exfalso. unfold fleb in E.
      destruct (fle_dec (snd x) (snd y)); [discriminate | contradiction].
Qed.

Lemma fleb_sorted_stable (s : nat) (a : list fval) :
  Forall (fun x => isnan x = false) a ->
  StronglySorted ascending_stable
    (foldr (insert_by fleb) [] (combine (seq s (length a)) a)).
Proof.
  intros H. revert s. induction H as [|x a Hx Ha IH]; intros s; simpl;
    [constructor|].
  apply insert_fleb_stable; [assumption | | | apply IH].
  - unfold finite_pairs. rewrite sorted_permutation.
    apply List.Forall_forall. intros [i y] Hin.
    apply List.in_combine_r in Hin. rewrite List.Forall_forall in Ha. now apply Ha.
  - rewrite sorted_permutation. apply List.Forall_forall. intros [i y] Hin.
    apply List.in_combine_l, List.in_seq in Hin. simpl. lia.
Qed.

Lemma keeping_ties_stable : stable keeping_ties.
Proof.
  intros a Ha. unfold keeping_ties, sort_by.
  apply (StronglySorted_fmap fst (fun u v => tie_order a (fst u) (fst v)));
    [now intros u v|].
  eapply StronglySorted_weaken; [|exact (fleb_sorted_stable 0 a Ha)].
  assert (Hidx : indexes a (foldr (insert_by fleb) [] (enumerate a))).
  { unfold indexes. rewrite sorted_permutation. apply enumerate_indexes. }
  unfold indexes in Hidx. rewrite List.Forall_forall in Hidx.
  intros u v Hu Hv [_ Hlt] x Hxu Hxv. apply Hlt.
  rewrite (Hidx u Hu) in Hxu. rewrite (Hidx v Hv) in Hxv.
  assert (Eu : snd u = x) by congruence.
  assert (Ev : snd v = x) by congruence.
  rewrite Eu, Ev. apply fle_refl.
  assert (Hfin : finite_pairs (foldr (insert_by fleb) [] (enumerate a))).
  { unfold finite_pairs. rewrite sorted_permutation. now apply enumerate_finite. }
  unfold finite_pairs in Hfin. rewrite List.Forall_forall in Hfin.
  rewrite <- Ev. now apply Hfin.
Qed.

End InsertionSortContract.

(** ** Columns of a frame *)

Section FrameFacts.

Import Pandas.
Local Open Scope list_scope.

Lemma mapM_result_iff {A B} (f : A -> result B) (l : list A) (ys : list B) :
  mapM_result f l = Ok ys <-> Forall2 (fun x y => f x = Ok y) l ys.
Proof.
  split; [apply mapM_result_inv|].
  induction 1 as [|x y l ys Hx _ IH]; simpl; [reflexivity|].
  now rewrite Hx, IH.
Qed.

Lemma floats_rows (name : string) (df : DataFrame) (xs : list fval) :
  floats name df = Ok xs <-> Forall2 (fun r x => cell_float name r = Ok x) df xs.
Proof.
  unfold floats, getitem. split.
  - destruct (mapM_result _ df) as [col|e] eqn:E; simpl; [|discriminate].
    intros H. apply mapM_result_iff in E, H.
    eapply Forall2_trans; [|exact E|exact H].
    intros r c x Hr Hc. simpl in *. unfold cell_float.
    destruct (fields r !! name); [|discriminate]. now injection Hr as ->.
  - induction 1 as [|r x df xs Hr _ IH]; simpl; [reflexivity|].
    unfold cell_float in Hr. destruct (fields r !! name) as [c|]; [|discriminate].
    destruct (mapM_result _ df) as [col|e]; simpl in *; [|discriminate].
    rewrite Hr. destruct (mapM_result as_float col); [|discriminate].
    now injection IH as ->.
Qed.

Lemma floats_length (name : string) (df : DataFrame) (xs : list fval) :
  floats name df = Ok xs -> length xs = length df.
Proof.
  intros H. apply floats_rows in H. symmetry. exact (Forall2_length _ _ _ H).
Qed.

Lemma setitem_length (name : string) (vals : list cell) (df : DataFrame) :
  length vals = length df -> length (setitem name vals df) = length df.
Proof.
  intros H. unfold setitem. rewrite length_zip_with. lia.
Qed.

Lemma setitem_twice (name : string) (vals : list cell) (df : DataFrame) :
  setitem name vals (setitem name vals df) = setitem name vals df.
Proof.
  unfold setitem. revert vals. induction df as [|r df IH]; intros [|c vals];
    simpl; try reflexivity.
  rewrite IH. f_equal. unfold set_field. simpl. f_equal. apply insert_insert_eq.
Qed.

Lemma floats_setitem (name : string) (xs : list fval) (df : DataFrame) :
  length xs = length df ->
  floats name (setitem name (List.map Float xs) df) = Ok xs.
Proof.
  intros H. apply floats_rows. unfold setitem.
  revert xs H. induction df as [|r df IH]; intros [|x xs] H; try discriminate;
    simpl; constructor.
  - unfold cell_float. simpl. now rewrite lookup_insert_eq.
  - apply IH. now injection H.
Qed.

Lemma floats_setitem_other (name other : string) (vals : list cell)
    (df : DataFrame) (ys : list fval) :
  name <> other -> length vals = length df ->
  floats other df = Ok ys ->
  floats other (setitem name vals df) = Ok ys.
Proof.
  intros Hne H Hys. apply floats_rows. apply floats_rows in Hys.
  unfold setitem. revert vals H.
  induction Hys as [|r y df ys Hy _ IH]; intros [|c vals] H; try discriminate;
    simpl; constructor.
  - unfold cell_float in *. simpl. now rewrite lookup_insert_ne.
  - apply IH. now injection H.
Qed.

Lemma Forall2_take_rows {A B} (P : A -> B -> Prop) (ix : list nat) (l : list A)
    (k : list B) :
  Forall2 P l k -> Forall2 P (take ix l) (take ix k).
Proof.
  intros H. induction ix as [|i ix IH]; [constructor|].
  rewrite !take_cons. destruct (l !! i) as [x|] eqn:E.
  - destruct (Forall2_lookup_l _ _ _ _ _ H E) as (y & -> & Hxy).
    now constructor.
  - apply lookup_ge_None in E. rewrite (Forall2_length _ _ _ H) in E.
    apply lookup_ge_None in E. now rewrite E.
Qed.

Lemma floats_take (name : string) (ix : list nat) (df : DataFrame)
    (xs : list fval) :
  floats name df = Ok xs -> floats name (take ix df) = Ok (take ix xs).
Proof.
  rewrite !floats_rows. apply Forall2_take_rows.
Qed.

Lemma sort_values_desc_floats (argsort : list fval -> list nat) (by_ : string)
    (df : DataFrame) (keys : list fval) :
  floats by_ df = Ok keys ->
  sort_values_desc argsort by_ df = Ok (take (nargsort_desc argsort keys) df).
Proof.
  unfold floats, sort_values_desc.
  destruct (getitem by_ df) as [col|e]; simpl; [|discriminate].
  now intros ->.
Qed.

Lemma scored_refl (frame : DataFrame) : scored frame frame.
Proof. apply Forall2_same_length_lookup. split; [reflexivity|].
  intros i r r' Hr Hr'. assert (r = r') as -> by congruence. now split.
Qed.

Lemma scored_trans (f1 f2 f3 : DataFrame) :
  scored f1 f2 -> scored f2 f3 -> scored f1 f3.
Proof.
  unfold scored. intros H12. revert f3.
  induction H12 as [|r1 r2 f1 f2 [Hl Hc] _ IH]; intros f3 H23.
  - inversion H23. constructor.
  - inversion H23 as [|? r3 ? f3' [Hl' Hc'] H]; subst. constructor.
    + split; [congruence|]. intros c H1 H2. rewrite Hc' by assumption.
      now apply Hc.
    + now apply IH.
Qed.

Lemma scored_setitem (name : string) (vals : list cell) (frame : DataFrame) :
  name = "salary_score" \/ name = "match_score" ->
  length vals = length frame ->
  scored frame (setitem name vals frame).
Proof.
  intros Hname. unfold scored, setitem. revert vals.
  induction frame as [|r frame IH]; intros [|c vals] H; try discriminate;
    simpl; constructor.
  - split; [reflexivity|]. intros c' H1 H2.
    apply lookup_insert_ne. destruct Hname; congruence.
  - apply IH. now injection H.
Qed.

End FrameFacts.

(** ** Running the ranking on the heap *)

Section RankFacts.

Import Pandas.
Local Open Scope list_scope.

Variable argsort : list fval -> list nat.

Lemma aligned_same_length {A B C} (f : A -> B -> C) (xs : list A) (ys : list B) :
  length xs = length ys -> aligned f xs ys = Ok (zip_with f xs ys).
Proof. intros H. unfold aligned. now rewrite H, Nat.eqb_refl. Qed.

Lemma match_scores_length (w : Weights) (scores sal : list fval) (frame : DataFrame) :
  floats "salary_score" frame = Ok sal -> length scores = length sal ->
  length (zip_with (match_score w) scores sal) = length frame.
Proof.
  intros Hsal Hlen. apply floats_length in Hsal.
  rewrite length_zip_with. lia.
Qed.

Lemma weighted_rank_run (scores : list fval) (df : loc) (w : Weights) (h : heap)
    (frame : DataFrame) (sal : list fval) :
  h !! df = Some (Frame frame) ->
  floats "salary_score" frame = Ok sal ->
  length scores = length sal ->
  weighted_rank argsort scores df w h
  = (Ok (take (nargsort_desc argsort (zip_with (match_score w) scores sal))
           (with_match_score frame (zip_with (match_score w) scores sal))),
     <[df := Frame (with_match_score frame (zip_with (match_score w) scores sal))]> h).
Proof.
  intros Hh Hsal Hlen.
  pose proof (match_scores_length w scores sal frame Hsal Hlen) as Hms.
  unfold weighted_rank, mbind, M_bind, read_frame, lift, assign.
  rewrite Hh, Hsal, (aligned_same_length _ _ _ Hlen), Hh.
  rewrite lookup_insert_eq.
  fold (with_match_score frame (zip_with (match_score w) scores sal)).
  rewrite (sort_values_desc_floats argsort _ _ (zip_with (match_score w) scores sal));
    [reflexivity|].
  now apply floats_setitem.
Qed.

End RankFacts.

Section RankingTheorems.

Import Pandas.
Local Open Scope list_scope.

Lemma ranks_before_finite (keys : list fval) :
  Forall (fun x => isnan x = false) keys ->
  StronglySorted ranks_before keys -> descending keys.
Proof.
  intros Hfin. apply StronglySorted_weaken.
  intros x y _ Hy [H|H]; [exact H|].
  rewrite List.Forall_forall in Hfin. rewrite (Hfin y Hy) in H. discriminate.
Qed.

Lemma take_subset {A} (ix : list nat) (l : list A) (x : A) :
  In x (take ix l) -> In x l.
Proof.
  intros H. apply list_elem_of_In, list_elem_of_omap in H as (i & _ & H).
  eapply list_elem_of_In, list_elem_of_lookup_2, H.
Qed.

Lemma match_scores_finite (w : Weights) (scores sal : list fval) :
  finite (skills w) -> finite (salary w) ->
  Forall finite scores -> Forall finite sal ->
  Forall (fun x => isnan x = false) (zip_with (match_score w) scores sal).
Proof.
  intros Hs Hl Hscores. revert sal.
  induction Hscores as [|x scores Hx _ IH]; intros sal Hsal; simpl;
    [constructor|].
  destruct Hsal as [|y sal Hy Hsal]; constructor; [|now apply IH].
  unfold match_score. destruct (skills w), (salary w), x, y; try contradiction.
  reflexivity.
Qed.

Lemma nargsort_reversing_ties_pair (k : fval) :
  isnan k = false -> nargsort_desc Argsort.reversing_ties [k; k] = [1; 0]%nat.
Proof.
  intros Hk. unfold nargsort_desc. simpl. rewrite Hk. simpl.
  unfold Argsort.reversing_ties, Argsort.sort_by, Argsort.enumerate. simpl.
  rewrite fltb_irrefl. reflexivity.
Qed.

End RankingTheorems.

(** ** What a pass writes *)

Section HeapFacts.

Import Pandas.
Local Open Scope list_scope.

Lemma preserved_refl (h : heap) : preserved h h.
Proof. now intros l _. Qed.

Lemma preserved_trans (h1 h2 h3 : heap) :
  preserved h1 h2 -> preserved h2 h3 -> preserved h1 h3.
Proof.
  intros H12 H23 l Hl. rewrite <- (H12 l Hl). apply H23.
  now rewrite (H12 l Hl).
Qed.

Lemma preserved_alloc (h : heap) (o : obj) :
  preserved h (<[fresh (dom h) := o]> h).
Proof.
  intros l Hl. apply lookup_insert_ne. intros <-.
  apply elem_of_dom in Hl. exact (is_fresh (dom h) Hl).
Qed.

Lemma fresh_lookup (h : heap) : h !! fresh (dom h) = None.
Proof. apply not_elem_of_dom, is_fresh. Qed.

Lemma writes_refl (df : loc) (h : heap) : writes df h h.
Proof.
  split; [reflexivity|]. destruct (h !! df) as [[frame|v]|]; try reflexivity.
  exists frame. split; [reflexivity | apply scored_refl].
Qed.

Lemma writes_trans (df : loc) (h1 h2 h3 : heap) :
  writes df h1 h2 -> writes df h2 h3 -> writes df h1 h3.
Proof.
  intros [Ho12 Hd12] [Ho23 Hd23]. split.
  - intros l Hl. now rewrite Ho23, Ho12.
  - destruct (h1 !! df) as [[frame|v]|].
    + destruct Hd12 as (frame2 & E2 & Hs2). rewrite E2 in Hd23.
      destruct Hd23 as (frame3 & E3 & Hs3). exists frame3.
      split; [assumption | now apply scored_trans with frame2].
    + rewrite Hd12 in Hd23. exact Hd23.
    + rewrite Hd12 in Hd23. exact Hd23.
Qed.

Lemma writes_setitem (df : loc) (h : heap) (frame : DataFrame) (name : string)
    (vals : list cell) :
  h !! df = Some (Frame frame) ->
  name = "salary_score" \/ name = "match_score" ->
  length vals = length frame ->
  writes df h (<[df := Frame (setitem name vals frame)]> h).
Proof.
  intros Hh Hname Hlen. split.
  - intros l Hl. now apply lookup_insert_ne.
  - rewrite Hh. eexists. split; [apply lookup_insert_eq|].
    now apply scored_setitem.
Qed.

Lemma normalize_salary_writes (df : loc) (h : heap) :
  writes df h (snd (normalize_salary df h)).
Proof.
  unfold normalize_salary, mbind, M_bind, read_frame, lift, assign.
  destruct (h !! df) as [[frame|v]|] eqn:Hh; simpl; try apply writes_refl.
  destruct (floats "salary_min" frame) as [smin|e] eqn:Hs; simpl;
    [|apply writes_refl].
  rewrite Hh. simpl. apply writes_setitem; [assumption | now left|].
  unfold salary_score. rewrite !List.length_map. now apply floats_length in Hs.
Qed.

Lemma weighted_rank_writes (argsort : list fval -> list nat)
    (scores : list fval) (df : loc) (w : Weights) (h : heap) :
  writes df h (snd (weighted_rank argsort scores df w h)).
Proof.
  unfold weighted_rank, mbind, M_bind, read_frame, lift, assign.
  destruct (h !! df) as [[frame|v]|] eqn:Hh; simpl; try apply writes_refl.
  destruct (floats "salary_score" frame) as [sal|e] eqn:Hs; simpl;
    [|apply writes_refl].
  unfold aligned. destruct (Nat.eqb _ _) eqn:E; simpl; [|apply writes_refl].
  rewrite Hh. simpl. rewrite lookup_insert_eq.
  apply Nat.eqb_eq in E. apply floats_length in Hs.
  assert (writes df h
            (<[df := Frame (setitem "match_score"
                              (List.map Float (zip_with (match_score w) scores sal))
                              frame)]> h)) as Hw.
  { apply writes_setitem; [assumption | now right|].
    rewrite List.length_map, length_zip_with. lia. }
  destruct (sort_values_desc _ _ _); exact Hw.
Qed.

Lemma enhanced_recommendations_writes (argsort : list fval -> list nat)
    (user_skills : string) (df vectorizer : loc) (w : Weights) (h : heap) :
  writes df h (snd (enhanced_recommendations argsort user_skills df vectorizer w h)).
Proof.
  unfold enhanced_recommendations.
  unfold mbind at 1 2 3 4 5, M_bind, read_frame, read_vectorizer, lift.
  destruct (h !! df) as [[frame|v0]|] eqn:Hh; simpl; try apply writes_refl.
  destruct (h !! vectorizer) as [[f|v]|]; simpl; try apply writes_refl.
  destruct (getitem "required_skills" frame) as [docs|e]; simpl;
    [|apply writes_refl].
  destruct (skill_scores v user_skills docs) as [scores|e]; simpl;
    [|apply writes_refl].
  pose proof (normalize_salary_writes df h) as Hn.
  destruct (normalize_salary df h) as [[[]|e] h1]; simpl in *; [|exact Hn].
  eapply writes_trans; [exact Hn|]. apply weighted_rank_writes.
Qed.

End HeapFacts.

Section PageFacts.

Import Pandas.
Local Open Scope list_scope.

Variable english : list string.

Lemma bind_run {A B} (m : M A) (k : A -> M B) (h : heap) :
  (mbind k m) h = match m h with
                  | (Ok a, h') => k a h'
                  | (Raise e, h') => (Raise e, h')
                  end.
Proof. reflexivity. Qed.

Lemma fresh_outside (h0 h : heap) : preserved h0 h -> h0 !! fresh (dom h) = None.
Proof.
  intros Hp. destruct (h0 !! fresh (dom h)) as [o|] eqn:E; [|reflexivity].
  exfalso. pose proof (Hp _ (mk_is_Some _ _ E)) as H.
  rewrite fresh_lookup in H. congruence.
Qed.

Lemma preserved_alloc_after (h0 h : heap) (o : obj) :
  preserved h0 h -> preserved h0 (<[fresh (dom h) := o]> h).
Proof. intros Hp. eapply preserved_trans; [exact Hp | apply preserved_alloc]. Qed.

Lemma filter_if_outcome (h0 h : heap) (cond : bool) (l : loc) (name : string)
    (keep : cell -> bool) (frame : DataFrame) :
  preserved h0 h -> h0 !! l = None -> h !! l = Some (Frame frame) ->
  preserved h0 (snd (filter_if cond l name keep h)) /\
  match fst (filter_if cond l name keep h) with
  | Ok l' =>
      h0 !! l' = None /\
      exists frame',
        select_if cond name keep frame = Ok frame' /\
        snd (filter_if cond l name keep h) !! l' = Some (Frame frame')
  | Raise _ => forall frame', select_if cond name keep frame <> Ok frame'
  end.
Proof.
  intros Hp H0 Hl. unfold filter_if, select_if. destruct cond.
  - unfold filter_rows. rewrite bind_run. unfold read_frame. rewrite Hl.
    rewrite bind_run. unfold lift.
    destruct (getitem name frame) as [col|e]; simpl.
    + split; [now apply preserved_alloc_after|].
      split; [now apply fresh_outside|].
      eexists. split; [reflexivity | apply lookup_insert_eq].
    + split; [assumption | discriminate].
  - simpl. split; [assumption|]. split; [assumption|].
    exists frame. now split.
Qed.

Lemma get_vectorizer_outcome (h0 h : heap) (df : loc) (frame : DataFrame) :
  preserved h0 h -> h !! df = Some (Frame frame) ->
  preserved h0 (snd (get_vectorizer english df h)) /\
  match fst (get_vectorizer english df h) with
  | Ok vl =>
      h !! vl = None /\
      (forall l, l <> vl -> snd (get_vectorizer english df h) !! l = h !! l) /\
      exists docs v,
        getitem "required_skills" frame = Ok docs /\
        Sklearn.fit english docs = Ok v /\
        snd (get_vectorizer english df h) !! vl = Some (Vectorizer v)
  | Raise _ =>
      forall docs v,
        getitem "required_skills" frame = Ok docs ->
        Sklearn.fit english docs <> Ok v
  end.
Proof.
  intros Hp Hdf. unfold get_vectorizer.
  rewrite bind_run. unfold read_frame. rewrite Hdf.
  rewrite bind_run. unfold lift.
  destruct (getitem "required_skills" frame) as [docs|e]; simpl.
  - destruct (Sklearn.fit english docs) as [v|e] eqn:Hfit; simpl.
    + split; [now apply preserved_alloc_after|].
      split; [apply fresh_lookup|].
      split; [intros l Hne; now apply lookup_insert_ne|].
      exists docs, v. repeat split; [assumption | apply lookup_insert_eq].
    + split; [assumption|]. intros docs' v [= <-]. congruence.
  - split; [assumption | discriminate].
Qed.

Lemma scoring_inputs_outcome (df : loc) (s : Settings) (h h' : heap)
    (r : result (loc * loc)) :
  scoring_inputs english df s h = (r, h') ->
  preserved h h' /\
  match r with
  | Ok (fl, vl) =>
      h !! fl = None /\ h !! vl = None /\ fl <> vl /\
      exists frame filtered docs v,
        h !! df = Some (Frame frame) /\
        filtered_frame s frame = Ok filtered /\
        h' !! fl = Some (Frame filtered) /\
        getitem "required_skills" frame = Ok docs /\
        Sklearn.fit english docs = Ok v /\
        h' !! vl = Some (Vectorizer v)
  | Raise _ =>
      forall frame filtered docs v,
        h !! df = Some (Frame frame) ->
        filtered_frame s frame = Ok filtered ->
        getitem "required_skills" frame = Ok docs ->
        Sklearn.fit english docs <> Ok v
  end.
Proof.
  intros E. unfold scoring_inputs in E. rewrite bind_run in E.
  unfold read_frame at 1 in E.
  destruct (h !! df) as [[frame|v0]|] eqn:Hdf;
    try (injection E as <- <-; split; [apply preserved_refl | discriminate]).
  rewrite bind_run in E. unfold alloc at 1 in E. cbv zeta in E.
  set (l0 := fresh (dom h)) in E. set (h0 := <[l0 := Frame frame]> h) in E.
  assert (P0 : preserved h h0) by apply preserved_alloc.
  assert (F0 : h !! l0 = None) by apply fresh_lookup.
  assert (L0 : h0 !! l0 = Some (Frame frame)) by apply lookup_insert_eq.
  rewrite bind_run in E. revert E.
  generalize (filter_if_outcome h h0
                (negb (String.eqb (selected_location s) "All")) l0 "location"
                (eq_text (selected_location s)) frame P0 F0 L0).
  destruct (filter_if _ l0 "location" _ h0) as [[l1|e] h1]; simpl;
    intros [P1 O1] E.
  2:{ injection E as <- <-. split; [assumption|].
      intros frame' filtered docs v [= <-] Hf.
      exfalso. unfold filtered_frame in Hf.
      destruct (select_if _ "location" _ frame) as [f1|e1] eqn:E1;
        [exact (O1 f1 eq_refl) | discriminate]. }
  destruct O1 as (F1 & frame1 & S1 & L1).
  rewrite bind_run in E. revert E.
  generalize (filter_if_outcome h h1
                (nonempty (experience_levels s)) l1 "experience_level"
                (isin (experience_levels s)) frame1 P1 F1 L1).
  destruct (filter_if _ l1 "experience_level" _ h1) as [[l2|e] h2]; simpl;
    intros [P2 O2] E.
  2:{ injection E as <- <-. split; [assumption|].
      intros frame' filtered docs v [= <-] Hf.
      exfalso. unfold filtered_frame in Hf. rewrite S1 in Hf. simpl in Hf.
      exact (O2 filtered Hf). }
  destruct O2 as (F2 & frame2 & S2 & L2).
  rewrite bind_run in E. revert E.
  assert (Hdf2 : h2 !! df = Some (Frame frame)).
  { rewrite <- Hdf. apply P2. now rewrite Hdf. }
  generalize (get_vectorizer_outcome h h2 df frame P2 Hdf2).
  destruct (get_vectorizer english df h2) as [[vl|e] h3]; simpl;
    intros [P3 O3] E.
  2:{ injection E as <- <-. split; [assumption|].
      intros frame' filtered docs v [= <-] _. apply O3. }
  destruct O3 as (F3 & Hother & docs & v & Hdocs & Hfit & Lv).
  injection E as <- <-. split; [assumption|].
  assert (Hne : l2 <> vl) by (intros ->; congruence).
  split; [assumption|]. split.
  { destruct (h !! vl) as [o|] eqn:E; [|reflexivity].
    pose proof (P2 vl (mk_is_Some _ _ E)). congruence. }
  split; [assumption|].
  exists frame, frame2, docs, v. split; [reflexivity|].
  split; [unfold filtered_frame; rewrite S1; exact S2|].
  split; [rewrite Hother by assumption; exact L2|].
  now repeat split.
Qed.

Lemma recommendation_page_preserved (argsort : list fval -> list nat) (df : loc)
    (user_skills : string) (s : Settings) (h : heap) :
  preserved h (snd (recommendation_page argsort english df user_skills s h)).
Proof.
  unfold recommendation_page. rewrite bind_run.
  destruct (scoring_inputs english df s h) as [r h1] eqn:E.
  destruct (scoring_inputs_outcome df s h h1 r E) as [P O].
  destruct r as [[fl vl]|e]; [|exact P].
  destruct O as (Ffl & _).
  pose proof (enhanced_recommendations_writes argsort user_skills fl vl
                (weights s) h1) as [Hother _].
  intros l Hl. rewrite Hother.
  - now apply P.
  - intros ->. rewrite Ffl in Hl. now destruct Hl.
Qed.

End PageFacts.

Section PassFacts.

Import Pandas.
Local Open Scope list_scope.

Lemma getitem_length (name : string) (df : DataFrame) (col : list cell) :
  getitem name df = Ok col -> length col = length df.
Proof. apply mapM_result_length. Qed.

Lemma skill_scores_length (v : Sklearn.TfidfVectorizer) (user_skills : string)
    (docs : list cell) (scores : list R) :
  skill_scores v user_skills docs = Ok scores -> length scores = length docs.
Proof.
  intros H. apply skill_scores_inv in H as (texts & -> & ->).
  now rewrite !List.length_map.
Qed.

Lemma normalize_salary_run (df : loc) (h : heap) (frame : DataFrame)
    (smin : list fval) :
  h !! df = Some (Frame frame) ->
  floats "salary_min" frame = Ok smin ->
  normalize_salary df h = (Ok tt, <[df := Frame (with_salary_score frame smin)]> h).
Proof.
  intros Hh Hs. unfold normalize_salary, mbind, M_bind, read_frame, lift, assign.
  now rewrite Hh, Hs, Hh.
Qed.

Lemma enhanced_recommendations_run (argsort : list fval -> list nat)
    (user_skills : string) (df vectorizer : loc) (w : Weights) (h : heap)
    (frame : DataFrame) (v : Sklearn.TfidfVectorizer) (docs : list cell)
    (scores : list R) (smin : list fval) :
  h !! df = Some (Frame frame) ->
  h !! vectorizer = Some (Vectorizer v) ->
  getitem "required_skills" frame = Ok docs ->
  skill_scores v user_skills docs = Ok scores ->
  floats "salary_min" frame = Ok smin ->
  enhanced_recommendations argsort user_skills df vectorizer w h
  = (Ok (take
           (nargsort_desc argsort
              (zip_with (match_score w) (List.map Fin scores) (salary_score smin)))
           (with_match_score (with_salary_score frame smin)
              (zip_with (match_score w) (List.map Fin scores) (salary_score smin)))),
     <[df := Frame
               (with_match_score (with_salary_score frame smin)
                  (zip_with (match_score w) (List.map Fin scores)
                     (salary_score smin)))]> h).
Proof.
  intros Hh Hv Hdocs Hscores Hsmin.
  unfold enhanced_recommendations.
  rewrite bind_run. unfold read_frame at 1. rewrite Hh.
  rewrite bind_run. unfold read_vectorizer. rewrite Hv.
  rewrite bind_run. unfold lift at 1. rewrite Hdocs.
  rewrite bind_run. unfold lift at 1. rewrite Hscores.
  rewrite bind_run, (normalize_salary_run df h frame smin Hh Hsmin).
  assert (Hlen : length (salary_score smin) = length frame).
  { unfold salary_score. rewrite List.length_map. now apply floats_length in Hsmin. }
  rewrite (weighted_rank_run argsort (List.map Fin scores) df w _
             (with_salary_score frame smin) (salary_score smin)).
  - now rewrite insert_insert_eq.
  - apply lookup_insert_eq.
  - apply floats_setitem. exact Hlen.
  - rewrite List.length_map, Hlen.
    rewrite (skill_scores_length _ _ _ _ Hscores).
    now apply getitem_length in Hdocs.
Qed.

Lemma fitted_lengths (english : list string) (corpus : list cell)
    (v : Sklearn.TfidfVectorizer) :
  Sklearn.fit english corpus = Ok v ->
  length (Sklearn.idf_ v) = length (Sklearn.vocabulary_ v).
Proof.
  intros H. apply fit_inv in H as (texts & _ & _ & _ & _ & ->).
  now rewrite List.length_map.
Qed.

Lemma l2_normalize_length (x : list R) :
  length (Sklearn.l2_normalize x) = length x.
Proof.
  unfold Sklearn.l2_normalize. destruct (Req_dec_T _ _); [reflexivity|].
  now rewrite List.length_map.
Qed.

Lemma embed_length (v : Sklearn.TfidfVectorizer) (text : string) :
  length (Sklearn.idf_ v) = length (Sklearn.vocabulary_ v) ->
  length (Sklearn.embed v text) = length (Sklearn.vocabulary_ v).
Proof.
  intros H. unfold Sklearn.embed, Sklearn.tfidf_row.
  rewrite l2_normalize_length, length_zip_with, List.length_map. lia.
Qed.

Lemma scoring_inputs_total (english : list string) (df : loc) (s : Settings)
    (h : heap) (frame filtered : DataFrame) (docs : list cell)
    (v : Sklearn.TfidfVectorizer) :
  h !! df = Some (Frame frame) ->
  filtered_frame s frame = Ok filtered ->
  getitem "required_skills" frame = Ok docs ->
  Sklearn.fit english docs = Ok v ->
  exists (fl vl : loc) (h' : heap),
    scoring_inputs english df s h = (Ok (fl, vl), h') /\
    fl <> vl /\ h !! fl = None /\ h !! vl = None /\ preserved h h' /\
    h' !! fl = Some (Frame filtered) /\
    h' !! vl = Some (Vectorizer v).
Proof.
  intros Hh Hf Hdocs Hfit.
  destruct (scoring_inputs english df s h) as [r h'] eqn:E.
  destruct (scoring_inputs_outcome english df s h h' r E) as [P O].
  destruct r as [[fl vl]|e].
  - destruct O as (F1 & F2 & Hne & frame' & filtered' & docs' & v' & Hh' & Hf'
                   & Lf & Hdocs' & Hfit' & Lv).
    assert (frame' = frame) as -> by congruence.
    assert (filtered' = filtered) as -> by congruence.
    assert (docs' = docs) as -> by congruence.
    assert (v' = v) as -> by congruence.
    exists fl, vl, h'. now repeat split.
  - exfalso. exact (O frame filtered docs v Hh Hf Hdocs Hfit).
Qed.

End PassFacts.

(** ** When a similarity is positive *)

Section PositiveScores.

Import Sklearn.
Local Open Scope list_scope.
Local Open Scope R_scope.

Lemma l2_normalize_scaled (x : list R) :
  exists c : R, 0 < c /\ l2_normalize x = List.map (fun a => a * c) x.
Proof.
  unfold l2_normalize. destruct (Req_dec_T (dot x x) 0) as [H0|Hne].
  - exists 1. split; [lra|]. rewrite <- (map_id x) at 1.
    apply List.map_ext. intros a. lra.
  - assert (Hs : 0 < sqrt (dot x x)).
    { apply sqrt_lt_R0. pose proof (dot_self_nonneg x). lra. }
    exists (/ sqrt (dot x x)). split; [now apply Rinv_0_lt_compat|].
    apply List.map_ext. intros a. unfold Rdiv. lra.
Qed.

Lemma cosine_scaled (x y : list R) :
  exists c : R, 0 < c /\ cosine x y = c * dot x y.
Proof.
  unfold cosine.
  destruct (l2_normalize_scaled x) as (c & Hc & ->).
  destruct (l2_normalize_scaled y) as (d & Hd & ->).
  exists (c * d). split; [now apply Rmult_lt_0_compat|]. rewrite dot_scale. ring.
Qed.

Lemma cosine_embed_scaled (v : TfidfVectorizer) (a b : string) :
  exists c : R,
    0 < c /\
    cosine (embed v a) (embed v b)
    = c * dot (tfidf_row v (analyze (stop_words_ v) a))
            (tfidf_row v (analyze (stop_words_ v) b)).
Proof.
  destruct (cosine_scaled (embed v a) (embed v b)) as (c & Hc & ->).
  unfold embed.
  destruct (l2_normalize_scaled (tfidf_row v (analyze (stop_words_ v) a)))
    as (d & Hd & ->).
  destruct (l2_normalize_scaled (tfidf_row v (analyze (stop_words_ v) b)))
    as (e & He & ->).
  exists (c * (d * e)). split.
  - apply Rmult_lt_0_compat; [assumption | now apply Rmult_lt_0_compat].
  - rewrite dot_scale. ring.
Qed.

Lemma dot_positive (x y : list R) :
  nonnegative x -> nonnegative y ->
  (0 < dot x y <->
   exists (i : nat) (a b : R), x !! i = Some a /\ y !! i = Some b /\ 0 < a /\ 0 < b).
Proof.
  intros Hx. revert y. induction Hx as [|a x Ha Hx IH]; intros y Hy.
  - rewrite dot_nil_l. split; [lra|]. intros (i & a & b & H & _). discriminate.
  - destruct Hy as [|b y Hb Hy].
    + rewrite dot_nil_r. split; [lra|]. intros (i & a' & b' & _ & H & _).
      discriminate.
    + rewrite dot_cons. pose proof (dot_nonneg x y Hx Hy) as Hd. split.
      * intros H.
        destruct (Rlt_dec 0 (a * b)) as [Hab|Hab].
        -- exists 0%nat, a, b. repeat split; try reflexivity; nra.
        -- assert (Hp : 0 < dot x y) by nra.
           apply IH in Hp as (i & a' & b' & H1 & H2 & H3 & H4); [|assumption].
           now exists (S i), a', b'.
      * intros ([|i] & a' & b' & H1 & H2 & H3 & H4); simpl in H1, H2.
        -- injection H1 as <-. injection H2 as <-. nra.
        -- assert (0 < dot x y) by (apply IH; [assumption | now exists i, a', b']).
           nra.
Qed.

Lemma term_count_positive (t : string) (doc : list string) :
  (0 < term_count t doc)%nat <-> In t doc.
Proof.
  split.
  - intros H. destruct (in_dec string_dec t doc) as [Hin|Hout]; [assumption|].
    rewrite term_count_absent in H by assumption. lia.
  - unfold term_count. induction doc as [|u doc IH]; intros H; [destruct H|].
    simpl. destruct (String.eqb t u) eqn:E; simpl; [lia|].
    destruct H as [->|H]; [|now apply IH].
    rewrite String.eqb_refl in E. discriminate.
Qed.

Lemma tfidf_row_positive (v : TfidfVectorizer) (doc : list string) (i : nat) :
  Forall (fun x => 1 <= x) (idf_ v) ->
  length (idf_ v) = length (vocabulary_ v) ->
  ((exists a, tfidf_row v doc !! i = Some a /\ 0 < a) <->
   exists t, vocabulary_ v !! i = Some t /\ In t doc).
Proof.
  intros Hidf Hlen. unfold tfidf_row.
  rewrite lookup_zip_with, list_lookup_fmap.
  destruct (vocabulary_ v !! i) as [t|] eqn:Et; simpl.
  - destruct (idf_ v !! i) as [w|] eqn:Ew; simpl.
    + assert (Hw : 1 <= w).
      { rewrite List.Forall_forall in Hidf. apply Hidf.
        apply list_elem_of_In. eapply list_elem_of_lookup_2. exact Ew. }
      split.
      * intros (a & [= <-] & Ha). exists t. split; [reflexivity|].
        apply term_count_positive.
        destruct (term_count t doc); [simpl in Ha; lra | lia].
      * intros (t' & [= <-] & Hin). eexists. split; [reflexivity|].
        apply term_count_positive in Hin. apply lt_INR in Hin. simpl in Hin. nra.
    + exfalso. apply lookup_lt_Some in Et. apply lookup_ge_None in Ew. lia.
  - split; [intros (a & H & _) | intros (t & H & _)]; discriminate.
Qed.

(** in a fitted space a similarity is positive exactly when the two texts
    share a term of the vocabulary *)
Lemma shared_term_positive (english : list string) (corpus : list cell)
    (v : TfidfVectorizer) (a b : string) :
  fit english corpus = Ok v ->
  (0 < cosine (embed v a) (embed v b) <-> exists t : string, shared_term v a b t).
Proof.
  intros Hfit.
  pose proof (fitted_idf_nonneg _ _ _ Hfit) as Hnn.
  pose proof (fitted_lengths _ _ _ Hfit) as Hlen.
  assert (Hidf : Forall (fun x => 1 <= x) (idf_ v)).
  { apply fit_inv in Hfit as (texts & _ & _ & _ & _ & ->).
    apply List.Forall_map, List.Forall_forall. intros t _. apply idf_ge_1. }
  destruct (cosine_embed_scaled v a b) as (c & Hc & E).
  set (ra := tfidf_row v (analyze (stop_words_ v) a)) in *.
  set (rb := tfidf_row v (analyze (stop_words_ v) b)) in *.
  assert (Ha : nonnegative ra) by now apply tfidf_row_nonneg.
  assert (Hb : nonnegative rb) by now apply tfidf_row_nonneg.
  assert (Hiff : 0 < dot ra rb <-> exists t, shared_term v a b t).
  { rewrite (dot_positive ra rb Ha Hb). split.
    - intros (i & x & y & H1 & H2 & Hx & Hy).
      destruct (proj1 (tfidf_row_positive v _ i Hidf Hlen)
                  (ex_intro _ x (conj H1 Hx))) as (t & Ht & Hin1).
      destruct (proj1 (tfidf_row_positive v _ i Hidf Hlen)
                  (ex_intro _ y (conj H2 Hy))) as (t' & Ht' & Hin2).
      assert (t' = t) as -> by congruence.
      exists t. repeat split; try assumption.
      apply list_elem_of_In. eapply list_elem_of_lookup_2. exact Ht.
    - intros (t & Hv & Hin1 & Hin2).
      apply list_elem_of_In, list_elem_of_lookup in Hv as [i Hi].
      destruct (proj2 (tfidf_row_positive v _ i Hidf Hlen)
                  (ex_intro _ t (conj Hi Hin1))) as (x & H1 & Hx).
      destruct (proj2 (tfidf_row_positive v _ i Hidf Hlen)
                  (ex_intro _ t (conj Hi Hin2))) as (y & H2 & Hy).
      now exists i, x, y. }
  rewrite E, <- Hiff. split; intros H.
  - apply Rmult_lt_reg_l with (r := c); [assumption|]. lra.
  - now apply Rmult_lt_0_compat.
Qed.

(** and is 0 otherwise *)
Lemma no_shared_term_zero (english : list string) (corpus : list cell)
    (v : TfidfVectorizer) (a b : string) :
  fit english corpus = Ok v ->
  (forall t : string, ~ shared_term v a b t) ->
  cosine (embed v a) (embed v b) = 0.
Proof.
  intros Hfit Hnone.
  pose proof (fitted_idf_nonneg _ _ _ Hfit) as Hnn.
  assert (Hge : 0 <= cosine (embed v a) (embed v b))
    by (apply cosine_nonneg; now apply embed_nonneg).
  destruct (Rle_lt_or_eq_dec _ _ Hge) as [Hpos|Hzero]; [|now symmetry].
  apply (shared_term_positive english corpus v a b Hfit) in Hpos as [t Ht].
  exfalso. exact (Hnone t Ht).
Qed.

End PositiveScores.

(** * Main theorems *)

(** C1, as the code has it.  [load_data] drops the rows whose skills or
    salary text is null and keeps every other row, adding the two parsed
    salary columns.  A row whose salary text is present but holds no digit is
    kept with a null [salary_min]; the normalisation receives that null and
    gives the row the salary score [nan]. *)
Theorem load_data_keeps_unparseable (fetched : DataFrame) :
  Forall present fetched ->
  load_data fetched = List.map with_salary (List.filter complete fetched) /\
  floats "salary_min" (load_data fetched)
  = Ok (List.map (fun r => salary_float (fst (parse_salary (range_of r))))
          (List.filter complete fetched)) /\
  (forall r : Row,
      In r fetched -> complete r = true ->
      parse_salary (range_of r) = (None, None) ->
      In (with_salary r) (load_data fetched) /\
      fields (with_salary r) !! "salary_min" = Some Null) /\
  (forall r : Row,
      In r (load_data fetched) ->
      exists r0, In r0 fetched /\ complete r0 = true /\ r = with_salary r0) /\
  (forall (salary_min : list fval) (i : nat),
      floats "salary_min" (load_data fetched) = Ok salary_min ->
      salary_min !! i = Some NaN ->
      salary_score salary_min !! i = Some NaN).
Proof.
  intros H.
  assert (Hf : Forall present (List.filter complete fetched)).
  { rewrite List.Forall_forall in *. intros r Hr.
    apply List.filter_In in Hr. now apply H. }
  rewrite load_data_closed_form by assumption.
  split; [reflexivity|].
  split; [now apply floats_salary_min|].
  split; [|split].
  - intros r Hr Hc Hp. split.
    + apply List.in_map, List.filter_In. now split.
    + rewrite List.Forall_forall in H.
      rewrite with_salary_min by (now apply H). now rewrite Hp.
  - intros r Hr. apply List.in_map_iff in Hr as (r0 & <- & Hr0).
    apply List.filter_In in Hr0 as [Hin Hc]. now exists r0.
  - intros salary_min i _. apply salary_score_null.
Qed.

Lemma sample_jobs_present : Forall present sample_jobs.
Proof. repeat constructor; eexists; reflexivity. Qed.

Lemma load_data_keeps_unparseable_witness :
  Forall present sample_jobs /\
  load_data sample_jobs = List.map with_salary (List.filter complete sample_jobs).
Proof.
  split; [exact sample_jobs_present|].
  exact (proj1 (load_data_keeps_unparseable sample_jobs sample_jobs_present)).
Defined.

(** C1, as the specification has it, fails: the second sample job has the
    salary text "Competitive", which holds no digit; it is loaded, its
    [salary_min] is null, no filter of the page removes it, and the
    normalisation of a pass receives that null. *)
Lemma unparseable_salary_is_scored :
  parse_salary (Str "Competitive") = (None, None) /\
  (exists r : Row,
      In r (load_data sample_jobs) /\
      label r = 1%nat /\
      fields r !! "salary_range" = Some (Str "Competitive") /\
      fields r !! "salary_min" = Some Null) /\
  filtered_frame all_settings (load_data sample_jobs) = Ok (load_data sample_jobs) /\
  floats "salary_min" (load_data sample_jobs)
  = Ok [of_int 40000; NaN; of_int 50000] /\
  normalize_salary 0%nat loaded_heap
  = (Ok tt,
     <[0%nat := Frame (with_salary_score loaded_jobs
                         [of_int 40000; NaN; of_int 50000])]> loaded_heap) /\
  salary_score [of_int 40000; NaN; of_int 50000] !! 1%nat = Some NaN.
Proof.
  split; [reflexivity|].
  split.
  { rewrite (load_data_closed_form _ sample_jobs_present).
    eexists. split; [right; left; reflexivity|].
    repeat split; reflexivity. }
  split; [reflexivity|]. split; [reflexivity|].
  split; [|reflexivity].
  now apply normalize_salary_run.
Qed.

(** C2, as the code has it.  When the largest and the smallest salary
    minimum of a column coincide (all values equal, one value, or no value at
    all), the normalisation divides zero by zero and every salary score is
    [nan]; no exception is raised and no constant is substituted. *)
Theorem salary_score_equal_extremes (xs : list (option Z)) :
  nanmax (List.map salary_float xs) = nanmin (List.map salary_float xs) ->
  salary_score (List.map salary_float xs) = List.map (fun _ => NaN) xs /\
  Forall (fun s => isnan s = true) (salary_score (List.map salary_float xs)).
Proof.
  intros H. rewrite (salary_score_degenerate xs H). split; [reflexivity|].
  apply List.Forall_forall. intros s Hs.
  apply List.in_map_iff in Hs as (_ & <- & _). reflexivity.
Qed.

Lemma equal_extremes_sample :
  nanmax (List.map salary_float [Some 50000%Z; Some 50000%Z])
  = nanmin (List.map salary_float [Some 50000%Z; Some 50000%Z]).
Proof.
  unfold nanmax, nanmin. simpl. unfold fmax2, fmin2.
  destruct (fle_dec _ _); reflexivity.
Qed.

Lemma salary_score_equal_extremes_witness :
  nanmax (List.map salary_float [Some 50000%Z; Some 50000%Z])
  = nanmin (List.map salary_float [Some 50000%Z; Some 50000%Z]) /\
  salary_score (List.map salary_float [Some 50000%Z; Some 50000%Z]) = [NaN; NaN].
Proof.
  split; [exact equal_extremes_sample|].
  exact (proj1 (salary_score_equal_extremes _ equal_extremes_sample)).
Defined.

(** C2, as the specification has it, fails: two equal salary minimums, and a
    single one, are mapped to [nan], not to one half. *)
Lemma equal_salaries_score_nan :
  salary_score [of_int 50000; of_int 50000] = [NaN; NaN] /\
  salary_score [of_int 50000; of_int 50000] <> [Fin (1 / 2); Fin (1 / 2)] /\
  salary_score [of_int 50000] = [NaN] /\
  salary_score [of_int 50000] <> [Fin (1 / 2)].
Proof.
  assert (H2 : salary_score [of_int 50000; of_int 50000] = [NaN; NaN])
    by exact (salary_score_degenerate [Some 50000%Z; Some 50000%Z]
                equal_extremes_sample).
  assert (H1 : salary_score [of_int 50000] = [NaN])
    by exact (salary_score_degenerate [Some 50000%Z] eq_refl).
  rewrite H2, H1. repeat split; discriminate.
Qed.

(** The order of ties.  The ranking returns the rows in descending order of
    match score, null scores last, as a reordering of the frame by an
    indexer.  Which of two rows with equal scores comes first is decided by
    the sort that [sort_values] runs for its default kind, of which only a
    sorted result is known: the original order of ties is kept whenever that
    sort is a stable one. *)
Theorem weighted_rank_tie_order (argsort : list fval -> list nat)
    (scores : list fval) (df : loc) (w : Weights) (h : heap)
    (frame : DataFrame) (sal : list fval) :
  sorts argsort ->
  h !! df = Some (Frame frame) ->
  floats "salary_score" frame = Ok sal ->
  length scores = length sal ->
  let ms := zip_with (match_score w) scores sal in
  let frame' := with_match_score frame ms in
  exists indexer : list nat,
    weighted_rank argsort scores df w h
    = (Ok (Pandas.take indexer frame'), <[df := Frame frame']> h) /\
    Permutation indexer (seq 0 (length frame')) /\
    floats "match_score" (Pandas.take indexer frame') = Ok (Pandas.take indexer ms) /\
    StronglySorted ranks_before (Pandas.take indexer ms) /\
    (stable argsort -> keeps_ties ms indexer).
Proof.
  intros Hsorts Hh Hsal Hlen ms frame'.
  pose proof (match_scores_length w scores sal frame Hsal Hlen) as Hms.
  exists (Pandas.nargsort_desc argsort ms).
  split; [now apply weighted_rank_run|].
  split.
  { unfold frame', with_match_score.
    rewrite setitem_length by now rewrite List.length_map.
    rewrite <- Hms. now apply nargsort_desc_permutation. }
  split; [apply floats_take; now apply floats_setitem|].
  split; [now apply nargsort_desc_sorted|].
  now apply nargsort_desc_ties.
Qed.

Lemma weighted_rank_tie_order_witness :
  sorts Argsort.keeping_ties /\
  stable Argsort.keeping_ties /\
  exists indexer : list nat,
    weighted_rank Argsort.keeping_ties [Fin 0; Fin 0] 0%nat unit_weights tied_heap
    = (Ok (Pandas.take indexer
             (with_match_score tied_rows
                (zip_with (match_score unit_weights) [Fin 0; Fin 0] [Fin 1; Fin 1]))),
       <[0%nat := Frame
                    (with_match_score tied_rows
                       (zip_with (match_score unit_weights) [Fin 0; Fin 0]
                          [Fin 1; Fin 1]))]> tied_heap) /\
    keeps_ties (zip_with (match_score unit_weights) [Fin 0; Fin 0] [Fin 1; Fin 1])
      indexer.
Proof.
  split; [exact keeping_ties_sorts|]. split; [exact keeping_ties_stable|].
  destruct (weighted_rank_tie_order Argsort.keeping_ties
              [Fin 0; Fin 0] 0%nat unit_weights tied_heap tied_rows
              [Fin 1; Fin 1] keeping_ties_sorts eq_refl eq_refl eq_refl)
    as (indexer & Hrun & _ & _ & _ & Hties).
  exists indexer. split; [exact Hrun | exact (Hties keeping_ties_stable)].
Defined.

(** The contract of the sort does not decide the order of ties by itself: a
    sort that meets it, though not the one of the library, ranks the second
    of two rows with equal match scores before the first. *)
Lemma ties_reordered_by_conforming_sort :
  sorts Argsort.reversing_ties /\
  exists (out : DataFrame) (h' : heap) (k : fval),
    weighted_rank Argsort.reversing_ties [Fin 0; Fin 0] 0%nat unit_weights tied_heap
    = (Ok out, h') /\
    floats "match_score" out = Ok [k; k] /\
    List.map label tied_rows = [0; 1]%nat /\
    List.map label out = [1; 0]%nat /\
    ~ keeps_ties [k; k] (Pandas.nargsort_desc Argsort.reversing_ties [k; k]).
Proof.
  split; [exact reversing_ties_sorts|].
  eexists. eexists. exists (match_score unit_weights (Fin 0) (Fin 1)).
  split.
  { rewrite (weighted_rank_run Argsort.reversing_ties [Fin 0; Fin 0] 0%nat
               unit_weights tied_heap tied_rows [Fin 1; Fin 1]
               eq_refl eq_refl eq_refl).
    simpl zip_with.
    rewrite (nargsort_reversing_ties_pair
               (match_score unit_weights (Fin 0) (Fin 1)) eq_refl).
    reflexivity. }
  split; [reflexivity|]. split; [reflexivity|]. split; [reflexivity|].
  rewrite (nargsort_reversing_ties_pair
             (match_score unit_weights (Fin 0) (Fin 1)) eq_refl).
  intros H. apply StronglySorted_inv in H as [_ H].
  apply Forall_inv in H.
  specialize (H _ eq_refl eq_refl). lia.
Qed.

(** C4, as the code has it.  The vectorizer of a scoring pass is the one
    fitted on the skill texts of the whole loaded frame, before the location
    and experience filters; it is that vectorizer which is applied to the
    filtered rows and to the query.  Embedding a text gives one entry per
    fitted term, and the pass leaves the vectorizer object as it was. *)
Theorem scoring_pass_vectorizer (english : list string) (df : loc) (s : Settings)
    (h : heap) (frame filtered : DataFrame) (docs : list cell)
    (v : Sklearn.TfidfVectorizer) :
  h !! df = Some (Frame frame) ->
  filtered_frame s frame = Ok filtered ->
  Pandas.getitem "required_skills" frame = Ok docs ->
  Sklearn.fit english docs = Ok v ->
  exists (fl vl : loc) (h' : heap),
    scoring_inputs english df s h = (Ok (fl, vl), h') /\
    h' !! fl = Some (Frame filtered) /\
    h' !! vl = Some (Vectorizer v) /\
    (forall text : string,
        length (Sklearn.embed v text) = length (Sklearn.vocabulary_ v)) /\
    (forall (argsort : list fval -> list nat) (user_skills : string) (w : Weights),
        snd (enhanced_recommendations argsort user_skills fl vl w h') !! vl
        = Some (Vectorizer v)).
Proof.
  intros Hh Hf Hdocs Hfit.
  destruct (scoring_inputs_total english df s h frame filtered docs v
              Hh Hf Hdocs Hfit)
    as (fl & vl & h' & Hrun & Hne & _ & _ & _ & Lf & Lv).
  exists fl, vl, h'. split; [assumption|]. split; [assumption|].
  split; [assumption|]. split.
  - intros text. apply embed_length. eapply fitted_lengths, Hfit.
  - intros argsort user_skills w.
    destruct (enhanced_recommendations_writes argsort user_skills fl vl w h')
      as [Hother _].
    rewrite Hother; [assumption | congruence].
Qed.

Lemma scoring_pass_vectorizer_witness :
  exists (filtered : DataFrame) (docs : list cell) (v : Sklearn.TfidfVectorizer),
    loaded_heap !! 0%nat = Some (Frame loaded_jobs) /\
    filtered_frame london_settings loaded_jobs = Ok filtered /\
    Pandas.getitem "required_skills" loaded_jobs = Ok docs /\
    Sklearn.fit sample_stop_words docs = Ok v /\
    exists (fl vl : loc) (h' : heap),
      scoring_inputs sample_stop_words 0%nat london_settings loaded_heap
      = (Ok (fl, vl), h') /\
      h' !! vl = Some (Vectorizer v).
Proof.
  eexists. eexists. eexists.
  split; [reflexivity|]. split; [reflexivity|]. split; [reflexivity|].
  split; [reflexivity|].
  match goal with
  | |- context [Vectorizer ?v] =>
      destruct (scoring_pass_vectorizer sample_stop_words 0%nat london_settings
                  loaded_heap loaded_jobs _ _ v
                  eq_refl eq_refl eq_refl eq_refl)
        as (fl & vl & h' & Hrun & _ & Lv & _)
  end.
  exists fl, vl, h'. split; [exact Hrun | exact Lv].
Defined.

(** C4, as the specification has it, fails: with the location filter set to
    London the filtered corpus has two of the three sample documents, yet the
    vectorizer of the pass has the vocabulary of all three, which the
    vectorizer fitted on the filtered corpus has not. *)
Lemma vectorizer_fitted_before_filtering :
  exists (fl vl : loc) (h' : heap) (filtered : DataFrame)
         (v v' : Sklearn.TfidfVectorizer),
    scoring_inputs sample_stop_words 0%nat london_settings loaded_heap
    = (Ok (fl, vl), h') /\
    h' !! fl = Some (Frame filtered) /\
    h' !! vl = Some (Vectorizer v) /\
    Pandas.getitem "required_skills" filtered
    = Ok [Str "python, sql"; Str "python, pandas"] /\
    Pandas.getitem "required_skills" loaded_jobs
    = Ok [Str "python, sql"; Str "java, spring"; Str "python, pandas"] /\
    Sklearn.fit sample_stop_words [Str "python, sql"; Str "python, pandas"] = Ok v' /\
    Sklearn.vocabulary_ v = ["java"; "pandas"; "python"; "spring"; "sql"] /\
    Sklearn.vocabulary_ v' = ["pandas"; "python"; "sql"] /\
    v <> v'.
Proof.
  destruct (scoring_inputs_total sample_stop_words 0%nat london_settings
              loaded_heap loaded_jobs _ _ _ eq_refl eq_refl eq_refl eq_refl)
    as (fl & vl & h' & Hrun & _ & _ & _ & _ & Lf & Lv).
  do 6 eexists.
  split; [exact Hrun|]. split; [exact Lf|]. split; [exact Lv|].
  split; [reflexivity|]. split; [reflexivity|]. split; [reflexivity|].
  split; [reflexivity|]. split; [reflexivity|].
  intros H. apply (f_equal Sklearn.vocabulary_) in H. discriminate H.
Qed.



(** C6.  On a frame that holds a salary score for every row, with one skill
    score per row, the ranking returns: it writes the match score
    [skills * skill_score + salary * salary_score] of every row into the
    frame and returns the rows of that frame, each once, in non-increasing
    order of match score with the null scores last; run again on what it
    left, it returns the same rows in the same order and leaves the same
    heap. *)
Theorem weighted_rank_sorted_permutation (argsort : list fval -> list nat)
    (scores : list fval) (df : loc) (w : Weights) (h : heap)
    (frame : DataFrame) (sal : list fval) :
  sorts argsort ->
  h !! df = Some (Frame frame) ->
  floats "salary_score" frame = Ok sal ->
  length scores = length sal ->
  let ms := zip_with (match_score w) scores sal in
  let frame' := with_match_score frame ms in
  let h' := <[df := Frame frame']> h in
  exists out : DataFrame,
    weighted_rank argsort scores df w h = (Ok out, h') /\
    scored frame frame' /\
    floats "match_score" frame' = Ok ms /\
    (forall (i : nat) (s l : fval),
        scores !! i = Some s -> sal !! i = Some l ->
        ms !! i = Some (fadd (fmul (skills w) s) (fmul (salary w) l))) /\
    Permutation out frame' /\
    (exists keys : list fval,
        floats "match_score" out = Ok keys /\
        StronglySorted ranks_before keys /\
        (Forall (fun x => isnan x = false) ms -> descending keys) /\
        (finite (skills w) -> finite (salary w) ->
         Forall finite scores -> Forall finite sal -> descending keys)) /\
    weighted_rank argsort scores df w h' = (Ok out, h').
Proof.
  intros Hsorts Hh Hsal Hlen ms frame' h'.
  pose proof (match_scores_length w scores sal frame Hsal Hlen) as Hms.
  assert (Hlen' : length (List.map Float ms) = length frame)
    by now rewrite List.length_map.
  assert (Hkeys : floats "match_score" frame' = Ok ms)
    by now apply floats_setitem.
  eexists. split; [now apply weighted_rank_run|].
  split; [apply scored_setitem; [now right | assumption]|].
  split; [assumption|].
  split.
  { intros i s l Hs Hl. subst ms. rewrite lookup_zip_with, Hs. simpl.
    now rewrite Hl. }
  split.
  { apply take_permutation. unfold frame'. unfold with_match_score.
    rewrite setitem_length by assumption. rewrite <- Hms.
    now apply nargsort_desc_permutation. }
  split.
  { exists (Pandas.take (Pandas.nargsort_desc argsort ms) ms).
    split; [now apply floats_take|].
    split; [now apply nargsort_desc_sorted|].
    assert (Hdesc : Forall (fun x => isnan x = false) ms ->
                    descending (Pandas.take (Pandas.nargsort_desc argsort ms) ms)).
    { intros Hfin. apply ranks_before_finite; [|now apply nargsort_desc_sorted].
      apply List.Forall_forall. intros x Hx. apply take_subset in Hx.
      rewrite List.Forall_forall in Hfin. now apply Hfin. }
    split; [exact Hdesc|].
    intros Hs Hl Hscores Hfsal. apply Hdesc.
    now apply match_scores_finite. }
  assert (Hh' : h' !! df = Some (Frame frame')) by apply lookup_insert_eq.
  assert (Hsal' : floats "salary_score" frame' = Ok sal).
  { apply floats_setitem_other; [discriminate | assumption..]. }
  rewrite (weighted_rank_run argsort scores df w h' frame' sal Hh' Hsal' Hlen).
  fold ms. unfold with_match_score at 1 3. unfold frame' at 1 2.
  unfold with_match_score. rewrite setitem_twice.
  fold (with_match_score frame ms). fold frame'.
  unfold h'. now rewrite insert_insert_eq.
Qed.

Lemma weighted_rank_sorted_permutation_witness :
  sorts Argsort.keeping_ties /\
  tied_heap !! 0%nat = Some (Frame tied_rows) /\
  floats "salary_score" tied_rows = Ok [Fin 1; Fin 1] /\
  exists out : DataFrame,
    Permutation out
      (with_match_score tied_rows
         (zip_with (match_score unit_weights) [Fin 0; Fin 0] [Fin 1; Fin 1])).
Proof.
  split; [exact keeping_ties_sorts|].
  split; [reflexivity|]. split; [reflexivity|].
  destruct (weighted_rank_sorted_permutation Argsort.keeping_ties
              [Fin 0; Fin 0] 0%nat unit_weights tied_heap tied_rows
              [Fin 1; Fin 1] keeping_ties_sorts eq_refl eq_refl eq_refl)
    as (out & _ & _ & _ & _ & Hperm & _).
  exists out. exact Hperm.
Defined.

(** C7, as the code has it.  In a fitted space the similarity of a query to
    a sequence of skill texts that is not empty is computed: there is one
    score per text, in the order of the texts, no score is negative, and a
    score is 0 whenever the row of the query or the row of the text is the
    row of zeros, as it is for a text without any term of the vocabulary and
    for the empty text.  No step divides by a zero norm. *)
Theorem skill_scores_safe (english : list string) (corpus : list cell)
    (v : Sklearn.TfidfVectorizer) (user_skills : string) (texts : list string) :
  Sklearn.fit english corpus = Ok v ->
  texts <> [] ->
  exists scores : list R,
    skill_scores v user_skills (List.map Str texts) = Ok scores /\
    length scores = length texts /\
    (forall (i : nat) (d : string),
        texts !! i = Some d ->
        scores !! i
        = Some (Sklearn.cosine (Sklearn.embed v user_skills) (Sklearn.embed v d))) /\
    Forall (fun s => (0 <= s)%R) scores /\
    (zero_vector (Sklearn.embed v user_skills) ->
     Forall (fun s => s = 0%R) scores) /\
    (forall (i : nat) (d : string),
        texts !! i = Some d -> zero_vector (Sklearn.embed v d) ->
        scores !! i = Some 0%R) /\
    (forall text : string,
        (forall t, In t (Sklearn.analyze (Sklearn.stop_words_ v) text) ->
                   ~ In t (Sklearn.vocabulary_ v)) ->
        zero_vector (Sklearn.embed v text)) /\
    zero_vector (Sklearn.embed v EmptyString).
Proof.
  intros Hfit Hne. pose proof (fitted_idf_nonneg _ _ _ Hfit) as Hidf.
  eexists. split; [now apply skill_scores_texts|].
  split; [apply List.length_map|].
  assert (Hat : forall (i : nat) (d : string),
             texts !! i = Some d ->
             List.map (fun d => Sklearn.cosine (Sklearn.embed v user_skills)
                                  (Sklearn.embed v d)) texts !! i
             = Some (Sklearn.cosine (Sklearn.embed v user_skills)
                       (Sklearn.embed v d))).
  { intros i d Hd.
    change (List.map ?f texts) with (f <$> texts).
    now rewrite list_lookup_fmap, Hd. }
  split; [exact Hat|].
  split; [|split; [|split; [|split]]].
  - rewrite List.Forall_map. apply List.Forall_forall. intros d _.
    apply cosine_nonneg; now apply embed_nonneg.
  - intros Hz. rewrite List.Forall_map. apply List.Forall_forall.
    intros d _. now apply cosine_zero_l.
  - intros i d Hd Hz. rewrite (Hat i d Hd). f_equal. now apply cosine_zero_r.
  - apply embed_out_of_vocabulary.
  - apply embed_empty_text.
Qed.

Lemma skill_scores_safe_witness :
  exists v : Sklearn.TfidfVectorizer,
    Sklearn.fit sample_stop_words sample_corpus = Ok v /\
    exists scores : list R,
      skill_scores v "rust" sample_corpus = Ok scores /\
      length scores = 3%nat.
Proof.
  eexists. split; [reflexivity|].
  match goal with
  | |- context [skill_scores ?v _ _] =>
      destruct (skill_scores_safe sample_stop_words sample_corpus v "rust"
                  ["python, sql"; "java, spring"; "python, pandas"] eq_refl)
        as (scores & H1 & H2 & _)
  end.
  - discriminate.
  - exists scores. split; [exact H1 | exact H2].
Defined.

(** the weights of a table in which every term occurs in every document *)
Lemma idf_of_common_term (docs : list (list string)) (t : string) :
  Sklearn.document_frequency t docs = length docs -> Sklearn.idf docs t = 1%R.
Proof.
  intros H. unfold Sklearn.idf. rewrite H.
  replace ((1 + INR (length docs)) / (1 + INR (length docs)))%R with 1%R.
  - rewrite ln_1. ring.
  - field. pose proof (pos_INR (length docs)). lra.
Qed.

(** C7, as the specification has it, fails.  In the table that holds the one
    skills text of three terms every weight is 1; for the query with that
    same text the binary64 similarity of the text is 1.0000000000000002,
    above 1.  And for a query against no text at all the first [transform]
    raises, so that there is no score per document to speak of. *)
Lemma skill_score_above_one :
  (exists v : Sklearn.TfidfVectorizer,
      Sklearn.fit sample_stop_words three_skills_corpus = Ok v /\
      Sklearn.vocabulary_ v = ["java"; "python"; "sql"] /\
      Sklearn.idf_ v = [1; 1; 1]%R /\
      skill_scores v three_skills [] = Raise ValueError) /\
  (exists s : PrimFloat.float,
      Binary64.skill_scores ["java"; "python"; "sql"]
        [Binary64.one; Binary64.one; Binary64.one] sample_stop_words
        three_skills [three_skills] = [s] /\
      Binary64.less Binary64.one s = true).
Proof.
  split.
  - assert (Hv : Sklearn.build_vocabulary
                   [Sklearn.analyze sample_stop_words three_skills]
                 = ["java"; "python"; "sql"]) by (vm_compute; reflexivity).
    exists {| Sklearn.stop_words_ := sample_stop_words;
              Sklearn.vocabulary_ := ["java"; "python"; "sql"];
              Sklearn.idf_ := [1; 1; 1]%R |}.
    split; [|repeat split].
    unfold Sklearn.fit, three_skills_corpus.
    cbn [mapM_result as_text mbind result_bind List.map]. rewrite Hv.
    f_equal. f_equal. cbn [List.map].
    rewrite !idf_of_common_term by reflexivity. reflexivity.
  - eexists. split; vm_compute; reflexivity.
Qed.

(** C8, as the code has it.  When the query is the skills text of one of the
    documents, the score of that document is the similarity of its row with
    itself: it is not negative; it is positive exactly when the text has a
    term of the vocabulary, and when it is 0 so is every score; and no
    document that shares no term with the text scores higher, as such a
    document scores 0.  How it compares with a document that shares terms
    with it is a matter of rounding, of which nothing is claimed. *)
Theorem identical_query_scores_highest (english : list string)
    (corpus : list cell) (v : Sklearn.TfidfVectorizer)
    (docs : list cell) (i : nat) (d : string) (scores : list R) :
  Sklearn.fit english corpus = Ok v ->
  docs !! i = Some (Str d) ->
  skill_scores v d docs = Ok scores ->
  exists si : R,
    scores !! i = Some si /\
    si = Sklearn.cosine (Sklearn.embed v d) (Sklearn.embed v d) /\
    (0 <= si)%R /\
    ((0 < si)%R <-> exists t : string, shared_term v d d t) /\
    (si = 0%R -> Forall (fun s => s = 0%R) scores) /\
    (forall (j : nat) (dj : string) (sj : R),
        docs !! j = Some (Str dj) -> scores !! j = Some sj ->
        (forall t : string, ~ shared_term v d dj t) ->
        sj = 0%R /\ (sj <= si)%R).
Proof.
  intros Hfit Hd Hs. apply skill_scores_inv in Hs as (texts & -> & ->).
  pose proof (fitted_idf_nonneg _ _ _ Hfit) as Hidf.
  assert (Hat : forall (j : nat) (dj : string),
             List.map Str texts !! j = Some (Str dj) -> texts !! j = Some dj).
  { intros j dj H. change (List.map Str texts) with (Str <$> texts) in H.
    rewrite list_lookup_fmap in H.
    destruct (texts !! j) as [d'|]; [|discriminate]. now injection H as ->. }
  assert (Hscore : forall (j : nat) (dj : string),
             texts !! j = Some dj ->
             List.map (fun d0 => Sklearn.cosine (Sklearn.embed v d)
                                   (Sklearn.embed v d0)) texts !! j
             = Some (Sklearn.cosine (Sklearn.embed v d) (Sklearn.embed v dj))).
  { intros j dj H. change (List.map ?f texts) with (f <$> texts).
    now rewrite list_lookup_fmap, H. }
  assert (Hge : (0 <= Sklearn.cosine (Sklearn.embed v d) (Sklearn.embed v d))%R)
    by (apply cosine_nonneg; now apply embed_nonneg).
  exists (Sklearn.cosine (Sklearn.embed v d) (Sklearn.embed v d)).
  split; [apply Hscore, Hat, Hd|]. split; [reflexivity|]. split; [exact Hge|].
  split; [now apply (shared_term_positive english corpus)|]. split.
  - intros Hz. unfold Sklearn.cosine in Hz.
    apply dot_self_zero in Hz. apply (proj1 (l2_normalize_zero_iff _)) in Hz.
    rewrite List.Forall_map. apply List.Forall_forall. intros dj _.
    now apply cosine_zero_l.
  - intros j dj sj Hj Hsj Hnone. apply Hat in Hj.
    rewrite (Hscore j dj Hj) in Hsj. injection Hsj as <-.
    rewrite (no_shared_term_zero english corpus v d dj Hfit Hnone).
    split; [reflexivity | exact Hge].
Qed.

Lemma identical_query_scores_highest_witness :
  exists (v : Sklearn.TfidfVectorizer) (scores : list R),
    Sklearn.fit sample_stop_words sample_corpus = Ok v /\
    sample_corpus !! 2%nat = Some (Str "python, pandas") /\
    skill_scores v "python, pandas" sample_corpus = Ok scores /\
    exists si : R, scores !! 2%nat = Some si /\ (0 <= si)%R.
Proof.
  eexists. eexists. split; [reflexivity|].
  split; [reflexivity|]. split; [reflexivity|].
  match goal with
  | |- exists si, ?scores !! _ = _ /\ _ =>
      destruct (identical_query_scores_highest sample_stop_words sample_corpus _
                  sample_corpus 2%nat "python, pandas" scores
                  eq_refl eq_refl eq_refl)
        as (si & H1 & _ & H2 & _)
  end.
  exists si. split; [exact H1 | exact H2].
Defined.

(** C8, as the specification has it, fails.  In the table of the two graded
    skills texts every term occurs in both documents, so that every weight is
    1 and the rows of the two documents are proportional.  For the query
    with the text of the first document the binary64 scores are 1 for that
    document and 1.0000000000000002 for the second: the document whose text
    is the query is not the one with the highest score. *)
Lemma proportional_document_scores_higher :
  (exists v : Sklearn.TfidfVectorizer,
      Sklearn.fit sample_stop_words graded_corpus = Ok v /\
      Sklearn.vocabulary_ v = ["java"; "python"; "sql"] /\
      Sklearn.idf_ v = [1; 1; 1]%R /\
      graded_corpus !! 0%nat = Some (Str graded_skills)) /\
  (exists own other : PrimFloat.float,
      Binary64.skill_scores ["java"; "python"; "sql"]
        [Binary64.one; Binary64.one; Binary64.one] sample_stop_words
        graded_skills [graded_skills; graded_skills_fivefold] = [own; other] /\
      own = Binary64.one /\
      Binary64.less own other = true).
Proof.
  split.
  - assert (Hv : Sklearn.build_vocabulary
                   (List.map (Sklearn.analyze sample_stop_words)
                      [graded_skills; graded_skills_fivefold])
                 = ["java"; "python"; "sql"]) by (vm_compute; reflexivity).
    exists {| Sklearn.stop_words_ := sample_stop_words;
              Sklearn.vocabulary_ := ["java"; "python"; "sql"];
              Sklearn.idf_ := [1; 1; 1]%R |}.
    split; [|repeat split].
    unfold Sklearn.fit, graded_corpus.
    cbn [mapM_result as_text mbind result_bind]. rewrite Hv.
    f_equal. f_equal. cbn [List.map].
    rewrite !idf_of_common_term by (vm_compute; reflexivity). reflexivity.
  - eexists. eexists. split; [vm_compute; reflexivity|].
    split; vm_compute; reflexivity.
Qed.

(** C9, as the code has it.  A scoring pass writes into the frame object it
    is handed: that frame gains the columns [salary_score] and [match_score];
    its rows, their order and their other columns stay, every other object of
    the heap stays, and so does the vectorizer.  The page hands the pass a
    copy, so that a pass started by the page leaves every object that existed
    before it unchanged. *)
Theorem enhanced_recommendations_frame_effect (argsort : list fval -> list nat)
    (user_skills : string) (df vectorizer : loc) (w : Weights) (h : heap) :
  writes df h (snd (enhanced_recommendations argsort user_skills df vectorizer w h)) /\
  (forall v : Sklearn.TfidfVectorizer,
      h !! vectorizer = Some (Vectorizer v) ->
      snd (enhanced_recommendations argsort user_skills df vectorizer w h)
        !! vectorizer
      = Some (Vectorizer v)) /\
  (forall (frame : DataFrame) (v : Sklearn.TfidfVectorizer) (docs : list cell)
          (scores : list R) (smin : list fval),
      h !! df = Some (Frame frame) ->
      h !! vectorizer = Some (Vectorizer v) ->
      Pandas.getitem "required_skills" frame = Ok docs ->
      skill_scores v user_skills docs = Ok scores ->
      floats "salary_min" frame = Ok smin ->
      exists (out frame' : DataFrame),
        enhanced_recommendations argsort user_skills df vectorizer w h
        = (Ok out, <[df := Frame frame']> h) /\
        scored frame frame' /\
        floats "salary_score" frame' = Ok (salary_score smin) /\
        floats "match_score" frame'
        = Ok (zip_with (match_score w) (List.map Fin scores) (salary_score smin))) /\
  (forall (english : list string) (loaded : loc) (s : Settings),
      preserved h
        (snd (recommendation_page argsort english loaded user_skills s h))).
Proof.
  pose proof (enhanced_recommendations_writes argsort user_skills df vectorizer
                w h) as Hw.
  split; [exact Hw|]. split; [|split].
  - intros v Hv. destruct Hw as [Hother Hdf].
    destruct (decide (vectorizer = df)) as [->|Hne].
    + rewrite Hv in Hdf. exact Hdf.
    + now rewrite Hother.
  - intros frame v docs scores smin Hh Hv Hdocs Hscores Hsmin.
    assert (Hlen : length (salary_score smin) = length frame).
    { unfold salary_score. rewrite List.length_map.
      now apply floats_length in Hsmin. }
    assert (Hlen' : length (zip_with (match_score w) (List.map Fin scores)
                              (salary_score smin)) = length frame).
    { rewrite length_zip_with, List.length_map, Hlen.
      rewrite (skill_scores_length _ _ _ _ Hscores).
      apply getitem_length in Hdocs. lia. }
    assert (Hlen1 : length (with_salary_score frame smin) = length frame).
    { unfold with_salary_score. apply setitem_length.
      now rewrite List.length_map. }
    do 2 eexists.
    split; [now apply (enhanced_recommendations_run argsort user_skills df
                         vectorizer w h frame v docs scores smin)|].
    split; [|split].
    + apply scored_trans with (with_salary_score frame smin).
      * apply scored_setitem; [now left | now rewrite List.length_map].
      * apply scored_setitem; [now right|].
        now rewrite List.length_map, Hlen1.
    + apply floats_setitem_other; [discriminate | |].
      * now rewrite List.length_map, Hlen1.
      * apply floats_setitem. exact Hlen.
    + apply floats_setitem. now rewrite Hlen1.
  - intros english loaded s. apply recommendation_page_preserved.
Qed.

(** C9, as the specification has it, fails: after a pass on the loaded sample
    frame the frame object at the location handed in is another frame, whose
    first row holds a match score that it did not hold before. *)
Lemma scoring_pass_writes_input_frame :
  exists (v : Sklearn.TfidfVectorizer) (out : DataFrame) (h' : heap)
         (r' : Row) (rest : DataFrame),
    Sklearn.fit sample_stop_words sample_corpus = Ok v /\
    enhanced_recommendations Argsort.keeping_ties "python, pandas" 0%nat 1%nat
      unit_weights (<[1%nat := Vectorizer v]> loaded_heap)
    = (Ok out, h') /\
    (<[1%nat := Vectorizer v]> loaded_heap) !! 0%nat = Some (Frame loaded_jobs) /\
    Forall (fun r => fields r !! "match_score" = None) loaded_jobs /\
    h' !! 0%nat = Some (Frame (r' :: rest)) /\
    is_Some (fields r' !! "match_score") /\
    h' !! 0%nat <> (<[1%nat := Vectorizer v]> loaded_heap) !! 0%nat.
Proof.
  eexists. eexists. eexists. eexists. eexists.
  split; [reflexivity|].
  split.
  { eapply (enhanced_recommendations_run Argsort.keeping_ties "python, pandas"
             0%nat 1%nat unit_weights _ loaded_jobs _ sample_corpus _
             [of_int 40000; NaN; of_int 50000]).
    - reflexivity.
    - apply lookup_insert_eq.
    - reflexivity.
    - apply (skill_scores_texts _ "python, pandas"
               ["python, sql"; "java, spring"; "python, pandas"]).
      discriminate.
    - reflexivity. }
  split; [reflexivity|].
  split; [repeat constructor|].
  split; [rewrite lookup_insert_eq; reflexivity|].
  split; [eexists; apply lookup_insert_eq|].
  rewrite lookup_insert_eq. intros H.
  apply (f_equal (fun o => match o with
                           | Some (Frame (r :: _)) => fields r !! "match_score"
                           | _ => None
                           end)) in H.
  discriminate H.
Qed.

(** C10.  The pair that [parse_salary] returns is not ordered: on a text
    whose first digit run exceeds its last one the first component is the
    larger. *)
Theorem parse_salary_unordered :
  exists (s : string) (lo hi : Z),
    parse_salary (Str s) = (Some lo, Some hi) /\ (lo > hi)%Z /\
    s = "60,000 - 40,000" /\ lo = 60000%Z /\ hi = 40000%Z.
Proof.
  exists "60,000 - 40,000", 60000%Z, 40000%Z.
  repeat split; reflexivity.
Qed.

(** * Further properties *)

(** ** The skills of a text *)

Example skills_of_sample :
  skills_of " Python ,SQL,  machine learning " = {["python"; "sql"; "machine learning"]}.
Proof. vm_compute. reflexivity. Qed.

Section CharacterFacts.

Import Text PyStr.

Ltac by_cases_on_char c :=
  destruct c as [[] [] [] [] [] [] [] []]; reflexivity.

Lemma lower_char_idem (c : ascii) : lower_char (lower_char c) = lower_char c.
Proof. by_cases_on_char c. Qed.

Lemma lower_upper_char (c : ascii) : lower_char (upper_char c) = lower_char c.
Proof. by_cases_on_char c. Qed.

Lemma lower_char_comma (c : ascii) :
  Ascii.eqb (lower_char c) "," = Ascii.eqb c ",".
Proof. by_cases_on_char c. Qed.

Lemma lower_char_space (c : ascii) : is_space (lower_char c) = is_space c.
Proof. by_cases_on_char c. Qed.

Lemma space_not_comma (c : ascii) : is_space c = true -> Ascii.eqb c "," = false.
Proof. destruct c as [[] [] [] [] [] [] [] []]; cbv; congruence. Qed.

Lemma lower_idem (s : string) : lower (lower s) = lower s.
Proof.
  induction s as [|c s IH]; simpl; [reflexivity|].
  now rewrite lower_char_idem, IH.
Qed.

Lemma lower_append (a b : string) :
  lower (a ++ b) = (lower a ++ lower b)%string.
Proof.
  induction a as [|c a IH]; [reflexivity|].
  rewrite append_cons. simpl. now rewrite IH, append_cons.
Qed.

Lemma lower_capitalize (s : string) : lower (capitalize s) = lower s.
Proof.
  destruct s as [|c s]; simpl; [reflexivity|].
  now rewrite lower_upper_char, lower_idem.
Qed.

End CharacterFacts.

Section SplitFacts.

Import Text PyStr.

Lemma split_from_lower (cur s : string) :
  split_from "," (lower cur) (lower s) = List.map lower (split_from "," cur s).
Proof.
  revert cur. induction s as [|c s IH]; intros cur; simpl; [reflexivity|].
  rewrite lower_char_comma. destruct (Ascii.eqb c ","); simpl.
  - f_equal. exact (IH EmptyString).
  - rewrite <- IH, lower_append. reflexivity.
Qed.

Lemma split_lower (s : string) : split "," (lower s) = List.map lower (split "," s).
Proof. exact (split_from_lower EmptyString s). Qed.

Lemma split_from_length (sep : ascii) (cur s : string) :
  length (split_from sep cur s) = S (occurrences sep s).
Proof.
  revert cur. induction s as [|c s IH]; intros cur; simpl; [reflexivity|].
  destruct (Ascii.eqb c sep); simpl; now rewrite IH.
Qed.

Lemma contains_append (c : ascii) (a b : string) :
  contains c (a ++ b) = (contains c a || contains c b)%bool.
Proof.
  induction a as [|x a IH]; [reflexivity|].
  rewrite append_cons. simpl. rewrite IH. now rewrite orb_assoc.
Qed.

Lemma split_from_pieces (sep : ascii) (cur s : string) :
  contains sep cur = false ->
  Forall (fun p => contains sep p = false) (split_from sep cur s).
Proof.
  revert cur. induction s as [|c s IH]; intros cur Hcur; simpl.
  - now constructor.
  - destruct (Ascii.eqb c sep) eqn:E.
    + constructor; [assumption | now apply IH].
    + apply IH. rewrite contains_append, Hcur. simpl. now rewrite E.
Qed.

Lemma join_split_from (sep : ascii) (cur s : string) :
  join sep (split_from sep cur s) = (cur ++ s)%string.
Proof.
  revert cur. induction s as [|c s IH]; intros cur; simpl.
  - now rewrite append_empty_r.
  - destruct (Ascii.eqb c sep) eqn:E.
    + apply Ascii.eqb_eq in E. subst c.
      specialize (IH EmptyString). rewrite append_nil in IH.
      destruct (split_from sep EmptyString s) as [|p l] eqn:Es.
      * pose proof (split_from_length sep EmptyString s) as Hl.
        rewrite Es in Hl. discriminate.
      * simpl in *. now rewrite IH.
    + rewrite IH, append_assoc. reflexivity.
Qed.

Lemma split_from_piece (sep : ascii) (cur p : string) :
  contains sep p = false -> split_from sep cur p = [(cur ++ p)%string].
Proof.
  revert cur. induction p as [|c p IH]; intros cur H; simpl.
  - now rewrite append_empty_r.
  - simpl in H. apply orb_false_iff in H as [Hc Hp].
    rewrite Hc, IH by assumption. now rewrite append_assoc.
Qed.

Lemma split_from_piece_more (sep : ascii) (cur p rest : string) :
  contains sep p = false ->
  split_from sep cur (p ++ String sep rest)
  = (cur ++ p)%string :: split_from sep EmptyString rest.
Proof.
  revert cur. induction p as [|c p IH]; intros cur H.
  - rewrite append_nil, append_empty_r. simpl. now rewrite Ascii.eqb_refl.
  - simpl in H. apply orb_false_iff in H as [Hc Hp].
    rewrite append_cons. simpl. rewrite Hc, IH by assumption.
    now rewrite append_assoc.
Qed.

Lemma split_join (sep : ascii) (pieces : list string) :
  pieces <> [] ->
  Forall (fun p => contains sep p = false) pieces ->
  split sep (join sep pieces) = pieces.
Proof.
  intros Hne H. unfold split.
  induction H as [|p l Hp Hl IH]; [congruence|].
  destruct l as [|q l].
  - simpl. now rewrite split_from_piece.
  - change (join sep (p :: q :: l)) with (p ++ String sep (join sep (q :: l)))%string.
    rewrite split_from_piece_more by assumption.
    rewrite append_nil. f_equal. apply IH. discriminate.
Qed.

End SplitFacts.

Section StripFacts.

Import Text PyStr.

Lemma lstrip_lower (s : string) : lstrip (lower s) = lower (lstrip s).
Proof.
  induction s as [|c s IH]; simpl; [reflexivity|].
  rewrite lower_char_space. now destruct (is_space c).
Qed.

Lemma rstrip_lower (s : string) : rstrip (lower s) = lower (rstrip s).
Proof.
  induction s as [|c s IH]; simpl; [reflexivity|].
  rewrite IH. destruct (rstrip s) as [|d r]; simpl; [|reflexivity].
  rewrite lower_char_space. now destruct (is_space c).
Qed.

Lemma strip_lower (s : string) : strip (lower s) = lower (strip s).
Proof. unfold strip. now rewrite lstrip_lower, rstrip_lower. Qed.

Lemma lstrip_starts_clean (s : string) : starts_clean (lstrip s).
Proof.
  induction s as [|c s IH]; simpl; [exact I|].
  destruct (is_space c) eqn:E; [exact IH | exact E].
Qed.

Lemma lstrip_clean (s : string) : starts_clean s -> lstrip s = s.
Proof. destruct s as [|c s]; simpl; [reflexivity|]. now intros ->. Qed.

Lemma rstrip_idem (s : string) : rstrip (rstrip s) = rstrip s.
Proof.
  induction s as [|c s IH]; simpl; [reflexivity|].
  destruct (rstrip s) as [|d r] eqn:E.
  - destruct (is_space c) eqn:Ec; simpl; [reflexivity | now rewrite Ec].
  - change (rstrip (String c (String d r))) with
      (match rstrip (String d r) with
       | EmptyString => if is_space c then EmptyString else String c EmptyString
       | r' => String c r'
       end).
    now rewrite IH.
Qed.

Lemma rstrip_starts_clean (s : string) : starts_clean s -> starts_clean (rstrip s).
Proof.
  destruct s as [|c s]; simpl; [trivial|]. intros Hc.
  destruct (rstrip s); [rewrite Hc|]; exact Hc.
Qed.

Lemma strip_idem (s : string) : strip (strip s) = strip s.
Proof.
  unfold strip. rewrite (lstrip_clean (rstrip (lstrip s))).
  - apply rstrip_idem.
  - apply rstrip_starts_clean, lstrip_starts_clean.
Qed.

Lemma contains_lstrip (c : ascii) (s : string) :
  contains c s = false -> contains c (lstrip s) = false.
Proof.
  induction s as [|x s IH]; simpl; [trivial|]. intros H.
  apply orb_false_iff in H as [Hx Hs].
  destruct (is_space x); [now apply IH | simpl; now rewrite Hx, Hs].
Qed.

Lemma contains_rstrip (c : ascii) (s : string) :
  contains c s = false -> contains c (rstrip s) = false.
Proof.
  induction s as [|x s IH]; simpl; [trivial|]. intros H.
  apply orb_false_iff in H as [Hx Hs]. specialize (IH Hs).
  destruct (rstrip s) as [|d r].
  - destruct (is_space x); simpl; [reflexivity | now rewrite Hx].
  - simpl in *. now rewrite Hx.
Qed.

Lemma contains_strip (c : ascii) (s : string) :
  contains c s = false -> contains c (strip s) = false.
Proof. intros H. now apply contains_rstrip, contains_lstrip. Qed.

Lemma contains_lower_comma (s : string) : contains "," (lower s) = contains "," s.
Proof.
  induction s as [|c s IH]; simpl; [reflexivity|].
  now rewrite lower_char_comma, IH.
Qed.

Lemma normal_skill_lower (p : string) : normal_skill (lower p) = normal_skill p.
Proof. unfold normal_skill. now rewrite strip_lower, lower_idem. Qed.

Lemma normal_skill_normal (p : string) :
  contains "," p = false ->
  strip (normal_skill p) = normal_skill p /\
  lower (normal_skill p) = normal_skill p /\
  contains "," (normal_skill p) = false.
Proof.
  intros H. unfold normal_skill. split; [|split].
  - now rewrite strip_lower, strip_idem.
  - apply lower_idem.
  - rewrite contains_lower_comma. now apply contains_strip.
Qed.

Lemma skills_of_elem (text t : string) :
  t ∈ skills_of text <-> exists p, In p (split "," text) /\ t = normal_skill p.
Proof.
  unfold skills_of. rewrite elem_of_list_to_set, list_elem_of_In, in_map_iff.
  split; intros (p & H1 & H2); exists p; [now split | now split].
Qed.

Lemma skills_of_pieces (text t : string) :
  t ∈ skills_of text ->
  exists p, contains "," p = false /\ t = normal_skill p.
Proof.
  intros H. apply skills_of_elem in H as (p & Hp & ->).
  exists p. split; [|reflexivity].
  pose proof (split_from_pieces "," EmptyString text eq_refl) as Hall.
  apply List.Forall_forall with (x := p) in Hall; assumption.
Qed.

Lemma capitalize_lower (t : string) : lower t = t -> lower (capitalize t) = t.
Proof. intros H. now rewrite lower_capitalize. Qed.

End StripFacts.

Section SetFacts.

Lemma size_list_to_set_le (l : list string) :
  size (list_to_set l : gset string) <= length l.
Proof.
  induction l as [|x l IH].
  - rewrite list_to_set_nil, size_empty. simpl. lia.
  - rewrite list_to_set_cons, size_union_alt, size_singleton. simpl.
    assert (list_to_set l ∖ {[x]} ⊆ (list_to_set l : gset string)) as Hs.
    { intros t Ht. apply elem_of_difference in Ht. tauto. }
    apply subseteq_size in Hs. lia.
Qed.

Lemma size_shown (X : gset string) :
  (forall t, t ∈ X -> Text.lower t = t) -> size (shown X) = size X.
Proof.
  intros H. unfold shown, set_map.
  rewrite size_list_to_set.
  - rewrite length_fmap. reflexivity.
  - apply NoDup_fmap_2_strong; [|apply NoDup_elements].
    intros x y Hx Hy E. apply elem_of_elements in Hx, Hy.
    rewrite <- (H x Hx), <- (H y Hy).
    rewrite <- (lower_capitalize x), <- (lower_capitalize y). now rewrite E.
Qed.

End SetFacts.

(** ** The job card *)

Section CardFacts.

Import Text PyStr.

Lemma display_job_card_inv (job : Row) (user_skills : string) (card : Card) :
  display_job_card job user_skills = Ok card ->
  exists (title company location salary_range score description : cell)
         (required : string) (p : fval),
    fields job !! "job_title" = Some title /\
    fields job !! "company" = Some company /\
    fields job !! "location" = Some location /\
    fields job !! "salary_range" = Some salary_range /\
    fields job !! "match_score" = Some score /\
    percent score = Ok p /\
    fields job !! "required_skills" = Some (Str required) /\
    fields job !! "job_description" = Some description /\
    card = {| card_title := title;
              card_company := company;
              card_location := location;
              card_salary_range := salary_range;
              card_match := p;
              card_matched := skills_of required ∩ skills_of user_skills;
              card_missing := skills_of required ∖ skills_of user_skills;
              card_description := description |}.
Proof.
  unfold display_job_card, item, mbind, result_bind.
  destruct (fields job !! "job_title") as [title|]; [|discriminate].
  destruct (fields job !! "company") as [company|]; [|discriminate].
  destruct (fields job !! "location") as [location|]; [|discriminate].
  destruct (fields job !! "salary_range") as [salary_range|]; [|discriminate].
  destruct (fields job !! "match_score") as [score|]; [|discriminate].
  destruct (percent score) as [p|] eqn:Hp; [|discriminate].
  destruct (fields job !! "required_skills") as [[|required| |]|]; try discriminate.
  destruct (fields job !! "job_description") as [description|]; [|discriminate].
  simpl. intros [= <-].
  exists title, company, location, salary_range, score, description, required, p.
  now repeat split.
Qed.

End CardFacts.

(** X1.  Every skill that a card compares, read from an ASCII text, is in
    normal form: it has no blank at either end, no capital letter and no
    comma. *)
Theorem skills_of_normal (text t : string) :
  ascii_text text = true ->
  t ∈ skills_of text ->
  PyStr.strip t = t /\ Text.lower t = t /\ contains "," t = false.
Proof.
  intros _ H. apply skills_of_pieces in H as (p & Hp & ->).
  now apply normal_skill_normal.
Qed.

Lemma skills_of_normal_witness :
  ascii_text "SQL,  Machine Learning " = true /\
  "machine learning" ∈ skills_of "SQL,  Machine Learning " /\
  PyStr.strip "machine learning" = "machine learning" /\
  Text.lower "machine learning" = "machine learning" /\
  contains "," "machine learning" = false.
Proof.
  assert (A : ascii_text "SQL,  Machine Learning " = true) by reflexivity.
  assert (H : "machine learning" ∈ skills_of "SQL,  Machine Learning ").
  { vm_compute. reflexivity. }
  split; [exact A|]. split; [exact H | exact (skills_of_normal _ _ A H)].
Defined.

(** X2.  The comparison of skills ignores the case of ASCII letters: an
    ASCII text and its lowercase form have the same skills, so that a card is
    the same for either as the user's text. *)
Theorem skills_of_lower (text : string) :
  ascii_text text = true ->
  skills_of (Text.lower text) = skills_of text /\
  forall job : Row,
    display_job_card job (Text.lower text) = display_job_card job text.
Proof.
  intros _.
  assert (H : skills_of (Text.lower text) = skills_of text).
  { unfold skills_of. rewrite split_lower, List.map_map. f_equal.
    apply List.map_ext. intros p. exact (normal_skill_lower p). }
  split; [exact H|]. intros job. unfold display_job_card. now rewrite H.
Qed.

Lemma skills_of_lower_witness :
  ascii_text "Python, SQL" = true /\
  skills_of (Text.lower "Python, SQL") = skills_of "Python, SQL".
Proof.
  assert (A : ascii_text "Python, SQL" = true) by reflexivity.
  split; [exact A | exact (proj1 (skills_of_lower "Python, SQL" A))].
Defined.

(** X3.  The skills of a comma-separated list are its entries in normal form:
    blanks around an entry, its case, the order of the entries and their
    repetition do not matter. *)
Theorem skills_of_join (pieces : list string) :
  pieces <> [] ->
  Forall (fun p => contains "," p = false) pieces ->
  skills_of (join "," pieces) = list_to_set (List.map normal_skill pieces).
Proof.
  intros Hne Hall. unfold skills_of. now rewrite split_join.
Qed.

Lemma skills_of_join_witness :
  skills_of (join "," ["SQL"; " python "; "sql"]) = {["sql"; "python"]}.
Proof.
  rewrite (skills_of_join ["SQL"; " python "; "sql"]).
  - vm_compute. reflexivity.
  - discriminate.
  - repeat constructor.
Defined.

(** X4.  On a card the matched and the suggested skills divide the skills of
    the job between them: a skill of the job is matched when the user's text
    has it and suggested otherwise, the two counts add up to the number of
    skills of the job, and that number is at least one and at most one more
    than the number of commas of the job's skills text. *)
Theorem display_job_card_skills (job : Row) (user_skills : string) (card : Card) :
  display_job_card job user_skills = Ok card ->
  exists required : string,
    fields job !! "required_skills" = Some (Str required) /\
    card_matched card ∪ card_missing card = skills_of required /\
    card_matched card ## card_missing card /\
    card_matched card ⊆ skills_of user_skills /\
    card_missing card ## skills_of user_skills /\
    size (card_matched card) + size (card_missing card) = size (skills_of required) /\
    1 <= size (skills_of required) <= S (occurrences "," required).
Proof.
  intros H.
  apply display_job_card_inv in H
    as (title & company & location & range & score & description & required & p
        & _ & _ & _ & _ & _ & _ & Hr & _ & ->).
  exists required. simpl.
  assert (Hd : (skills_of required ∩ skills_of user_skills)
               ## (skills_of required ∖ skills_of user_skills)).
  { intros t H1 H2. apply elem_of_intersection in H1.
    apply elem_of_difference in H2. tauto. }
  assert (Hu : skills_of required ∩ skills_of user_skills
               ∪ skills_of required ∖ skills_of user_skills = skills_of required).
  { apply set_eq. intros t.
    rewrite elem_of_union, elem_of_intersection, elem_of_difference.
    destruct (decide (t ∈ skills_of user_skills)); tauto. }
  repeat split.
  - exact Hr.
  - exact Hu.
  - exact Hd.
  - intros t Ht. apply elem_of_intersection in Ht. tauto.
  - intros t H1 H2. apply elem_of_difference in H1. tauto.
  - rewrite <- (size_union _ _ Hd). now rewrite Hu.
  - destruct (PyStr.split "," required) as [|p0 l] eqn:E.
    + pose proof (split_from_length "," EmptyString required) as Hl.
      unfold PyStr.split in E. rewrite E in Hl. discriminate.
    + assert (Hin : normal_skill p0 ∈ skills_of required).
      { apply skills_of_elem. exists p0. rewrite E. split; [now left | reflexivity]. }
      destruct (decide (size (skills_of required) = 0)) as [Hz|Hz]; [|lia].
      apply size_empty_inv in Hz. rewrite Hz in Hin.
      now apply not_elem_of_empty in Hin.
  - unfold skills_of. etransitivity; [apply size_list_to_set_le|].
    rewrite List.length_map. unfold PyStr.split.
    now rewrite split_from_length.
Qed.

Lemma display_job_card_skills_witness :
  exists card : Card,
    display_job_card (ranked_job "Data engineer" "Python, SQL, Spark" (1 / 2))
      "sql, python, excel" = Ok card /\
    card_matched card ∪ card_missing card = skills_of "Python, SQL, Spark" /\
    size (card_matched card) + size (card_missing card)
    = size (skills_of "Python, SQL, Spark").
Proof.
  eexists. split; [reflexivity|].
  destruct (display_job_card_skills
              (ranked_job "Data engineer" "Python, SQL, Spark" (1 / 2))
              "sql, python, excel" _ eq_refl)
    as (required & Hr & Hu & _ & _ & _ & Hs & _).
  assert (required = "Python, SQL, Spark") as -> by (vm_compute in Hr; congruence).
  split; assumption.
Defined.

(** X5.  When the skills text of the job and that of the user are ASCII,
    the labels under each heading of a card are pairwise distinct and each
    one, put in lower case, is the skill it stands for: the count in the
    heading is the number of different labels shown. *)
Theorem display_job_card_labels (job : Row) (user_skills required : string)
    (card : Card) :
  fields job !! "required_skills" = Some (Str required) ->
  ascii_text required = true ->
  ascii_text user_skills = true ->
  display_job_card job user_skills = Ok card ->
  size (shown (card_matched card)) = size (card_matched card) /\
  size (shown (card_missing card)) = size (card_missing card) /\
  forall t : string,
    t ∈ card_matched card ∪ card_missing card ->
    Text.lower (PyStr.capitalize t) = t.
Proof.
  intros _ _ _ H. clear required.
  apply display_job_card_inv in H
    as (title & company & location & range & score & description & required & p
        & _ & _ & _ & _ & _ & _ & Hr & _ & ->).
  simpl.
  assert (Hl : forall t, t ∈ skills_of required -> Text.lower t = t).
  { intros t Ht. apply skills_of_pieces in Ht as (q & Hq & ->).
    now apply normal_skill_normal. }
  repeat split.
  - apply size_shown. intros t Ht. apply elem_of_intersection in Ht. apply Hl. tauto.
  - apply size_shown. intros t Ht. apply elem_of_difference in Ht. apply Hl. tauto.
  - intros t Ht. apply capitalize_lower, Hl.
    apply elem_of_union in Ht as [Ht|Ht];
      [apply elem_of_intersection in Ht | apply elem_of_difference in Ht]; tauto.
Qed.

Lemma display_job_card_labels_witness :
  exists card : Card,
    display_job_card (ranked_job "Data engineer" "Python, SQL, Spark" (1 / 2))
      "sql, python, excel" = Ok card /\
    shown (card_matched card) = {["Python"; "Sql"]} /\
    size (shown (card_matched card)) = size (card_matched card).
Proof.
  eexists. split; [reflexivity|]. split; [vm_compute; reflexivity|].
  exact (proj1 (display_job_card_labels
                  (ranked_job "Data engineer" "Python, SQL, Spark" (1 / 2))
                  "sql, python, excel" "Python, SQL, Spark" _
                  eq_refl eq_refl eq_refl eq_refl)).
Defined.

(** X6.  A card is drawn exactly when the row has the seven columns that the
    card reads, its match score is a number and its skills are a text; the
    card then shows the cells of the row, the match score times 100, and the
    comparison of the two skill sets.  Whether it is drawn does not depend on
    the user's text. *)
Theorem display_job_card_outcome (job : Row) (user_skills : string) :
  ((exists card, display_job_card job user_skills = Ok card) <->
   Forall (fun name => is_Some (fields job !! name)) card_columns /\
   (exists c, fields job !! "match_score" = Some c /\ is_number c = true) /\
   (exists c, fields job !! "required_skills" = Some c /\ is_text c = true)) /\
  (forall card : Card,
      display_job_card job user_skills = Ok card ->
      fields job !! "job_title" = Some (card_title card) /\
      fields job !! "company" = Some (card_company card) /\
      fields job !! "location" = Some (card_location card) /\
      fields job !! "salary_range" = Some (card_salary_range card) /\
      fields job !! "job_description" = Some (card_description card) /\
      (exists score : fval,
          cell_float "match_score" job = Ok score /\
          card_match card = fmul score (Fin 100))) /\
  (forall other : string,
      (exists card, display_job_card job other = Ok card) <->
      (exists card, display_job_card job user_skills = Ok card)).
Proof.
  assert (Hiff : forall u,
             (exists card, display_job_card job u = Ok card) <->
             Forall (fun name => is_Some (fields job !! name)) card_columns /\
             (exists c, fields job !! "match_score" = Some c /\ is_number c = true) /\
             (exists c, fields job !! "required_skills" = Some c /\ is_text c = true)).
  { intros u. split.
    - intros [card H].
      apply display_job_card_inv in H
        as (title & company & location & range & score & description & required & p
            & H1 & H2 & H3 & H4 & H5 & Hp & H6 & H7 & _).
      split; [|split].
      + unfold card_columns. repeat constructor; eauto.
      + exists score. split; [assumption|]. now destruct score.
      + exists (Str required). now split.
    - intros (Hall & (c & Hc & Hn) & (c' & Hc' & Ht)).
      unfold card_columns in Hall.
      apply Forall_cons in Hall as [[title H1] Hall].
      apply Forall_cons in Hall as [[company H2] Hall].
      apply Forall_cons in Hall as [[location H3] Hall].
      apply Forall_cons in Hall as [[range H4] Hall].
      apply Forall_cons in Hall as [_ Hall].
      apply Forall_cons in Hall as [_ Hall].
      apply Forall_cons in Hall as [[description H7] _].
      unfold display_job_card, item, mbind, result_bind.
      rewrite H1, H2, H3, H4, Hc, Hc', H7.
      destruct c; try discriminate; destruct c'; try discriminate; simpl; eauto. }
  split; [apply Hiff|]. split.
  - intros card H.
    apply display_job_card_inv in H
      as (title & company & location & range & score & description & required & p
          & H1 & H2 & H3 & H4 & H5 & Hp & H6 & H7 & ->).
    simpl. repeat split; try assumption.
    unfold cell_float. rewrite H5.
    destruct score; try discriminate; simpl in *; injection Hp as <-; eauto.
  - intros other. now rewrite !Hiff.
Qed.

(** ** Salary parsing *)

Section ParseFacts.

Import Text.
Local Open Scope list_scope.

Lemma scan_all_digits (s cur : string) :
  all_digits cur -> Forall all_digits (scan is_digit cur s).
Proof.
  revert cur. induction s as [|c s IH]; intros cur Hcur; simpl.
  - destruct cur; simpl; [constructor | constructor; [assumption | constructor]].
  - destruct (is_digit c) eqn:Hc.
    + apply IH. now apply all_digits_snoc.
    + apply Forall_app. split; [|now apply IH].
      destruct cur; simpl; [constructor | constructor; [assumption | constructor]].
Qed.

Lemma digit_value_nonneg (c : ascii) : is_digit c = true -> (0 <= digit_value c)%Z.
Proof.
  unfold is_digit, in_range, digit_value. intros H.
  apply andb_true_iff in H as [H _]. apply N.leb_le in H. lia.
Qed.

Lemma int_acc_nonneg (s : string) (acc : Z) :
  (0 <= acc)%Z -> all_digits s -> (0 <= int_acc acc s)%Z.
Proof.
  revert acc. induction s as [|c s IH]; intros acc Hacc Hs; simpl; [assumption|].
  destruct Hs as [Hc Hs]. apply IH; [|assumption].
  pose proof (digit_value_nonneg c Hc). lia.
Qed.

Lemma int_nonneg (s : string) : all_digits s -> (0 <= int s)%Z.
Proof. apply int_acc_nonneg. lia. Qed.


Lemma remove_char_append (old : ascii) (a b : string) :
  remove_char old (a ++ b) = (remove_char old a ++ remove_char old b)%string.
Proof.
  induction a as [|c a IH]; [reflexivity|].
  rewrite append_cons. simpl. rewrite IH. now destruct (Ascii.eqb c old).
Qed.


Lemma last_Forall {A} (P : A -> Prop) (l : list A) (d : A) :
  P d -> Forall P l -> P (List.last l d).
Proof.
  intros Hd H. induction H as [|x l Hx Hl IH]; [assumption|].
  destruct l; [assumption | exact IH].
Qed.






Lemma parse_salary_figures (salary_range : cell) :
  match parse_salary salary_range with
  | (None, None) => True
  | (Some lo, Some hi) => (0 <= lo)%Z /\ (0 <= hi)%Z
  | _ => False
  end.
Proof.
  unfold parse_salary, parse_salary_try, int_checked.
  destruct salary_range as [|s|z|x]; try exact I.
  pose proof (scan_all_digits (remove_char "," s) EmptyString I) as Hall.
  fold (findall_digits (remove_char "," s)) in Hall.
  destruct (findall_digits (remove_char "," s)) as [|m0 rest]; [exact I|].
  apply Forall_cons in Hall as [H0 Hrest].
  destruct (convertible m0); [|exact I].
  destruct rest as [|m1 rest].
  - split; now apply int_nonneg.
  - remember (List.last (m1 :: rest) m0) as l eqn:El.
    assert (Hl : all_digits l) by (subst l; now apply last_Forall).
    destruct (convertible l); [|exact I].
    split; now apply int_nonneg.
Qed.

End ParseFacts.

(** X7.  On every argument [parse_salary] returns either no figure at all or
    two figures, and a figure is never negative: a sign before a number is
    not read. *)
Theorem parse_salary_shape (salary_range : cell) :
  parse_salary salary_range = (None, None) \/
  exists lo hi : Z,
    parse_salary salary_range = (Some lo, Some hi) /\ (0 <= lo)%Z /\ (0 <= hi)%Z.
Proof.
  pose proof (parse_salary_figures salary_range) as H.
  destruct (parse_salary salary_range) as [[lo|] [hi|]]; try contradiction.
  - right. now exists lo, hi.
  - now left.
Qed.


(** X9.  A comma is ignored wherever it stands: a text reads as the text
    without that comma, so that the digits on either side of a thousands
    separator form one figure. *)
Theorem parse_salary_ignores_commas (a b : string) :
  parse_salary (Str (a ++ String "," b)) = parse_salary (Str (a ++ b)).
Proof.
  unfold parse_salary, parse_salary_try.
  rewrite !remove_char_append. simpl. reflexivity.
Qed.

(** ** Data loading *)

Section LoadEdges.

Local Open Scope list_scope.

Lemma filter_nil_iff {A} (f : A -> bool) (l : list A) :
  List.filter f l = [] <-> Forall (fun x => f x = false) l.
Proof.
  induction l as [|x l IH]; simpl.
  - split; [constructor | reflexivity].
  - destruct (f x) eqn:E.
    + split; [discriminate|]. intros H. apply Forall_cons in H as [H _]. congruence.
    + rewrite IH. split; [now constructor | now intros H; apply Forall_cons in H].
Qed.

Lemma complete_with_salary (r : Row) : complete (with_salary r) = complete r.
Proof.
  unfold with_salary, complete.
  destruct (fields r !! "salary_range") as [c|] eqn:E; [|now rewrite E].
  simpl. rewrite !lookup_insert_ne by discriminate. now rewrite E.
Qed.

Lemma with_salary_max (r : Row) :
  present r ->
  fields (with_salary r) !! "salary_max"
  = Some (int_cell (snd (parse_salary (range_of r)))).
Proof.
  intros Hr. rewrite with_salary_range by assumption. simpl.
  apply lookup_insert_eq.
Qed.

Lemma with_salary_other (r : Row) (c : string) :
  c <> "salary_min" -> c <> "salary_max" ->
  fields (with_salary r) !! c = fields r !! c.
Proof.
  intros H1 H2. unfold with_salary.
  destruct (fields r !! "salary_range"); [|reflexivity].
  simpl. now rewrite !lookup_insert_ne by congruence.
Qed.

End LoadEdges.

(** X10.  When rows are fetched, the loaded table is empty exactly when none
    of them has both a skills text and a salary text: the unpacking of the
    parsed salaries then fails for want of a pair, and the failure is turned
    into an empty table. *)
Theorem load_data_nothing_complete (fetched : DataFrame) :
  fetched <> [] ->
  Forall present fetched ->
  (load_data fetched = [] <-> Forall (fun r => complete r = false) fetched) /\
  (Forall (fun r => complete r = false) fetched ->
   load_data_try fetched = Raise ValueError).
Proof.
  intros _ H. split.
  - rewrite load_data_closed_form by assumption.
    rewrite <- filter_nil_iff.
    destruct (List.filter complete fetched); simpl; split; congruence.
  - intros Hc. apply filter_nil_iff in Hc.
    unfold load_data_try. rewrite dropna_complete by assumption.
    rewrite Hc. reflexivity.
Qed.

Lemma load_data_nothing_complete_witness :
  load_data [job 7 "Leeds" "Junior" "Competitive" "java"] <> [].
Proof.
  assert (N : [job 7 "Leeds" "Junior" "Competitive" "java"] <> [])
    by discriminate.
  assert (H : Forall present [job 7 "Leeds" "Junior" "Competitive" "java"]).
  { repeat constructor; eexists; reflexivity. }
  intros E.
  apply (proj1 (load_data_nothing_complete _ N H)) in E.
  apply Forall_cons in E as [E _]. discriminate E.
Defined.

(** X11.  When the fetched table is not empty and lacks the skills column or
    the salary column, the lookup of that column fails inside [load_data],
    and the loaded table is empty. *)
Theorem load_data_missing_column (fetched : DataFrame) (name : string) :
  fetched <> [] ->
  In name ["required_skills"; "salary_range"] ->
  Forall (fun r => fields r !! name = None) fetched ->
  load_data_try fetched = Raise KeyError /\ load_data fetched = [].
Proof.
  intros Hne Hname Hall.
  assert (E : load_data_try fetched = Raise KeyError).
  { destruct fetched as [|r rest]; [congruence|].
    apply Forall_cons in Hall as [Hr _].
    unfold load_data_try, Pandas.dropna. simpl.
    assert (K : Pandas.keeps ["required_skills"; "salary_range"] r = Raise KeyError).
    { unfold Pandas.keeps, Pandas.notna_at. simpl.
      destruct Hname as [<-|[<-|[]]].
      - now rewrite Hr.
      - rewrite Hr. now destruct (fields r !! "required_skills"). }
    now rewrite K. }
  split; [exact E|]. unfold load_data. now rewrite E.
Qed.

Lemma load_data_missing_column_witness :
  load_data [{| label := 0; fields := {["required_skills" := Str "python"]} |}] = [].
Proof.
  refine (proj2 (load_data_missing_column _ "salary_range" _ _ _)).
  - discriminate.
  - right. left. reflexivity.
  - repeat constructor.
Defined.

(** X12.  Every row of the loaded table has a skills cell and a salary text
    that are not null, and the two salary columns: both are null, or both
    hold an integer that is not negative.  Its other columns are those of
    the fetched row with the same label. *)
Theorem load_data_schema (fetched : DataFrame) :
  Forall present fetched ->
  Forall (fun r =>
            complete r = true /\
            ((fields r !! "salary_min" = Some Null /\
              fields r !! "salary_max" = Some Null) \/
             (exists lo hi : Z,
                 fields r !! "salary_min" = Some (Int lo) /\
                 fields r !! "salary_max" = Some (Int hi) /\
                 (0 <= lo)%Z /\ (0 <= hi)%Z)) /\
            exists r0 : Row,
              In r0 fetched /\ label r = label r0 /\
              forall c : string,
                c <> "salary_min" -> c <> "salary_max" ->
                fields r !! c = fields r0 !! c)
    (load_data fetched).
Proof.
  intros H. rewrite load_data_closed_form by assumption.
  apply List.Forall_forall. intros r Hr.
  apply List.in_map_iff in Hr as (r0 & <- & Hr0).
  apply List.filter_In in Hr0 as [Hin Hc].
  assert (Hp : present r0) by (rewrite List.Forall_forall in H; now apply H).
  split; [now rewrite complete_with_salary|]. split.
  - rewrite with_salary_min, with_salary_max by assumption.
    pose proof (parse_salary_figures (range_of r0)) as F.
    destruct (parse_salary (range_of r0)) as [[lo|] [hi|]]; try contradiction; simpl.
    + right. now exists lo, hi.
    + now left.
  - exists r0. split; [assumption|]. split.
    + rewrite with_salary_range by assumption. reflexivity.
    + intros c. apply with_salary_other.
Qed.

Lemma load_data_schema_witness :
  Forall present sample_jobs /\
  Forall (fun r => complete r = true) (load_data sample_jobs).
Proof.
  split; [exact sample_jobs_present|].
  eapply Forall_impl; [exact (load_data_schema sample_jobs sample_jobs_present)|].
  intros r [H _]. exact H.
Defined.

(** ** Salary scores of a column with two different figures *)

Section Scaling.

Local Open Scope list_scope.

Lemma fold_min_in (l : list Z) (z : Z) : In (fold_left Z.min l z) (z :: l).
Proof.
  revert z. induction l as [|y l IH]; intros z; simpl; [now left|].
  destruct (IH (Z.min z y)) as [H|H]; [|now right; right].
  destruct (Z.min_spec z y) as [[_ E]|[_ E]]; rewrite E in *;
    [left | right; left]; assumption.
Qed.

Lemma fold_max_in (l : list Z) (z : Z) : In (fold_left Z.max l z) (z :: l).
Proof.
  revert z. induction l as [|y l IH]; intros z; simpl; [now left|].
  destruct (IH (Z.max z y)) as [H|H]; [|now right; right].
  destruct (Z.max_spec z y) as [[_ E]|[_ E]]; rewrite E in *;
    [right; left | left]; assumption.
Qed.

Lemma figures_elem (xs : list (option Z)) (z : Z) :
  In z (omap (fun o => o) xs) <-> In (Some z) xs.
Proof.
  rewrite <- !list_elem_of_In, list_elem_of_omap. split.
  - intros (o & Ho & E). simpl in E. now subst o.
  - intros H. now exists (Some z).
Qed.

(** the extremes of a column are figures of the column and bound the others *)
Lemma extremes_spec (xs : list (option Z)) (lo hi : Z) :
  nanmin (List.map salary_float xs) = of_int lo ->
  nanmax (List.map salary_float xs) = of_int hi ->
  In (Some lo) xs /\ In (Some hi) xs /\
  forall z : Z, In (Some z) xs -> (lo <= z <= hi)%Z.
Proof.
  unfold nanmin, nanmax. rewrite notnan_salary_float.
  destruct (omap (fun o => o) xs) as [|z0 zs] eqn:E; simpl; [discriminate|].
  rewrite fold_fmin2_of_int, fold_fmax2_of_int.
  intros Hlo Hhi. injection Hlo as Hlo. injection Hhi as Hhi.
  apply eq_IZR in Hlo, Hhi. subst lo hi.
  destruct (fold_min_le zs z0) as [L1 L2].
  destruct (fold_max_ge zs z0) as [U1 U2].
  rewrite List.Forall_forall in L2, U2.
  repeat split.
  - apply figures_elem. rewrite E. apply fold_min_in.
  - apply figures_elem. rewrite E. apply fold_max_in.
  - apply figures_elem in H. rewrite E in H.
    destruct H as [<-|H]; [assumption | now apply L2].
  - apply figures_elem in H. rewrite E in H.
    destruct H as [<-|H]; [assumption | now apply U2].
Qed.

Lemma salary_score_scaled (xs : list (option Z)) (lo hi : Z) :
  nanmin (List.map salary_float xs) = of_int lo ->
  nanmax (List.map salary_float xs) = of_int hi ->
  lo <> hi ->
  salary_score (List.map salary_float xs) = List.map (scaled lo hi) xs.
Proof.
  intros Hlo Hhi Hne. unfold salary_score. rewrite Hlo, Hhi.
  rewrite List.map_map. apply List.map_ext. intros [z|]; [|reflexivity].
  simpl.
  destruct (Req_dec_T (IZR hi + - IZR lo) 0) as [H|H].
  - exfalso. apply Hne. apply eq_IZR. lra.
  - reflexivity.
Qed.

Lemma scaled_unit (lo hi z : Z) :
  (lo <= z <= hi)%Z -> lo <> hi ->
  (0 <= (IZR z - IZR lo) / (IZR hi - IZR lo) <= 1)%R.
Proof.
  intros [H1 H2] Hne.
  assert (Hd : (0 < IZR hi - IZR lo)%R).
  { assert (lo < hi)%Z as Hlt by lia. apply IZR_lt in Hlt. lra. }
  apply IZR_le in H1, H2. split.
  - apply Rmult_le_pos; [lra|]. left. now apply Rinv_0_lt_compat.
  - apply Rmult_le_reg_r with (r := (IZR hi - IZR lo)%R); [assumption|].
    unfold Rdiv. rewrite Rmult_assoc, Rinv_l by lra. lra.
Qed.

Lemma scaled_monotone (lo hi z1 z2 : Z) :
  (lo < hi)%Z -> (z1 <= z2)%Z ->
  ((IZR z1 - IZR lo) / (IZR hi - IZR lo)
   <= (IZR z2 - IZR lo) / (IZR hi - IZR lo))%R.
Proof.
  intros Hlt H. apply IZR_lt in Hlt. apply IZR_le in H.
  unfold Rdiv. apply Rmult_le_compat_r; [|lra].
  left. apply Rinv_0_lt_compat. lra.
Qed.

End Scaling.

(** X13.  In a column with two different salary figures the score of a row is
    the distance of its figure from the least one, divided by the distance
    between the greatest and the least: the scores lie between 0 and 1, a row
    with the least figure scores 0 and one with the greatest scores 1, a
    greater figure never scores less, and a row without a figure has the
    score [nan]. *)
Theorem salary_score_unit_interval (xs : list (option Z)) (lo hi : Z) :
  nanmin (List.map salary_float xs) = of_int lo ->
  nanmax (List.map salary_float xs) = of_int hi ->
  lo <> hi ->
  salary_score (List.map salary_float xs) = List.map (scaled lo hi) xs /\
  Forall unit_or_null (salary_score (List.map salary_float xs)) /\
  In (Some lo) xs /\ scaled lo hi (Some lo) = Fin 0 /\
  In (Some hi) xs /\ scaled lo hi (Some hi) = Fin 1 /\
  (forall z1 z2 : Z,
      In (Some z1) xs -> In (Some z2) xs -> (z1 <= z2)%Z ->
      fle (scaled lo hi (Some z1)) (scaled lo hi (Some z2))) /\
  scaled lo hi None = NaN.
Proof.
  intros Hlo Hhi Hne.
  destruct (extremes_spec xs lo hi Hlo Hhi) as (Ilo & Ihi & Hb).
  assert (Hlt : (lo < hi)%Z) by (specialize (Hb lo Ilo); lia).
  assert (Hd : (IZR hi - IZR lo <> 0)%R).
  { apply IZR_lt in Hlt. lra. }
  rewrite (salary_score_scaled xs lo hi Hlo Hhi Hne).
  repeat split; try assumption.
  - apply List.Forall_forall. intros s Hs.
    apply List.in_map_iff in Hs as ([z|] & <- & Hz); simpl; [|exact I].
    apply scaled_unit; [now apply Hb | assumption].
  - simpl. f_equal. unfold Rdiv, Rminus. rewrite Rplus_opp_r. apply Rmult_0_l.
  - simpl. f_equal. now apply Rdiv_diag.
  - intros z1 z2 _ _ H. simpl. now apply scaled_monotone.
Qed.

Lemma salary_score_unit_interval_witness :
  salary_score (List.map salary_float [Some 40000; None; Some 50000; Some 60000]%Z)
  = [Fin ((40000 - 40000) / (60000 - 40000)); NaN;
     Fin ((50000 - 40000) / (60000 - 40000));
     Fin ((60000 - 40000) / (60000 - 40000))].
Proof.
  refine (proj1 (salary_score_unit_interval
                   [Some 40000; None; Some 50000; Some 60000]%Z 40000 60000 _ _ _)).
  - unfold nanmin. simpl. rewrite !fmin2_of_int. reflexivity.
  - unfold nanmax. simpl. rewrite !fmax2_of_int. reflexivity.
  - discriminate.
Defined.

(** ** A scoring pass *)

Section PassOutcome.

Import Pandas.
Local Open Scope list_scope.

Variable argsort : list fval -> list nat.

Lemma enhanced_recommendations_ok (user_skills : string) (df vectorizer : loc)
    (w : Weights) (h : heap) (frame : DataFrame) (v : Sklearn.TfidfVectorizer)
    (docs : list cell) (scores : list R) (smin : list fval) :
  h !! df = Some (Frame frame) ->
  h !! vectorizer = Some (Vectorizer v) ->
  getitem "required_skills" frame = Ok docs ->
  skill_scores v user_skills docs = Ok scores ->
  floats "salary_min" frame = Ok smin ->
  enhanced_recommendations argsort user_skills df vectorizer w h
  = (Ok (take (nargsort_desc argsort (pass_scores w scores smin))
           (pass_frame w frame scores smin)),
     <[df := Frame (pass_frame w frame scores smin)]> h).
Proof. apply enhanced_recommendations_run. Qed.

(** what a pass that returns was given, and what a pass that raises leaves *)
Lemma enhanced_recommendations_inv (user_skills : string) (df vectorizer : loc)
    (w : Weights) (h h' : heap) (r : result DataFrame) :
  enhanced_recommendations argsort user_skills df vectorizer w h = (r, h') ->
  match r with
  | Ok out =>
      exists (frame : DataFrame) (v : Sklearn.TfidfVectorizer) (docs : list cell)
             (scores : list R) (smin : list fval),
        h !! df = Some (Frame frame) /\
        h !! vectorizer = Some (Vectorizer v) /\
        getitem "required_skills" frame = Ok docs /\
        skill_scores v user_skills docs = Ok scores /\
        floats "salary_min" frame = Ok smin /\
        out = take (nargsort_desc argsort (pass_scores w scores smin))
                (pass_frame w frame scores smin) /\
        h' = <[df := Frame (pass_frame w frame scores smin)]> h
  | Raise _ => h' = h
  end.
Proof.
  destruct (h !! df) as [[frame|v0]|] eqn:Hdf.
  2,3: unfold enhanced_recommendations; rewrite bind_run; unfold read_frame at 1;
       rewrite Hdf; intros [= <- <-]; reflexivity.
  destruct (h !! vectorizer) as [[f0|v]|] eqn:Hv.
  1,3: unfold enhanced_recommendations; rewrite bind_run; unfold read_frame at 1;
       rewrite Hdf, bind_run; unfold read_vectorizer;
       rewrite Hv; intros [= <- <-]; reflexivity.
  destruct (getitem "required_skills" frame) as [docs|e] eqn:Hdocs.
  2: unfold enhanced_recommendations; rewrite bind_run; unfold read_frame at 1;
     rewrite Hdf, bind_run; unfold read_vectorizer; rewrite Hv, bind_run;
     unfold lift at 1; rewrite Hdocs; intros [= <- <-]; reflexivity.
  destruct (skill_scores v user_skills docs) as [scores|e] eqn:Hscores.
  2: unfold enhanced_recommendations; rewrite bind_run; unfold read_frame at 1;
     rewrite Hdf, bind_run; unfold read_vectorizer; rewrite Hv, bind_run;
     unfold lift at 1; rewrite Hdocs, bind_run; unfold lift at 1;
     rewrite Hscores; intros [= <- <-]; reflexivity.
  destruct (floats "salary_min" frame) as [smin|e] eqn:Hsmin.
  - rewrite (enhanced_recommendations_ok user_skills df vectorizer w h frame v docs
               scores smin) by assumption.
    intros [= <- <-]. exists frame, v, docs, scores, smin. now repeat split.
  - unfold enhanced_recommendations; rewrite bind_run; unfold read_frame at 1;
      rewrite Hdf, bind_run; unfold read_vectorizer; rewrite Hv, bind_run;
      unfold lift at 1; rewrite Hdocs, bind_run; unfold lift at 1;
      rewrite Hscores, bind_run.
    unfold normalize_salary. rewrite bind_run. unfold read_frame at 1.
    rewrite Hdf, bind_run. unfold lift at 1. rewrite Hsmin.
    intros [= <- <-]; reflexivity.
Qed.

End PassOutcome.

(** X14.  A scoring pass that returns was handed a frame and a vectorizer,
    and the frame has a skills column of texts and a salary column of numbers
    and nulls; on a frame with at least one row that is also enough for it to
    return.  When it raises, it has written nothing: the heap is as it
    was.  (A frame without rows is left aside here and below: scikit-learn
    refuses a matrix without rows, which the embedding of the similarity
    does not show.) *)
Theorem enhanced_recommendations_all_or_nothing (argsort : list fval -> list nat)
    (user_skills : string) (df vectorizer : loc) (w : Weights) (h : heap) :
  (forall (out : DataFrame) (h' : heap),
      enhanced_recommendations argsort user_skills df vectorizer w h = (Ok out, h') ->
      exists (frame : DataFrame) (v : Sklearn.TfidfVectorizer) (texts : list string)
             (smin : list fval),
        h !! df = Some (Frame frame) /\
        h !! vectorizer = Some (Vectorizer v) /\
        Pandas.getitem "required_skills" frame = Ok (List.map Str texts) /\
        floats "salary_min" frame = Ok smin) /\
  (forall (frame : DataFrame) (v : Sklearn.TfidfVectorizer) (texts : list string)
          (smin : list fval),
      frame <> [] ->
      h !! df = Some (Frame frame) ->
      h !! vectorizer = Some (Vectorizer v) ->
      Pandas.getitem "required_skills" frame = Ok (List.map Str texts) ->
      floats "salary_min" frame = Ok smin ->
      exists (out : DataFrame) (h' : heap),
        enhanced_recommendations argsort user_skills df vectorizer w h = (Ok out, h')) /\
  (forall (e : exn) (h' : heap),
      enhanced_recommendations argsort user_skills df vectorizer w h = (Raise e, h') ->
      h' = h).
Proof.
  split; [|split].
  - intros out h' E.
    apply enhanced_recommendations_inv in E
      as (frame & v & docs & scores & smin & H1 & H2 & H3 & H4 & H5 & _).
    apply skill_scores_inv in H4 as (texts & -> & _).
    now exists frame, v, texts, smin.
  - intros frame v texts smin Hne H1 H2 H3 H4.
    assert (Ht : texts <> []).
    { intros ->. apply getitem_length in H3.
      destruct frame; [congruence | discriminate]. }
    eexists _, _.
    apply (enhanced_recommendations_ok argsort user_skills df vectorizer w h frame v
             _ _ smin H1 H2 H3 (skill_scores_texts v user_skills texts Ht) H4).
  - intros e h' E. exact (enhanced_recommendations_inv _ _ _ _ _ _ _ _ E).
Qed.

Section PassScores.

Import Pandas.
Local Open Scope list_scope.

Lemma match_score_null (w : Weights) (s : fval) : match_score w s NaN = NaN.
Proof.
  unfold match_score.
  destruct (skills w) as [a| | |], s as [x| | |], (salary w) as [b| | |]; simpl;
    try reflexivity;
    unfold signed_inf; repeat destruct (Req_dec_T _ _); repeat destruct (Rlt_dec _ _);
    reflexivity.
Qed.

Lemma zip_with_const_r {A B C} (f : A -> B -> C) (c : C) (b : B) (xs : list A)
    (ys : list B) :
  (forall x, f x b = c) -> Forall (fun y => y = b) ys -> length xs = length ys ->
  zip_with f xs ys = List.map (fun _ => c) xs.
Proof.
  intros Hf Hall. revert xs. induction Hall as [|y ys -> _ IH]; intros [|x xs] Hl;
    try discriminate; simpl; [reflexivity|].
  rewrite Hf, IH; [reflexivity | now injection Hl].
Qed.

Lemma select_all_false {A} (mask : list bool) (l : list A) :
  Forall (fun b => b = false) mask -> select mask l = [].
Proof.
  intros H. revert l. induction H as [|b mask -> _ IH]; intros [|x l];
    try reflexivity. exact (IH l).
Qed.

Lemma select_all_true {A} (mask : list bool) (l : list A) :
  Forall (fun b => b = true) mask -> length mask = length l -> select mask l = l.
Proof.
  intros H. revert l. induction H as [|b mask -> _ IH]; intros [|x l] Hl;
    try discriminate; try reflexivity.
  unfold select in *. simpl. f_equal. apply IH. now injection Hl.
Qed.

Lemma take_of_nothing {A} (ix : list nat) : take ix (@nil A) = [].
Proof. unfold take. induction ix as [|i ix IH]; simpl; [reflexivity | exact IH]. Qed.

(** when every key is null the indexer is the identity, whatever the sort *)
Lemma nargsort_desc_all_null (argsort : list fval -> list nat) (items : list fval) :
  Forall (fun x => x = NaN) items ->
  nargsort_desc argsort items = seq 0 (length items).
Proof.
  intros H. unfold nargsort_desc, nonzero.
  assert (Hm : Forall (fun b => b = true) (List.map isnan items)).
  { apply List.Forall_map. eapply Forall_impl; [exact H|]. now intros x ->. }
  assert (Hn : Forall (fun b => b = false) (List.map negb (List.map isnan items))).
  { apply List.Forall_map. eapply Forall_impl; [exact Hm|]. now intros b ->. }
  rewrite !(select_all_false _ _ Hn). simpl.
  rewrite take_of_nothing. simpl.
  rewrite List.length_map.
  apply select_all_true; [exact Hm|]. now rewrite List.length_map, List.length_seq.
Qed.

Lemma salary_score_length (smin : list fval) :
  length (salary_score smin) = length smin.
Proof. unfold salary_score. now rewrite List.length_map. Qed.

Lemma pass_scores_length (w : Weights) (scores : list R) (smin : list fval) :
  length scores = length smin ->
  length (pass_scores w scores smin) = length smin.
Proof.
  intros H. unfold pass_scores.
  rewrite length_zip_with, List.length_map, salary_score_length. lia.
Qed.

Section PassFrame.

Variables (w : Weights) (frame : DataFrame) (scores : list R) (smin : list fval).
Hypothesis smin_length : length smin = length frame.
Hypothesis scores_length : length scores = length frame.

Lemma with_salary_score_length : length (with_salary_score frame smin) = length frame.
Proof.
  unfold with_salary_score. apply setitem_length.
  now rewrite List.length_map, salary_score_length.
Qed.

Lemma pass_frame_length : length (pass_frame w frame scores smin) = length frame.
Proof.
  unfold pass_frame, with_match_score.
  rewrite setitem_length; [apply with_salary_score_length|].
  rewrite List.length_map, pass_scores_length, with_salary_score_length; lia.
Qed.

Lemma pass_frame_scored : scored frame (pass_frame w frame scores smin).
Proof.
  unfold pass_frame, with_match_score.
  apply scored_trans with (f2 := with_salary_score frame smin).
  - unfold with_salary_score. apply scored_setitem; [now left|].
    now rewrite List.length_map, salary_score_length.
  - apply scored_setitem; [now right|].
    rewrite List.length_map, pass_scores_length, with_salary_score_length; lia.
Qed.

Lemma pass_frame_floats :
  floats "match_score" (pass_frame w frame scores smin)
  = Ok (pass_scores w scores smin).
Proof.
  unfold pass_frame, with_match_score. apply floats_setitem.
  rewrite pass_scores_length, with_salary_score_length; lia.
Qed.

End PassFrame.

Lemma scored_labels (frame frame' : DataFrame) :
  scored frame frame' -> List.map label frame' = List.map label frame.
Proof.
  induction 1 as [|r r' l l' [E _] _ IH]; simpl; [reflexivity|].
  now rewrite E, IH.
Qed.

End PassScores.

(** X15.  On a frame with at least one row whose salary figures do not
    differ (all equal, a single row, or no figure at all) every match score
    is [nan], whatever the skills and the weights, and the pass returns the
    rows in the order of the frame: the skills of the user then play no part
    in the ranking, and neither does the sort. *)
Theorem equal_salaries_keep_table_order (argsort : list fval -> list nat)
    (user_skills : string) (df vectorizer : loc) (w : Weights) (h : heap)
    (frame : DataFrame) (v : Sklearn.TfidfVectorizer) (docs : list cell)
    (scores : list R) (xs : list (option Z)) :
  frame <> [] ->
  h !! df = Some (Frame frame) ->
  h !! vectorizer = Some (Vectorizer v) ->
  Pandas.getitem "required_skills" frame = Ok docs ->
  skill_scores v user_skills docs = Ok scores ->
  floats "salary_min" frame = Ok (List.map salary_float xs) ->
  nanmax (List.map salary_float xs) = nanmin (List.map salary_float xs) ->
  exists out : DataFrame,
    enhanced_recommendations argsort user_skills df vectorizer w h
    = (Ok out, <[df := Frame out]> h) /\
    List.map label out = List.map label frame /\
    floats "match_score" out = Ok (List.map (fun _ => NaN) xs) /\
    scored frame out.
Proof.
  intros _ Hdf Hv Hdocs Hscores Hsmin Heq.
  pose proof (enhanced_recommendations_ok argsort user_skills df vectorizer w h
                frame v docs scores _ Hdf Hv Hdocs Hscores Hsmin) as Hrun.
  assert (Lx : length xs = length frame).
  { apply floats_length in Hsmin. now rewrite List.length_map in Hsmin. }
  assert (Ls : length scores = length frame).
  { rewrite (skill_scores_length _ _ _ _ Hscores).
    now apply getitem_length in Hdocs. }
  assert (Hms : pass_scores w scores (List.map salary_float xs)
                = List.map (fun _ => NaN) xs).
  { unfold pass_scores. rewrite (salary_score_degenerate xs Heq).
    rewrite (zip_with_const_r (match_score w) NaN NaN).
    - clear -Lx Ls. assert (L : length scores = length xs) by lia. clear Lx Ls.
      revert xs L. induction scores as [|s scores IH]; intros [|x xs] L;
        try discriminate; simpl; [reflexivity|].
      f_equal. apply IH. now injection L.
    - intros x. apply match_score_null.
    - apply List.Forall_map, List.Forall_forall. reflexivity.
    - rewrite !List.length_map. lia. }
  assert (Ll : length (List.map salary_float xs) = length frame)
    by now rewrite List.length_map.
  exists (pass_frame w frame scores (List.map salary_float xs)).
  repeat split.
  - rewrite Hrun. f_equal. f_equal.
    rewrite nargsort_desc_all_null.
    + rewrite Hms, List.length_map, Lx.
      rewrite <- (pass_frame_length w frame scores _ Ll Ls) at 1.
      apply take_seq.
    + rewrite Hms. apply List.Forall_map, List.Forall_forall. reflexivity.
  - apply scored_labels. now apply pass_frame_scored.
  - rewrite <- Hms. now apply pass_frame_floats.
  - now apply pass_frame_scored.
Qed.

Lemma equal_salaries_keep_table_order_witness :
  exists v : Sklearn.TfidfVectorizer,
    Sklearn.fit sample_stop_words sample_corpus = Ok v /\
    exists out : DataFrame,
      enhanced_recommendations Argsort.reversing_ties "python, pandas" 0%nat 1%nat
        unit_weights (<[1%nat := Vectorizer v]> level_heap)
      = (Ok out, <[0%nat := Frame out]> (<[1%nat := Vectorizer v]> level_heap)) /\
      List.map label out = [0; 1]%nat.
Proof.
  eexists. split; [reflexivity|].
  match goal with
  | |- context [Vectorizer ?v] =>
      destruct (equal_salaries_keep_table_order Argsort.reversing_ties
                  "python, pandas" 0%nat 1%nat unit_weights
                  (<[1%nat := Vectorizer v]> level_heap) level_jobs v
                  [Str "java, spring"; Str "python, pandas"]
                  (List.map (fun d => Sklearn.cosine
                                        (Sklearn.embed v "python, pandas")
                                        (Sklearn.embed v d))
                     ["java, spring"; "python, pandas"])
                  [Some 50000%Z; Some 50000%Z])
        as (out & Hrun & Hlabels & _)
  end.
  - discriminate.
  - reflexivity.
  - apply lookup_insert_eq.
  - reflexivity.
  - apply (skill_scores_texts _ "python, pandas" ["java, spring"; "python, pandas"]).
    discriminate.
  - reflexivity.
  - exact equal_extremes_sample.
  - exists out. split; [exact Hrun | exact Hlabels].
Defined.

Section Bounds.

Local Open Scope list_scope.
Local Open Scope R_scope.

Lemma weighted_sum_nonneg (a b s t : R) :
  0 <= a -> 0 <= b -> 0 <= s -> 0 <= t -> 0 <= a * s + b * t.
Proof. intros. nra. Qed.

End Bounds.

(** X16.  With weights that are not negative, in a fitted space and on a
    salary column with two different figures, the match score of a row with a
    salary figure is a number that is not negative; the match score of a row
    without a figure is [nan], whatever the weights, a salary weight of 0
    included. *)
Theorem pass_scores_nonnegative (english : list string) (corpus : list cell)
    (v : Sklearn.TfidfVectorizer) (user_skills : string) (texts : list string)
    (xs : list (option Z)) (lo hi : Z) (w : Weights) (a b : R) :
  Sklearn.fit english corpus = Ok v ->
  length texts = length xs ->
  nanmin (List.map salary_float xs) = of_int lo ->
  nanmax (List.map salary_float xs) = of_int hi ->
  lo <> hi ->
  skills w = Fin a -> salary w = Fin b -> (0 <= a)%R -> (0 <= b)%R ->
  exists scores : list R,
    skill_scores v user_skills (List.map Str texts) = Ok scores /\
    Forall2 figure_match xs (pass_scores w scores (List.map salary_float xs)).
Proof.
  intros Hfit Hlen Hlo Hhi Hne Ha Hb Ha0 Hb0.
  assert (Ht : texts <> []).
  { intros ->. destruct xs; [|discriminate Hlen].
    unfold nanmin in Hlo. simpl in Hlo. discriminate Hlo. }
  eexists. split; [now apply skill_scores_texts|].
  unfold pass_scores.
  rewrite (salary_score_scaled xs lo hi Hlo Hhi Hne).
  destruct (extremes_spec xs lo hi Hlo Hhi) as (_ & _ & Hb').
  pose proof (fitted_idf_nonneg _ _ _ Hfit) as Hidf.
  clear Hlo Hhi Ht. revert texts Hlen.
  induction xs as [|o xs IH]; intros [|d texts] Hlen; try discriminate; simpl.
  - constructor.
  - constructor.
    + destruct o as [z|]; simpl.
      * unfold match_score. rewrite Ha, Hb. simpl. eexists. split; [reflexivity|].
        apply weighted_sum_nonneg; try assumption.
        -- apply cosine_nonneg; now apply embed_nonneg.
        -- apply scaled_unit; [|assumption]. apply Hb'. now left.
      * apply match_score_null.
    + apply IH; [|now injection Hlen].
      intros z Hz. apply Hb'. now right.
Qed.

Lemma pass_scores_nonnegative_witness :
  exists (v : Sklearn.TfidfVectorizer) (scores : list R),
    Sklearn.fit sample_stop_words sample_corpus = Ok v /\
    skill_scores v "python, pandas"
      (List.map Str ["python, sql"; "java, spring"; "python, pandas"]) = Ok scores /\
    Forall2 figure_match [Some 40000%Z; None; Some 50000%Z]
      (pass_scores unit_weights scores
         (List.map salary_float [Some 40000%Z; None; Some 50000%Z])).
Proof.
  eexists.
  match goal with
  | |- exists scores, Sklearn.fit _ _ = Ok ?v /\ _ =>
      destruct (pass_scores_nonnegative sample_stop_words sample_corpus v
                  "python, pandas" ["python, sql"; "java, spring"; "python, pandas"]
                  [Some 40000%Z; None; Some 50000%Z] 40000 50000 unit_weights 1 1)
        as (scores & H1 & H2)
  end.
  - reflexivity.
  - reflexivity.
  - unfold nanmin. simpl. rewrite !fmin2_of_int. reflexivity.
  - unfold nanmax. simpl. rewrite !fmax2_of_int. reflexivity.
  - discriminate.
  - reflexivity.
  - reflexivity.
  - lra.
  - lra.
  - exists scores. split; [reflexivity|]. split; [exact H1 | exact H2].
Defined.

(** ** The cards of the first ten recommendations *)

Section TopTen.

Local Open Scope list_scope.

Lemma mapM_result_raise {A B} (f : A -> result B) (l : list A) (e : exn) :
  mapM_result f l = Raise e <->
  exists (i : nat) (x : A),
    l !! i = Some x /\ f x = Raise e /\
    forall (j : nat) (y : A), (j < i)%nat -> l !! j = Some y -> exists b, f y = Ok b.
Proof.
  induction l as [|x l IH]; simpl.
  - split; [discriminate|]. intros (i & y & H & _). discriminate.
  - destruct (f x) as [b|e'] eqn:Hx.
    + destruct (mapM_result f l) as [ys|e'] eqn:Hl.
      * split; [discriminate|]. intros (i & y & Hi & Hy & Hbefore).
        destruct i as [|i]; [simpl in Hi; congruence|].
        exfalso. assert (K : @Ok (list B) ys = Raise e); [|discriminate].
        apply IH. exists i, y. repeat split; try assumption.
        intros j z Hj Hz. apply (Hbefore (S j) z); [lia | exact Hz].
      * split.
        -- intros [= ->]. destruct (proj1 IH eq_refl) as (i & y & Hi & Hy & Hb).
           exists (S i), y. repeat split; try assumption.
           intros [|j] z Hj Hz; [simpl in Hz; injection Hz as <-; eauto|].
           apply (Hb j z); [lia | exact Hz].
        -- intros (i & y & Hi & Hy & Hbefore).
           destruct i as [|i]; [simpl in Hi; congruence|].
           apply IH. exists i, y. repeat split; try assumption.
           intros j z Hj Hz. apply (Hbefore (S j) z); [lia | exact Hz].
    + split.
      * intros [= ->]. exists 0%nat, x. repeat split; [assumption|]. intros j y Hj. lia.
      * intros (i & y & Hi & Hy & Hbefore).
        destruct i as [|i].
        -- simpl in Hi. injection Hi as <-. congruence.
        -- destruct (Hbefore 0%nat x) as [b Hb]; [lia | reflexivity | congruence].
Qed.

Lemma head_of_ten (before after : DataFrame) :
  length before = 10%nat -> head 10 (before ++ after) = before.
Proof.
  intros H. unfold head. rewrite <- H. rewrite firstn_app, Nat.sub_diag.
  rewrite firstn_all. simpl. apply app_nil_r.
Qed.

End TopTen.

(** X17.  The page draws a card for each of the first ten recommendations and
    for no other: there are as many cards as recommendations, but never more
    than ten, the cards are those of the first rows in their order, the rows
    after the tenth are not read, and when a card cannot be drawn the
    exception is that of the first such row among the first ten. *)
Theorem display_recommendations_first_ten (recommendations : DataFrame)
    (user_skills : string) :
  (forall cards : list Card,
      display_recommendations recommendations user_skills = Ok cards ->
      length cards = Nat.min 10 (length recommendations) /\
      Forall2 (fun job card => display_job_card job user_skills = Ok card)
        (head 10 recommendations) cards) /\
  (forall after : DataFrame,
      length recommendations = 10%nat ->
      display_recommendations (recommendations ++ after)%list user_skills
      = display_recommendations recommendations user_skills) /\
  (forall e : exn,
      display_recommendations recommendations user_skills = Raise e ->
      exists (i : nat) (job : Row),
        (i < 10)%nat /\ recommendations !! i = Some job /\
        display_job_card job user_skills = Raise e /\
        forall (j : nat) (earlier : Row),
          (j < i)%nat -> recommendations !! j = Some earlier ->
          exists card, display_job_card earlier user_skills = Ok card).
Proof.
  unfold display_recommendations. repeat split.
  - apply mapM_result_length in H. rewrite H. unfold head.
    apply List.length_firstn.
  - now apply mapM_result_inv.
  - intros after H. rewrite head_of_ten by assumption.
    unfold head. now rewrite <- H, firstn_all.
  - intros e H. apply mapM_result_raise in H as (i & job & Hi & Hjob & Hbefore).
    unfold head in *.
    assert (Hlt : (i < 10)%nat).
    { apply lookup_lt_Some in Hi. rewrite List.length_firstn in Hi. lia. }
    exists i, job. repeat split; try assumption.
    + now rewrite lookup_take_lt in Hi by assumption.
    + intros j earlier Hj He. apply (Hbefore j earlier Hj).
      rewrite lookup_take_lt by lia. exact He.
Qed.

Section RankedCards.

Import Pandas.
Local Open Scope list_scope.

Lemma setitem_cells (name : string) (vals : list cell) (df : DataFrame) :
  length vals = length df ->
  Forall2 (fun r c => fields r !! name = Some c) (setitem name vals df) vals.
Proof.
  unfold setitem. revert vals. induction df as [|r df IH]; intros [|c vals] H;
    try discriminate; simpl; constructor.
  - apply lookup_insert_eq.
  - apply IH. now injection H.
Qed.

Lemma Forall2_map_r {A B C} (P : A -> C -> Prop) (f : B -> C) (l : list A)
    (k : list B) :
  Forall2 P l (List.map f k) <-> Forall2 (fun x y => P x (f y)) l k.
Proof.
  revert l. induction k as [|y k IH]; intros l; simpl.
  - split; intros H; inversion H; constructor.
  - split; intros H; inversion H; subst; constructor; try assumption; now apply IH.
Qed.

Lemma getitem_texts (name : string) (df : DataFrame) (texts : list string) :
  getitem name df = Ok (List.map Str texts) ->
  Forall (fun r => exists d, fields r !! name = Some (Str d)) df.
Proof.
  intros H. apply mapM_result_inv in H. apply Forall2_map_r in H.
  induction H as [|r d df texts Hr _ IH]; constructor; [|exact IH].
  exists d. destruct (fields r !! name); congruence.
Qed.

Lemma ranks_before_percent (x y : fval) :
  ranks_before x y -> ranks_before (fmul x (Fin 100)) (fmul y (Fin 100)).
Proof.
  assert (H100 : (0 < 100)%R) by lra.
  unfold ranks_before.
  destruct x as [a| | |], y as [b| | |]; simpl;
    unfold signed_inf;
    repeat (destruct (Req_dec_T 100 0) as [E|_]; [exfalso; lra|]);
    repeat (destruct (Rlt_dec 0 100) as [_|E]; [|exfalso; lra]);
    simpl; intros [H|H]; try discriminate; try contradiction; auto.
  left. lra.
Qed.

Lemma StronglySorted_firstn {A} (R : relation A) (n : nat) (l : list A) :
  StronglySorted R l -> StronglySorted R (firstn n l).
Proof.
  intros H. revert n. induction H as [|x l Hl IH Hx]; intros [|n]; simpl;
    try constructor.
  - apply IH.
  - rewrite List.Forall_forall in *. intros y Hy. apply Hx.
    apply list_elem_of_In. apply list_elem_of_In in Hy.
    exact (subseteq_take n l y Hy).
Qed.

Lemma StronglySorted_Forall2 {A B} (R : relation A) (R' : relation B)
    (Q : A -> B -> Prop) (l : list A) (k : list B) :
  (forall x y x' y', Q x x' -> Q y y' -> R x y -> R' x' y') ->
  Forall2 Q l k -> StronglySorted R l -> StronglySorted R' k.
Proof.
  intros HQ H. induction H as [|x x' l k Hx Hl IH]; intros S; [constructor|].
  apply StronglySorted_inv in S as [S Hall]. constructor; [now apply IH|].
  clear IH S. induction Hl as [|y y' l k Hy _ IH]; [constructor|].
  apply Forall_cons in Hall as [Hxy Hall]. constructor; [|now apply IH].
  exact (HQ x y x' y' Hx Hy Hxy).
Qed.

(** a row that a pass has scored and that has the columns of an
    advertisement can be drawn *)
Lemma display_scored_job (job : Row) (user_skills d : string) (k : fval) :
  advertised job ->
  fields job !! "match_score" = Some (Float k) ->
  fields job !! "required_skills" = Some (Str d) ->
  exists card : Card,
    display_job_card job user_skills = Ok card /\
    card_match card = fmul k (Fin 100).
Proof.
  intros Ha Hk Hd. unfold advertised, advert_columns in Ha.
  apply Forall_cons in Ha as [[title H1] Ha].
  apply Forall_cons in Ha as [[company H2] Ha].
  apply Forall_cons in Ha as [[location H3] Ha].
  apply Forall_cons in Ha as [[range H4] Ha].
  apply Forall_cons in Ha as [[description H5] _].
  unfold display_job_card, item, mbind, result_bind.
  rewrite H1, H2, H3, H4, Hk. simpl. rewrite Hd. simpl. rewrite H5.
  eexists. split; reflexivity.
Qed.

Lemma advertised_scored (r r' : Row) :
  (forall c : string,
      c <> "salary_score" -> c <> "match_score" -> fields r' !! c = fields r !! c) ->
  advertised r -> advertised r'.
Proof.
  intros H Ha. unfold advertised, advert_columns in *.
  repeat match goal with
         | K : Forall _ (_ :: _) |- _ => apply Forall_cons in K as [? K]
         end.
  repeat constructor; rewrite H by discriminate; assumption.
Qed.

Lemma display_rows {A} (P : Row -> A -> Prop) (Q : Card -> A -> Prop)
    (user_skills : string) (rows : DataFrame) (keys : list A) :
  (forall r k, P r k ->
               exists card, display_job_card r user_skills = Ok card /\ Q card k) ->
  Forall2 P rows keys ->
  exists cards : list Card,
    mapM_result (fun job => display_job_card job user_skills) rows = Ok cards /\
    Forall2 Q cards keys.
Proof.
  intros HP H. induction H as [|r k rows keys Hr _ (cards & E & F)]; simpl.
  - exists []. split; [reflexivity | constructor].
  - destruct (HP r k Hr) as (card & Ec & Hq). rewrite Ec, E.
    exists (card :: cards). split; [reflexivity | now constructor].
Qed.

End RankedCards.

(** X18.  When the frame has at least one row and its rows have the columns
    of an advertisement, a pass is followed by cards that can all be drawn: there are
    as many as there are rows, but at most ten; each shows the match score of
    its row times 100, and they come in descending order of match, the cards
    without a match score last. *)
Theorem ranked_cards (argsort : list fval -> list nat) (user_skills : string)
    (df vectorizer : loc) (w : Weights) (h : heap) (frame : DataFrame)
    (v : Sklearn.TfidfVectorizer) (texts : list string) (smin : list fval) :
  sorts argsort ->
  frame <> [] ->
  h !! df = Some (Frame frame) ->
  h !! vectorizer = Some (Vectorizer v) ->
  Pandas.getitem "required_skills" frame = Ok (List.map Str texts) ->
  floats "salary_min" frame = Ok smin ->
  Forall advertised frame ->
  exists (out : DataFrame) (h' : heap) (keys : list fval) (cards : list Card),
    enhanced_recommendations argsort user_skills df vectorizer w h = (Ok out, h') /\
    floats "match_score" out = Ok keys /\
    display_recommendations out user_skills = Ok cards /\
    length cards = Nat.min 10 (length frame) /\
    Forall2 (fun card k => card_match card = fmul k (Fin 100)) cards (firstn 10 keys) /\
    StronglySorted better_card cards.
Proof.
  intros Hsorts Hne Hdf Hv Hdocs Hsmin Hadv.
  assert (Ht : texts <> []).
  { intros ->. apply getitem_length in Hdocs.
    destruct frame; [congruence | discriminate]. }
  pose proof (skill_scores_texts v user_skills texts Ht) as Hscores.
  set (scores := List.map (fun d => Sklearn.cosine (Sklearn.embed v user_skills)
                                      (Sklearn.embed v d)) texts) in *.
  pose proof (enhanced_recommendations_ok argsort user_skills df vectorizer w h
                frame v _ scores smin Hdf Hv Hdocs Hscores Hsmin) as Hrun.
  assert (Ll : length smin = length frame) by now apply floats_length in Hsmin.
  assert (Ls : length scores = length frame).
  { rewrite (skill_scores_length _ _ _ _ Hscores).
    now apply getitem_length in Hdocs. }
  set (ms := pass_scores w scores smin) in *.
  set (frame' := pass_frame w frame scores smin) in *.
  set (ix := Pandas.nargsort_desc argsort ms) in *.
  assert (Lms : length ms = length frame).
  { unfold ms. rewrite pass_scores_length; lia. }
  assert (Lf : length frame' = length frame) by now apply pass_frame_length.
  pose proof (pass_frame_scored w frame scores smin Ll Ls) as Hsc.
  fold frame' in Hsc.
  pose proof (pass_frame_floats w frame scores smin Ll Ls) as Hfl.
  fold frame' ms in Hfl.
  (* every row of the frame that the pass leaves can be drawn *)
  assert (Hrows : Forall2 (fun r k =>
                             advertised r /\
                             fields r !! "match_score" = Some (Float k) /\
                             exists d, fields r !! "required_skills" = Some (Str d))
                    frame' ms).
  { apply Forall2_same_length_lookup. split; [lia|].
    intros i r' k Hr' Hk.
    destruct (Forall2_lookup_r _ _ _ _ _ Hsc Hr') as (r & Hr & _ & Hcols).
    split; [|split].
    - apply (advertised_scored r r' Hcols).
      rewrite List.Forall_forall in Hadv. apply Hadv.
      apply list_elem_of_In. eapply list_elem_of_lookup_2. exact Hr.
    - assert (Hc : Forall2 (fun r c => fields r !! "match_score" = Some c)
                     frame' (List.map Float ms)).
      { unfold frame', pass_frame, with_match_score. apply setitem_cells.
        rewrite List.length_map. fold ms.
        rewrite with_salary_score_length; lia. }
      apply Forall2_map_r in Hc.
      eapply Forall2_lookup_lr in Hc; [exact Hc | exact Hr' | exact Hk].
    - apply getitem_texts in Hdocs. rewrite List.Forall_forall in Hdocs.
      destruct (Hdocs r) as [d Hd].
      { apply list_elem_of_In. eapply list_elem_of_lookup_2. exact Hr. }
      exists d. rewrite Hcols by discriminate. exact Hd. }
  assert (Hout : Forall2 (fun r k =>
                            advertised r /\
                            fields r !! "match_score" = Some (Float k) /\
                            exists d, fields r !! "required_skills" = Some (Str d))
                   (firstn 10 (Pandas.take ix frame'))
                   (firstn 10 (Pandas.take ix ms))).
  { apply Forall2_take. now apply Forall2_take_rows. }
  destruct (display_rows _ (fun card k => card_match card = fmul k (Fin 100))
              user_skills _ _
              (fun r k '(conj Ha (conj Hk (ex_intro _ d Hd))) =>
                 display_scored_job r user_skills d k Ha Hk Hd) Hout)
    as (cards & Hcards & Hmatch).
  exists (Pandas.take ix frame'), (<[df := Frame frame']> h),
         (Pandas.take ix ms), cards.
  split; [exact Hrun|]. split; [now apply floats_take|].
  split; [exact Hcards|]. split; [|split].
  - apply mapM_result_length in Hcards. rewrite Hcards.
    unfold head. rewrite List.length_firstn. f_equal.
    rewrite <- Lf. apply Permutation_length, take_permutation.
    unfold ix. rewrite Lf, <- Lms. now apply nargsort_desc_permutation.
  - exact Hmatch.
  - apply (StronglySorted_Forall2 ranks_before better_card
             (fun k card => card_match card = fmul k (Fin 100))
             (firstn 10 (Pandas.take ix ms)) cards).
    + intros x y c1 c2 H1 H2 Hxy. unfold better_card. rewrite H1, H2.
      now apply ranks_before_percent.
    + apply Forall2_flip. exact Hmatch.
    + apply StronglySorted_firstn. now apply nargsort_desc_sorted.
Qed.

Lemma ranked_cards_witness :
  exists v : Sklearn.TfidfVectorizer,
    Sklearn.fit sample_stop_words sample_corpus = Ok v /\
    exists (out : DataFrame) (h' : heap) (cards : list Card),
      enhanced_recommendations Argsort.keeping_ties "python, pandas" 0%nat 1%nat
        unit_weights (<[1%nat := Vectorizer v]> advert_heap)
      = (Ok out, h') /\
      display_recommendations out "python, pandas" = Ok cards /\
      length cards = 3%nat /\
      StronglySorted better_card cards.
Proof.
  eexists. split; [reflexivity|].
  match goal with
  | |- context [Vectorizer ?v] =>
      destruct (ranked_cards Argsort.keeping_ties "python, pandas" 0%nat 1%nat
                  unit_weights (<[1%nat := Vectorizer v]> advert_heap) advert_jobs v
                  ["python, sql"; "java, spring"; "python, pandas"]
                  [of_int 40000; NaN; of_int 50000])
        as (out & h' & keys & cards & Hrun & _ & Hcards & Hlen & _ & Hsorted)
  end.
  - exact keeping_ties_sorts.
  - discriminate.
  - reflexivity.
  - apply lookup_insert_eq.
  - reflexivity.
  - reflexivity.
  - repeat constructor; eexists; reflexivity.
  - exists out, h', cards.
    split; [exact Hrun|]. split; [exact Hcards|]. split; [exact Hlen | exact Hsorted].
Defined.

(** ** The filters of the page *)

Section FilterFacts.

Import Pandas.
Local Open Scope list_scope.

Lemma getitem_cells (name : string) (df : DataFrame) (col : list cell) :
  getitem name df = Ok col ->
  col = List.map (fun r => default Null (fields r !! name)) df.
Proof.
  intros H. apply mapM_result_inv in H.
  induction H as [|r c df col Hr _ IH]; simpl; [reflexivity|].
  destruct (fields r !! name); [|discriminate].
  injection Hr as <-. now rewrite IH.
Qed.

Lemma getitem_listed (name : string) (df : DataFrame) :
  Forall (fun r => is_Some (fields r !! name)) df ->
  getitem name df = Ok (List.map (fun r => default Null (fields r !! name)) df).
Proof.
  intros H. apply mapM_result_map.
  eapply Forall_impl; [exact H|]. intros r [c Hc]. now rewrite Hc.
Qed.

Lemma select_if_filter (cond : bool) (name : string) (keep : cell -> bool)
    (frame out : DataFrame) :
  select_if cond name keep frame = Ok out ->
  out = List.filter
          (fun r => negb cond || keep (default Null (fields r !! name)))%bool frame.
Proof.
  unfold select_if. destruct cond; simpl.
  - destruct (getitem name frame) as [col|e] eqn:E; [|discriminate].
    simpl. intros [= <-]. apply getitem_cells in E. subst col.
    rewrite List.map_map.
    exact (select_map (fun r => keep (default Null (fields r !! name))) frame).
  - intros [= <-]. induction frame as [|r frame IH]; simpl; [reflexivity|].
    now rewrite <- IH.
Qed.

Lemma select_if_listed (cond : bool) (name : string) (keep : cell -> bool)
    (frame : DataFrame) :
  Forall (fun r => is_Some (fields r !! name)) frame ->
  select_if cond name keep frame
  = Ok (List.filter
          (fun r => negb cond || keep (default Null (fields r !! name)))%bool frame).
Proof.
  intros H. destruct (select_if cond name keep frame) as [out|e] eqn:E.
  - now rewrite (select_if_filter _ _ _ _ _ E).
  - unfold select_if in E. destruct cond; [|discriminate].
    rewrite getitem_listed in E by assumption. discriminate.
Qed.

Lemma filter_filter {A} (f g : A -> bool) (l : list A) :
  List.filter g (List.filter f l) = List.filter (fun x => f x && g x)%bool l.
Proof.
  induction l as [|x l IH]; simpl; [reflexivity|].
  destruct (f x); simpl; [destruct (g x)|]; now rewrite IH.
Qed.

Lemma location_cond (s : Settings) (r : Row) :
  (negb (negb (String.eqb (selected_location s) "All"))
   || eq_text (selected_location s) (default Null (fields r !! "location")))%bool
  = location_ok s r.
Proof. unfold location_ok. now rewrite negb_involutive. Qed.

Lemma filtered_frame_inv (s : Settings) (frame filtered : DataFrame) :
  filtered_frame s frame = Ok filtered ->
  filtered = List.filter (passes s) frame.
Proof.
  unfold filtered_frame.
  destruct (select_if _ "location" _ frame) as [by_location|e] eqn:E1;
    [|discriminate].
  simpl. intros E2.
  apply select_if_filter in E1, E2. subst by_location filtered.
  rewrite filter_filter. apply List.filter_ext. intros r.
  unfold passes. now rewrite location_cond.
Qed.

End FilterFacts.

(** X19.  The two filters of the page keep the rows that are in the selected
    location and of a selected experience level, in the order of the frame;
    the location "All" and an empty selection of levels keep every row, and a
    filter that is switched off does not look for its column. *)
Theorem filtered_frame_filter (s : Settings) (frame : DataFrame) :
  (forall filtered : DataFrame,
      filtered_frame s frame = Ok filtered ->
      filtered = List.filter (passes s) frame) /\
  (Forall listed frame ->
   filtered_frame s frame = Ok (List.filter (passes s) frame)) /\
  (selected_location s = "All" -> experience_levels s = [] ->
   filtered_frame s frame = Ok frame).
Proof.
  split; [apply filtered_frame_inv|]. split.
  - intros H.
    destruct (filtered_frame s frame) as [filtered|e] eqn:E.
    + now rewrite (filtered_frame_inv s frame filtered E).
    + exfalso. unfold filtered_frame in E.
      rewrite select_if_listed in E.
      * simpl in E. rewrite select_if_listed in E; [discriminate|].
        apply List.Forall_forall. intros r Hr. apply List.filter_In in Hr as [Hr _].
        rewrite List.Forall_forall in H. now apply H.
      * eapply Forall_impl; [exact H|]. now intros r [Hr _].
  - intros Hl He. unfold filtered_frame, select_if. now rewrite Hl, He.
Qed.

(** ** The matches of the page *)

(** X20.  When the page returns recommendations, they are the rows of the
    loaded frame that pass the two filters, each once: the number of matches
    that the page reports is the number of those rows, not the number of
    cards, and the rows come in descending order of match score, the null
    scores last. *)
Theorem recommendation_page_matches (argsort : list fval -> list nat)
    (english : list string) (df : loc) (user_skills : string) (s : Settings)
    (h h' : heap) (out : DataFrame) :
  sorts argsort ->
  recommendation_page argsort english df user_skills s h = (Ok out, h') ->
  exists frame : DataFrame,
    h !! df = Some (Frame frame) /\
    Permutation (List.map label out) (List.map label (List.filter (passes s) frame)) /\
    length out = length (List.filter (passes s) frame) /\
    exists keys : list fval,
      floats "match_score" out = Ok keys /\
      StronglySorted ranks_before keys.
Proof.
  intros Hsorts E. unfold recommendation_page in E. rewrite bind_run in E.
  destruct (scoring_inputs english df s h) as [r1 h1] eqn:E1.
  pose proof (scoring_inputs_outcome english df s h h1 r1 E1) as [_ O].
  destruct r1 as [[fl vl]|e]; [|discriminate].
  destruct O as (_ & _ & _ & frame & filtered & docs & v & Hdf & Hfiltered & Hfl & _).
  apply enhanced_recommendations_inv in E
    as (frame0 & v0 & docs0 & scores & smin & H1 & H2 & H3 & H4 & H5 & -> & _).
  assert (frame0 = filtered) as -> by congruence.
  apply filtered_frame_inv in Hfiltered.
  assert (Ll : length smin = length filtered) by now apply floats_length in H5.
  assert (Ls : length scores = length filtered).
  { rewrite (skill_scores_length _ _ _ _ H4). now apply getitem_length in H3. }
  pose proof (pass_frame_length (weights s) filtered scores smin Ll Ls) as Lf.
  assert (P : Permutation
                (Pandas.take (Pandas.nargsort_desc argsort
                                (pass_scores (weights s) scores smin))
                   (pass_frame (weights s) filtered scores smin))
                (pass_frame (weights s) filtered scores smin)).
  { apply take_permutation.
    replace (length (pass_frame (weights s) filtered scores smin))
      with (length (pass_scores (weights s) scores smin))
      by (rewrite pass_scores_length; lia).
    now apply nargsort_desc_permutation. }
  exists frame. rewrite <- Hfiltered. split; [exact Hdf|]. split; [|split].
  - rewrite <- (scored_labels filtered (pass_frame (weights s) filtered scores smin))
      by now apply pass_frame_scored.
    now apply Permutation_map.
  - rewrite <- Lf. now apply Permutation_length.
  - exists (Pandas.take (Pandas.nargsort_desc argsort
                           (pass_scores (weights s) scores smin))
              (pass_scores (weights s) scores smin)).
    split.
    + apply floats_take. now apply pass_frame_floats.
    + now apply nargsort_desc_sorted.
Qed.

Lemma recommendation_page_matches_witness :
  exists (out : DataFrame) (h' : heap),
    recommendation_page Argsort.keeping_ties sample_stop_words 0%nat
      "python, pandas" london_settings loaded_heap = (Ok out, h') /\
    Permutation (List.map label out) [0; 2]%nat /\
    length out = 2%nat.
Proof.
  eexists. eexists. split; [reflexivity|].
  match goal with
  | |- Permutation (List.map label ?out) _ /\ _ =>
      destruct (recommendation_page_matches Argsort.keeping_ties sample_stop_words
                  0%nat "python, pandas" london_settings loaded_heap _ out
                  keeping_ties_sorts eq_refl)
        as (frame & Hdf & Hperm & Hlen & _)
  end.
  assert (E : Some (Frame loaded_jobs) = Some (Frame frame)) by exact Hdf.
  injection E as <-.
  split; [exact Hperm | exact Hlen].
Defined.

(** ** The terms of a text and the fitted vocabulary *)

Section TermFacts.

Import Text Sklearn.
Local Open Scope list_scope.

Lemma every_char_snoc (P : ascii -> bool) (s : string) (c : ascii) :
  every_char P (s ++ String c EmptyString) = (every_char P s && P c)%bool.
Proof.
  induction s as [|x s IH].
  - rewrite append_nil. simpl. now rewrite andb_true_r.
  - rewrite append_cons. simpl. rewrite IH. now rewrite andb_assoc.
Qed.

Lemma length_snoc (s : string) (c : ascii) :
  String.length (s ++ String c EmptyString) = S (String.length s).
Proof.
  induction s as [|x s IH]; [reflexivity|].
  rewrite append_cons. simpl. now rewrite IH.
Qed.

(** the matches of a scan are made of characters of the class, and have
    every property that the characters of the text have *)
Lemma scan_every (cls P : ascii -> bool) (s cur : string) :
  every_char P cur = true ->
  every_char (fun c => implb (cls c) (P c)) s = true ->
  Forall (fun m => every_char P m = true) (scan cls cur s).
Proof.
  revert cur. induction s as [|c s IH]; intros cur Hcur Hs; simpl.
  - destruct cur; simpl; [constructor | constructor; [assumption | constructor]].
  - simpl in Hs. apply andb_true_iff in Hs as [Hc Hs].
    destruct (cls c) eqn:E.
    + apply IH; [|assumption]. rewrite every_char_snoc, Hcur. exact Hc.
    + apply Forall_app. split; [|now apply IH].
      destruct cur; simpl; [constructor | constructor; [assumption | constructor]].
Qed.

Lemma every_char_weaken (P Q : ascii -> bool) (s : string) :
  (forall c, P c = true -> Q c = true) ->
  every_char P s = true -> every_char Q s = true.
Proof.
  intros H. induction s as [|c s IH]; simpl; [trivial|].
  intros K. apply andb_true_iff in K as [Kc Ks].
  now rewrite (H c Kc), IH.
Qed.

Lemma every_char_trivial (P : ascii -> bool) (s : string) :
  (forall c, P c = true) -> every_char P s = true.
Proof.
  intros H. induction s as [|c s IH]; simpl; [reflexivity|]. now rewrite H, IH.
Qed.

Lemma lower_is_lowered (s : string) : every_char is_lowered (lower s) = true.
Proof.
  induction s as [|c s IH]; simpl; [reflexivity|].
  rewrite IH, andb_true_r. unfold is_lowered.
  rewrite lower_char_idem. apply Ascii.eqb_refl.
Qed.

Lemma lowered_lower (s : string) : every_char is_lowered s = true -> lower s = s.
Proof.
  induction s as [|c s IH]; simpl; [reflexivity|].
  intros H. apply andb_true_iff in H as [Hc Hs].
  apply Ascii.eqb_eq in Hc. now rewrite Hc, IH.
Qed.

Lemma analyze_inv (stop_words : list string) (text t : string) :
  In t (analyze stop_words text) ->
  (2 <= String.length t)%nat /\
  every_char is_word t = true /\
  every_char is_lowered t = true /\
  is_stop_word stop_words t = false.
Proof.
  unfold analyze, findall_words. intros H.
  apply List.filter_In in H as [H Hstop].
  apply List.filter_In in H as [H Hlen].
  repeat split.
  - now apply Nat.leb_le in Hlen.
  - pose proof (scan_every is_word is_word (lower text) EmptyString eq_refl) as K.
    rewrite List.Forall_forall in K. apply K; [|assumption].
    apply every_char_trivial. intros c. now destruct (is_word c).
  - pose proof (scan_every is_word is_lowered (lower text) EmptyString eq_refl) as K.
    rewrite List.Forall_forall in K. apply K; [|assumption].
    apply (every_char_weaken is_lowered); [|apply lower_is_lowered].
    intros c ->. now destruct (is_word c).
  - now apply negb_true_iff in Hstop.
Qed.

Lemma analyze_lower (stop_words : list string) (text : string) :
  analyze stop_words (lower text) = analyze stop_words text.
Proof. unfold analyze. now rewrite lower_idem. Qed.

End TermFacts.

(** X21.  A term of an ASCII text has two characters or more, all of them
    letters without capitals, digits or underscores, and is no stop word; a
    skill of a single letter is therefore never a term. *)
Theorem analyze_terms (stop_words : list string) (text t : string) :
  ascii_text text = true ->
  In t (Sklearn.analyze stop_words text) ->
  (2 <= String.length t)%nat /\
  every_char Text.is_word t = true /\
  Text.lower t = t /\
  Sklearn.is_stop_word stop_words t = false.
Proof.
  intros _ H. apply analyze_inv in H as (H1 & H2 & H3 & H4).
  repeat split; try assumption. now apply lowered_lower.
Qed.

Lemma analyze_terms_witness :
  ascii_text "C, R and Machine-Learning" = true /\
  Sklearn.analyze sample_stop_words "C, R and Machine-Learning" = ["machine"; "learning"] /\
  (2 <= String.length "machine")%nat /\
  Text.lower "machine" = "machine".
Proof.
  assert (A : ascii_text "C, R and Machine-Learning" = true) by reflexivity.
  assert (H : In "machine"
                (Sklearn.analyze sample_stop_words "C, R and Machine-Learning"))
    by (left; reflexivity).
  destruct (analyze_terms _ _ _ A H) as (H1 & _ & H3 & _).
  split; [exact A|]. split; [reflexivity|]. split; assumption.
Defined.

Section VocabularyFacts.

Import Sklearn.
Local Open Scope list_scope.

Lemma precedes_trans (a b c : string) : precedes a b -> precedes b c -> precedes a c.
Proof.
  unfold precedes. intros H1 H2.
  apply OrderedTypeEx.String_as_OT.cmp_lt.
  apply OrderedTypeEx.String_as_OT.cmp_lt in H1, H2.
  exact (OrderedTypeEx.String_as_OT.lt_trans _ _ _ H1 H2).
Qed.

Lemma insert_term_In (t u : string) (voc : list string) :
  In u (insert_term t voc) <-> u = t \/ In u voc.
Proof.
  induction voc as [|x voc IH]; simpl.
  - split; [intros [<-|[]]; now left | intros [->|[]]; now left].
  - destruct (String.compare t x) eqn:E; simpl.
    + apply String.compare_eq_iff in E. subst x. intuition congruence.
    + intuition congruence.
    + rewrite IH. intuition congruence.
Qed.

Lemma insert_term_sorted (t : string) (voc : list string) :
  StronglySorted precedes voc -> StronglySorted precedes (insert_term t voc).
Proof.
  induction 1 as [|x voc Hs IH Hx]; simpl.
  - repeat constructor.
  - destruct (String.compare t x) eqn:E.
    + now constructor.
    + constructor; [now constructor|].
      constructor; [exact E|].
      eapply Forall_impl; [exact Hx|]. intros y Hy.
      exact (precedes_trans t x y E Hy).
    + constructor; [exact IH|].
      apply List.Forall_forall. intros y Hy. apply insert_term_In in Hy as [->|Hy].
      * unfold precedes. rewrite String.compare_antisym, E. reflexivity.
      * rewrite List.Forall_forall in Hx. now apply Hx.
Qed.

Lemma build_vocabulary_In (docs : list (list string)) (t : string) :
  In t (build_vocabulary docs) <-> In t (concat docs).
Proof.
  unfold build_vocabulary. induction (concat docs) as [|u l IH]; simpl; [tauto|].
  rewrite insert_term_In, IH. split; intros [H|H]; auto.
Qed.

Lemma build_vocabulary_sorted (docs : list (list string)) :
  StronglySorted precedes (build_vocabulary docs).
Proof.
  unfold build_vocabulary. induction (concat docs) as [|u l IH]; simpl.
  - constructor.
  - now apply insert_term_sorted.
Qed.

Lemma build_vocabulary_nil (docs : list (list string)) :
  build_vocabulary docs = [] <-> Forall (fun doc => doc = []) docs.
Proof.
  split.
  - intros H. apply List.Forall_forall. intros doc Hdoc.
    destruct doc as [|t doc]; [reflexivity|]. exfalso.
    assert (K : In t (build_vocabulary docs)).
    { apply build_vocabulary_In, in_concat. exists (t :: doc).
      split; [assumption | now left]. }
    rewrite H in K. exact K.
  - intros H. destruct (build_vocabulary docs) as [|t voc] eqn:E; [reflexivity|].
    exfalso. assert (K : In t (build_vocabulary docs)) by (rewrite E; now left).
    apply build_vocabulary_In, in_concat in K as (doc & Hdoc & Ht).
    rewrite List.Forall_forall in H. rewrite (H doc Hdoc) in Ht. exact Ht.
Qed.

End VocabularyFacts.

(** X22.  The vocabulary of a fitted vectorizer consists of the terms of the
    documents it was fitted on, each once, in ascending order of the strings;
    there is one weight per term, and no weight is below 1. *)
Theorem fit_vocabulary (english : list string) (corpus : list cell)
    (v : Sklearn.TfidfVectorizer) :
  Sklearn.fit english corpus = Ok v ->
  exists texts : list string,
    corpus = List.map Str texts /\
    (forall t : string,
        In t (Sklearn.vocabulary_ v) <->
        exists d : string, In d texts /\ In t (Sklearn.analyze english d)) /\
    StronglySorted precedes (Sklearn.vocabulary_ v) /\
    Sklearn.vocabulary_ v <> [] /\
    length (Sklearn.idf_ v) = length (Sklearn.vocabulary_ v) /\
    Forall (fun x => (1 <= x)%R) (Sklearn.idf_ v).
Proof.
  intros H. apply fit_inv in H as (texts & -> & _ & Hvoc & Hne & Hidf).
  exists texts. split; [reflexivity|]. split; [|split; [|split; [|split]]].
  - intros t. rewrite Hvoc, build_vocabulary_In, in_concat. split.
    + intros (doc & Hdoc & Ht). apply List.in_map_iff in Hdoc as (d & <- & Hd).
      now exists d.
    + intros (d & Hd & Ht). exists (Sklearn.analyze english d).
      split; [now apply List.in_map | assumption].
  - rewrite Hvoc. apply build_vocabulary_sorted.
  - exact Hne.
  - rewrite Hidf. apply List.length_map.
  - rewrite Hidf. apply List.Forall_map, List.Forall_forall. intros t _.
    apply idf_ge_1.
Qed.

Lemma fit_vocabulary_witness :
  exists v : Sklearn.TfidfVectorizer,
    Sklearn.fit sample_stop_words sample_corpus = Ok v /\
    StronglySorted precedes (Sklearn.vocabulary_ v) /\
    length (Sklearn.idf_ v) = 5%nat.
Proof.
  eexists. split; [reflexivity|].
  match goal with
  | |- context [Sklearn.vocabulary_ ?v] =>
      destruct (fit_vocabulary sample_stop_words sample_corpus v eq_refl)
        as (texts & _ & _ & Hsorted & _ & Hlen & _)
  end.
  split; [exact Hsorted | exact Hlen].
Defined.

(** X23.  Fitting fails for want of a vocabulary exactly when no document has
    a term (the table is empty, or its skill texts hold nothing but stop
    words and single letters); [get_vectorizer] then raises and creates no
    object. *)
Theorem get_vectorizer_empty_vocabulary (english : list string) (texts : list string) :
  (Sklearn.fit english (List.map Str texts) = Raise ValueError <->
   Forall (fun d => Sklearn.analyze english d = []) texts) /\
  (forall e : exn, Sklearn.fit english (List.map Str texts) = Raise e -> e = ValueError) /\
  (forall (df : loc) (h : heap) (frame : DataFrame),
      h !! df = Some (Frame frame) ->
      Pandas.getitem "required_skills" frame = Ok (List.map Str texts) ->
      Forall (fun d => Sklearn.analyze english d = []) texts ->
      get_vectorizer english df h = (Raise ValueError, h)).
Proof.
  assert (Hfit : Sklearn.fit english (List.map Str texts) = Raise ValueError <->
                 Forall (fun d => Sklearn.analyze english d = []) texts).
  { unfold Sklearn.fit. rewrite as_text_strs. simpl.
    pose proof (build_vocabulary_nil (List.map (Sklearn.analyze english) texts)) as K.
    rewrite List.Forall_map in K.
    destruct (Sklearn.build_vocabulary _) as [|t voc].
    - split; [intros _; now apply K | reflexivity].
    - split; [discriminate|]. intros H. apply K in H. discriminate. }
  split; [exact Hfit|]. split.
  - intros e. unfold Sklearn.fit. rewrite as_text_strs. simpl.
    destruct (Sklearn.build_vocabulary _); [|discriminate]. now intros [= <-].
  - intros df h frame Hdf Hdocs Hall. apply Hfit in Hall.
    unfold get_vectorizer. rewrite bind_run. unfold read_frame. rewrite Hdf.
    rewrite bind_run. unfold lift at 1. rewrite Hdocs.
    rewrite bind_run. unfold lift. now rewrite Hall.
Qed.

(** ** When a skill score is positive *)


(** X24.  In a fitted space the skill score of a text against the query is
    positive exactly when the two share a term of the vocabulary, and 0
    otherwise: terms that the vectorizer was not fitted on, stop words and
    single letters do not count. *)
Theorem skill_score_positive (english : list string) (corpus : list cell)
    (v : Sklearn.TfidfVectorizer) (user_skills d : string) :
  Sklearn.fit english corpus = Ok v ->
  ((0 < Sklearn.cosine (Sklearn.embed v user_skills) (Sklearn.embed v d))%R <->
   exists t : string, shared_term v user_skills d t) /\
  ((forall t : string, ~ shared_term v user_skills d t) ->
   Sklearn.cosine (Sklearn.embed v user_skills) (Sklearn.embed v d) = 0%R).
Proof.
  intros Hfit. split.
  - now apply (shared_term_positive english corpus).
  - now apply (no_shared_term_zero english corpus).
Qed.

Lemma skill_score_positive_witness :
  exists v : Sklearn.TfidfVectorizer,
    Sklearn.fit sample_stop_words sample_corpus = Ok v /\
    (0 < Sklearn.cosine (Sklearn.embed v "Python and R") (Sklearn.embed v "python, sql"))%R /\
    Sklearn.cosine (Sklearn.embed v "Python and R") (Sklearn.embed v "java, spring") = 0%R.
Proof.
  eexists. split; [reflexivity|].
  match goal with
  | |- context [Sklearn.embed ?v _] =>
      pose proof (skill_score_positive sample_stop_words sample_corpus v
                    "Python and R" "python, sql" eq_refl) as [H1 _];
      pose proof (skill_score_positive sample_stop_words sample_corpus v
                    "Python and R" "java, spring" eq_refl) as [_ H2]
  end.
  split.
  - apply H1. exists "python". repeat split.
    + right. right. left. reflexivity.
    + left. reflexivity.
    + left. reflexivity.
  - apply H2. intros t (_ & Hq & Hd).
    destruct Hq as [<-|[]]. destruct Hd as [E|[E|[]]]; discriminate E.
Defined.

Section BagOfWords.

Import Sklearn.
Local Open Scope list_scope.

Lemma filter_permutation {A} (f : A -> bool) (l k : list A) :
  Permutation l k -> Permutation (List.filter f l) (List.filter f k).
Proof.
  induction 1 as [|x l k _ IH|x y l|l k m _ IH1 _ IH2]; simpl.
  - constructor.
  - destruct (f x); [now constructor | assumption].
  - destruct (f x), (f y); try reflexivity. apply perm_swap.
  - now transitivity (List.filter f k).
Qed.

Lemma term_count_permutation (t : string) (doc doc' : list string) :
  Permutation doc doc' -> term_count t doc = term_count t doc'.
Proof.
  intros H. unfold term_count.
  apply Permutation_length. now apply filter_permutation.
Qed.

Lemma embed_permutation (v : TfidfVectorizer) (a b : string) :
  Permutation (analyze (stop_words_ v) a) (analyze (stop_words_ v) b) ->
  embed v a = embed v b.
Proof.
  intros H. unfold embed, tfidf_row. f_equal. f_equal.
  apply List.map_ext. intros t. f_equal. now apply term_count_permutation.
Qed.

End BagOfWords.

(** X25.  A text is scored as the bag of its terms: two queries with the same
    terms, each as often, in whatever order, case and punctuation, have the
    same row in the fitted space and receive the same skill scores. *)
Theorem skill_scores_bag_of_words (v : Sklearn.TfidfVectorizer)
    (user_skills other : string) (docs : list cell) :
  Permutation (Sklearn.analyze (Sklearn.stop_words_ v) user_skills)
    (Sklearn.analyze (Sklearn.stop_words_ v) other) ->
  Sklearn.embed v user_skills = Sklearn.embed v other /\
  skill_scores v user_skills docs = skill_scores v other docs /\
  skill_scores v (Text.lower user_skills) docs = skill_scores v user_skills docs.
Proof.
  intros H. pose proof (embed_permutation v user_skills other H) as E.
  split; [exact E|]. split.
  - unfold skill_scores, Sklearn.transform. simpl. now rewrite E.
  - unfold skill_scores, Sklearn.transform. simpl.
    unfold Sklearn.embed. now rewrite analyze_lower.
Qed.

Lemma skill_scores_bag_of_words_witness :
  exists v : Sklearn.TfidfVectorizer,
    Sklearn.fit sample_stop_words sample_corpus = Ok v /\
    skill_scores v "SQL and Python" sample_corpus
    = skill_scores v "python, sql" sample_corpus.
Proof.
  eexists. split; [reflexivity|].
  refine (proj1 (proj2 (skill_scores_bag_of_words _ "SQL and Python" "python, sql"
                          sample_corpus _))).
  apply perm_swap.
Defined.

(** ** The columns that a pass reads *)

Section PassInputs.

Import Pandas.
Local Open Scope list_scope.

Variable argsort : list fval -> list nat.

(** the outcome of a pass as a function of what it reads *)
Lemma enhanced_recommendations_eval (user_skills : string) (df vectorizer : loc)
    (w : Weights) (h : heap) (frame : DataFrame) :
  h !! df = Some (Frame frame) ->
  enhanced_recommendations argsort user_skills df vectorizer w h
  = match h !! vectorizer with
    | Some (Vectorizer v) =>
        match getitem "required_skills" frame with
        | Ok docs =>
            match skill_scores v user_skills docs with
            | Ok scores =>
                match floats "salary_min" frame with
                | Ok smin =>
                    (Ok (take (nargsort_desc argsort (pass_scores w scores smin))
                           (pass_frame w frame scores smin)),
                     <[df := Frame (pass_frame w frame scores smin)]> h)
                | Raise e => (Raise e, h)
                end
            | Raise e => (Raise e, h)
            end
        | Raise e => (Raise e, h)
        end
    | _ => (Raise TypeError, h)
    end.
Proof.
  intros Hdf.
  destruct (h !! vectorizer) as [[f0|v]|] eqn:Hv.
  1,3: unfold enhanced_recommendations; rewrite bind_run; unfold read_frame at 1;
       rewrite Hdf, bind_run; unfold read_vectorizer; now rewrite Hv.
  destruct (getitem "required_skills" frame) as [docs|e] eqn:Hdocs.
  2: unfold enhanced_recommendations; rewrite bind_run; unfold read_frame at 1;
     rewrite Hdf, bind_run; unfold read_vectorizer; rewrite Hv, bind_run;
     unfold lift at 1; now rewrite Hdocs.
  destruct (skill_scores v user_skills docs) as [scores|e] eqn:Hscores.
  2: unfold enhanced_recommendations; rewrite bind_run; unfold read_frame at 1;
     rewrite Hdf, bind_run; unfold read_vectorizer; rewrite Hv, bind_run;
     unfold lift at 1; rewrite Hdocs, bind_run; unfold lift at 1;
     now rewrite Hscores.
  destruct (floats "salary_min" frame) as [smin|e] eqn:Hsmin.
  - exact (enhanced_recommendations_ok argsort user_skills df vectorizer w h frame v
             docs scores smin Hdf Hv Hdocs Hscores Hsmin).
  - unfold enhanced_recommendations; rewrite bind_run; unfold read_frame at 1;
      rewrite Hdf, bind_run; unfold read_vectorizer; rewrite Hv, bind_run;
      unfold lift at 1; rewrite Hdocs, bind_run; unfold lift at 1;
      rewrite Hscores, bind_run.
    unfold normalize_salary. rewrite bind_run. unfold read_frame at 1.
    rewrite Hdf, bind_run. unfold lift at 1. now rewrite Hsmin.
Qed.

Lemma getitem_same (name : string) (f1 f2 : DataFrame) :
  Forall2 (fun r1 r2 => fields r1 !! name = fields r2 !! name) f1 f2 ->
  getitem name f1 = getitem name f2.
Proof.
  unfold getitem. induction 1 as [|r1 r2 f1 f2 Hr _ IH]; simpl; [reflexivity|].
  now rewrite Hr, IH.
Qed.

Lemma take_map {A B} (f : A -> B) (ix : list nat) (l : list A) :
  take ix (List.map f l) = List.map f (take ix l).
Proof.
  induction ix as [|i ix IH]; [reflexivity|].
  rewrite !take_cons, list_lookup_fmap, IH. now destruct (l !! i).
Qed.

End PassInputs.

(** X26.  A pass reads two columns of the frame and no other: the skills
    text and the salary minimum.  On two frames whose rows agree in these
    and in their labels (whatever their upper salary figures, locations or
    titles) it raises the same exception, or returns the rows in the same
    order with the same match scores. *)
Theorem pass_reads_two_columns (argsort : list fval -> list nat)
    (user_skills : string) (df vectorizer : loc) (w : Weights) (h : heap)
    (frame1 frame2 : DataFrame) :
  Forall2 same_inputs frame1 frame2 ->
  same_ranking
    (fst (enhanced_recommendations argsort user_skills df vectorizer w
            (<[df := Frame frame1]> h)))
    (fst (enhanced_recommendations argsort user_skills df vectorizer w
            (<[df := Frame frame2]> h))).
Proof.
  intros H.
  rewrite (enhanced_recommendations_eval argsort user_skills df vectorizer w _ frame1)
    by apply lookup_insert_eq.
  rewrite (enhanced_recommendations_eval argsort user_skills df vectorizer w _ frame2)
    by apply lookup_insert_eq.
  assert (Hv : (<[df := Frame frame1]> h) !! vectorizer = None /\
               (<[df := Frame frame2]> h) !! vectorizer = None \/
               (exists f1 f2, (<[df := Frame frame1]> h) !! vectorizer = Some (Frame f1) /\
                              (<[df := Frame frame2]> h) !! vectorizer = Some (Frame f2)) \/
               (exists v, (<[df := Frame frame1]> h) !! vectorizer = Some (Vectorizer v) /\
                          (<[df := Frame frame2]> h) !! vectorizer = Some (Vectorizer v))).
  { destruct (decide (vectorizer = df)) as [->|Hne].
    - right. left. exists frame1, frame2. now rewrite !lookup_insert_eq.
    - rewrite !lookup_insert_ne by congruence.
      destruct (h !! vectorizer) as [[f|v]|].
      + right. left. now exists f, f.
      + right. right. now exists v.
      + now left. }
  destruct Hv as [[-> ->]|[(f1 & f2 & -> & ->)|(v & -> & ->)]]; try reflexivity.
  assert (Hs : Pandas.getitem "required_skills" frame1
               = Pandas.getitem "required_skills" frame2).
  { apply getitem_same. eapply Forall2_impl; [exact H|]. now intros r1 r2 (_ & E & _). }
  assert (Hm : floats "salary_min" frame1 = floats "salary_min" frame2).
  { unfold floats. f_equal. apply getitem_same.
    eapply Forall2_impl; [exact H|]. now intros r1 r2 (_ & _ & E). }
  assert (Hl : List.map label frame1 = List.map label frame2).
  { clear -H. induction H as [|r1 r2 f1 f2 (E & _) _ IH]; simpl; [reflexivity|].
    now rewrite E, IH. }
  rewrite <- Hs, <- Hm.
  destruct (Pandas.getitem "required_skills" frame1) as [docs|e] eqn:Hdocs;
    [|reflexivity].
  destruct (skill_scores v user_skills docs) as [scores|e] eqn:Hscores;
    [|reflexivity].
  destruct (floats "salary_min" frame1) as [smin|e] eqn:Hsmin; [|reflexivity].
  assert (L1 : length smin = length frame1) by now apply floats_length in Hsmin.
  assert (S1 : length scores = length frame1).
  { rewrite (skill_scores_length _ _ _ _ Hscores). now apply getitem_length in Hdocs. }
  assert (L12 : length frame1 = length frame2) by exact (Forall2_length _ _ _ H).
  assert (L2 : length smin = length frame2) by lia.
  assert (S2 : length scores = length frame2) by lia.
  simpl. split.
  - rewrite <- !take_map.
    rewrite (scored_labels frame1 _ (pass_frame_scored w frame1 scores smin L1 S1)).
    rewrite (scored_labels frame2 _ (pass_frame_scored w frame2 scores smin L2 S2)).
    now rewrite Hl.
  - rewrite (floats_take "match_score" _ _ _ (pass_frame_floats w frame1 scores smin L1 S1)).
    now rewrite (floats_take "match_score" _ _ _
                   (pass_frame_floats w frame2 scores smin L2 S2)).
Qed.

Lemma pass_reads_two_columns_witness :
  exists v : Sklearn.TfidfVectorizer,
    Sklearn.fit sample_stop_words sample_corpus = Ok v /\
    Forall2 same_inputs advert_jobs (List.map moved advert_jobs) /\
    same_ranking
      (fst (enhanced_recommendations Argsort.keeping_ties "python" 0%nat 1%nat
              unit_weights (<[0%nat := Frame advert_jobs]> {[ 1%nat := Vectorizer v ]})))
      (fst (enhanced_recommendations Argsort.keeping_ties "python" 0%nat 1%nat
              unit_weights
              (<[0%nat := Frame (List.map moved advert_jobs)]>
                 {[ 1%nat := Vectorizer v ]}))).
Proof.
  eexists. split; [reflexivity|].
  assert (H : Forall2 same_inputs advert_jobs (List.map moved advert_jobs))
    by (repeat constructor).
  split; [exact H|]. now apply pass_reads_two_columns.
Defined.
